(** * A shallow embedding of the [yamlvalidator] package

    The Go package walks a parsed YAML document (a tree of [yaml.Node]) along
    a fixed Pod schema and appends one [ValidationError] per violation to an
    [ErrorCollector].  This file embeds that walk as a state-and-failure monad
    over the collector and proves properties of the walk. *)

From Stdlib Require Import ZArith Ascii String DecimalString DecimalPos DecimalZ.
From stdpp Require Import base option list strings gmap.

Local Open Scope Z_scope.

(* set_solver and naive_solver clear hypotheses that may be gone already *)
Set Warnings "-clear-no-such-hyp".

(** ** The parsed document: [yaml.Node] *)

Module yaml.

(** [yaml.Kind]: the five node kinds of gopkg.in/yaml.v3. *)
Inductive NodeKind : Set :=
| DocumentNode
| SequenceNode
| MappingNode
| ScalarNode
| AliasNode.

(** The fields of [yaml.Node] the validator reads.  For a mapping node
    [Content] alternates keys and values, for a sequence node it lists the
    elements. *)
#[warnings="-register-all"]
Inductive Node : Type :=
  mkNode { Kind : NodeKind; Value : string; Content : list Node; Line : Z }.

#[global] Instance NodeKind_eq_dec : EqDecision NodeKind.
Proof. solve_decision. Defined.

End yaml.


(** ** errorhandler.go *)

Record ValidationError : Type :=
  { FilePath : string; Line : Z; Message : string }.

Record ErrorCollector : Type := { Errors : list ValidationError }.

(** [ec.Errors = append(ec.Errors, err)] *)
Definition Add (ec : ErrorCollector) (err : ValidationError) : ErrorCollector :=
  {| Errors := Errors ec ++ [err] |}.

Definition HasErrors (ec : ErrorCollector) : bool :=
  bool_decide (0 < length (Errors ec))%nat.


(** ** The standard library the package calls: [regexp] and [strconv] *)

Module regexp.

(** Regular expressions over bytes.  The patterns of constants.go use only
    ASCII classes, literals and [.]; on those a byte-wise reading agrees
    with Go's rune-wise one, because the byte 10 occurs in UTF-8 text only
    as the newline itself. *)
Inductive re : Type :=
| Void
| Eps
| Class (p : ascii -> bool)
| Cat (r s : re)
| Alt (r s : re)
| Star (r : re).

Definition Plus (r : re) : re := Cat r (Star r).
Definition Chr (c : ascii) : re := Class (Ascii.eqb c).

Fixpoint Lit (s : string) : re :=
  match s with
  | EmptyString => Eps
  | String c s' => Cat (Chr c) (Lit s')
  end.

(** [\d], [[a-z]], [.] (any byte but the newline) and [(?s:.)]. *)
Definition isDigit (c : ascii) : bool :=
  ((48 <=? nat_of_ascii c) && (nat_of_ascii c <=? 57))%nat.
Definition isLower (c : ascii) : bool :=
  ((97 <=? nat_of_ascii c) && (nat_of_ascii c <=? 122))%nat.
Definition notNewline (c : ascii) : bool := negb (Ascii.eqb c "010"%char).

Definition Digit : re := Class isDigit.
Definition Lower : re := Class isLower.
Definition Dot : re := Class notNewline.
Definition Any : re := Class (fun _ => true).

(** Every byte of [s] satisfies [p]. *)
Fixpoint allOf (p : ascii -> bool) (s : string) : bool :=
  match s with
  | EmptyString => true
  | String c s' => p c && allOf p s'
  end.

(** The language of an expression. *)
Inductive Matches : re -> string -> Prop :=
| MEps : Matches Eps ""
| MClass p c : p c = true -> Matches (Class p) (String c "")
| MCat r1 r2 s1 s2 :
    Matches r1 s1 -> Matches r2 s2 -> Matches (Cat r1 r2) (s1 +:+ s2)
| MAltL r1 r2 s : Matches r1 s -> Matches (Alt r1 r2) s
| MAltR r1 r2 s : Matches r2 s -> Matches (Alt r1 r2) s
| MStarNil r : Matches (Star r) ""
| MStarCons r s1 s2 :
    Matches r s1 -> Matches (Star r) s2 -> Matches (Star r) (s1 +:+ s2).

(** Matching by Brzozowski derivatives. *)
Fixpoint nullable (r : re) : bool :=
  match r with
  | Void => false
  | Eps => true
  | Class _ => false
  | Cat r1 r2 => nullable r1 && nullable r2
  | Alt r1 r2 => nullable r1 || nullable r2
  | Star _ => true
  end.

Fixpoint deriv (c : ascii) (r : re) : re :=
  match r with
  | Void => Void
  | Eps => Void
  | Class p => if p c then Eps else Void
  | Cat r1 r2 =>
      if nullable r1 then Alt (Cat (deriv c r1) r2) (deriv c r2)
      else Cat (deriv c r1) r2
  | Alt r1 r2 => Alt (deriv c r1) (deriv c r2)
  | Star r1 => Cat (deriv c r1) (Star r1)
  end.

Fixpoint matchb (r : re) (s : string) : bool :=
  match s with
  | EmptyString => nullable r
  | String c s' => matchb (deriv c r) s'
  end.

(** A compiled pattern: its body, whether it starts with [^] and whether
    it ends with [$] (without the [m] flag [$] is the end of the text). *)
Record Regexp : Type :=
  { anchoredStart : bool; body : re; anchoredEnd : bool }.

Definition MatchString (rx : Regexp) (s : string) : bool :=
  matchb
    (Cat (if anchoredStart rx then Eps else Star Any)
         (Cat (body rx) (if anchoredEnd rx then Eps else Star Any)))
    s.

(** The way of cutting [s] in two that [ok] accepts and whose first part
    is longest. *)
Fixpoint longestSplit (ok : string -> string -> bool) (s : string)
  : option (string * string) :=
  match s with
  | EmptyString => if ok "" "" then Some ("", "") else None
  | String c s' =>
      match longestSplit (fun a b => ok (String c a) b) s' with
      | Some (a, b) => Some (String c a, b)
      | None => if ok "" s then Some ("", s) else None
      end
  end.

(** [FindStringSubmatch] of a pattern [^(g1)(g2)$]: the whole match and
    the text of the two groups, or [None] for Go's nil.  The first group
    of the one such pattern of constants.go is a greedy [\d+], which
    takes the longest text that lets the rest match. *)
Definition FindStringSubmatch2 (g1 g2 : re) (s : string)
  : option (list string) :=
  match longestSplit (fun a b => matchb g1 a && matchb g2 b) s with
  | Some (a, b) => Some [s; a; b]
  | None => None
  end.

End regexp.

Module strconv.

(** Go's [int] on the 64-bit platforms. *)
Definition IntSize : Z := 64.
Definition maxInt : Z := 2 ^ (IntSize - 1) - 1.
Definition minInt : Z := - 2 ^ (IntSize - 1).

Definition digitValue (c : ascii) : Z := Z.of_nat (nat_of_ascii c) - 48.

(** The value of a run of decimal digits, [None] at a byte that is not a
    digit. *)
Fixpoint parseDigits (s : string) (acc : Z) : option Z :=
  match s with
  | EmptyString => Some acc
  | String c s' =>
      if regexp.isDigit c then parseDigits s' (acc * 10 + digitValue c)
      else None
  end.

(** [strconv.Atoi]: an optional sign, then at least one decimal digit,
    the value within [int]; [None] stands for a non-nil [err] (a syntax
    or a range error, the package only tests [err != nil]). *)
Definition Atoi (s : string) : option Z :=
  match s with
  | EmptyString => None
  | String c s' =>
      let neg := Ascii.eqb c "-"%char in
      let ds := if neg || Ascii.eqb c "+"%char then s' else s in
      match ds with
      | EmptyString => None
      | _ =>
          match parseDigits ds 0 with
          | None => None
          | Some n =>
              let i := if neg then - n else n in
              if ((minInt <=? i) && (i <=? maxInt))%Z then Some i else None
          end
      end
  end.

End strconv.

(** ** constants.go *)

Definition APIVersionExpected : string := "v1".
Definition KindExpected : string := "Pod".

(** [^[a-z]+(_[a-z]+)*$] *)
Definition RegexSnakeCase : regexp.Regexp :=
  {| regexp.anchoredStart := true;
     regexp.body :=
       regexp.Cat (regexp.Plus regexp.Lower)
         (regexp.Star (regexp.Cat (regexp.Chr "_") (regexp.Plus regexp.Lower)));
     regexp.anchoredEnd := true |}.

(** [^registry\.bigbrother\.io/(.+):(.+)$] *)
Definition RegexImage : regexp.Regexp :=
  {| regexp.anchoredStart := true;
     regexp.body :=
       regexp.Cat (regexp.Lit "registry.bigbrother.io/")
         (regexp.Cat (regexp.Plus regexp.Dot)
            (regexp.Cat (regexp.Chr ":") (regexp.Plus regexp.Dot)));
     regexp.anchoredEnd := true |}.

(** [^(\d+)(Mi|Gi|Ki)$], as its two groups. *)
Definition RegexMemory_amount : regexp.re := regexp.Plus regexp.Digit.
Definition RegexMemory_unit : regexp.re :=
  regexp.Alt (regexp.Lit "Mi") (regexp.Alt (regexp.Lit "Gi") (regexp.Lit "Ki")).
Definition RegexMemory_FindStringSubmatch : string -> option (list string) :=
  regexp.FindStringSubmatch2 RegexMemory_amount RegexMemory_unit.

(** [^/.*] *)
Definition RegexAbsolutePath : regexp.Regexp :=
  {| regexp.anchoredStart := true;
     regexp.body := regexp.Cat (regexp.Chr "/") (regexp.Star regexp.Dot);
     regexp.anchoredEnd := false |}.

Definition SupportedOSNames : list string := ["linux"; "windows"].
Definition SupportedProtocols : list string := ["TCP"; "UDP"].

Definition PortNumberMin : Z := 1.
Definition PortNumberMax : Z := 65535.

(** Modelled from the spec: [ContainsString] is called by [validateOS] and
    [validateProtocol] but its body is not among the source files; the spec
    says the value must be one of the fixed set, so it is membership of the
    string in the slice. *)
Definition ContainsString (s : string) (list : list string) : bool :=
  existsb (String.eqb s) list.


(** ** validator.go: the [Validator] and its methods *)

Module Validator.
Record t : Type :=
  mk { FilePath : string; RootNode : yaml.Node; ErrorCollector : ErrorCollector }.
End Validator.

(** What [NewValidator] builds once the file is read and parsed. *)
Definition NewValidator (relPath : string) (root : yaml.Node) : Validator.t :=
  {| Validator.FilePath := relPath;
     Validator.RootNode := root;
     Validator.ErrorCollector := {| Errors := [] |} |}.

(** A method of [*Validator]: it runs on the validator, may append to its
    collector, and either returns or stops the program with a run-time panic
    ([None]). *)
Definition Exec (A : Type) : Type := Validator.t -> option (A * Validator.t).

#[global] Instance Exec_ret : MRet Exec := λ A a v, Some (a, v).
#[global] Instance Exec_bind : MBind Exec := λ A B k m v,
  match m v with
  | Some (a, v') => k a v'
  | None => None
  end.

(** index out of range *)
Definition panic {A : Type} : Exec A := λ _, None.

(** [v.ErrorCollector.Add(&ValidationError{FilePath: v.FilePath, Line: line,
    Message: message})] *)
Definition report (line : Z) (message : string) : Exec unit := λ v,
  Some (tt,
        {| Validator.FilePath := Validator.FilePath v;
           Validator.RootNode := Validator.RootNode v;
           Validator.ErrorCollector :=
             Add (Validator.ErrorCollector v)
               {| FilePath := Validator.FilePath v;
                  Line := line;
                  Message := message |} |}).

(** [for i := 0; i < len(content); i += 2 { keyNode := content[i];
    valueNode := content[i+1]; ... }], with the loop's variables in [s]. *)
Fixpoint forPairs {S : Type} (content : list yaml.Node)
    (body : yaml.Node -> yaml.Node -> S -> Exec S) (s : S) : Exec S :=
  match content with
  | [] => mret s
  | [_] => panic
  | keyNode :: valueNode :: rest =>
      s' ← body keyNode valueNode s; forPairs rest body s'
  end.

(** [for _, x := range xs { ... }] *)
Fixpoint forRange {A : Type} (xs : list A) (body : A -> Exec unit) : Exec unit :=
  match xs with
  | [] => mret tt
  | x :: xs' => body x;; forRange xs' body
  end.

(** [visitedFields[field]] of a [map[string]bool]: false for a missing key. *)
Definition visited (visitedFields : gmap string bool) (field : string) : bool :=
  default false (visitedFields !! field).

(** The first loop of every object validator: each key is marked visited
    and its value handed to the [switch]. *)
Definition visitPair (switch : string -> yaml.Node -> Exec unit)
    (keyNode valueNode : yaml.Node) (visitedFields : gmap string bool)
  : Exec (gmap string bool) :=
  let key := yaml.Value keyNode in
  let visitedFields := <[key := true]> visitedFields in
  switch key valueNode;;
  mret visitedFields.

Definition visitFields (node : yaml.Node)
    (switch : string -> yaml.Node -> Exec unit) : Exec (gmap string bool) :=
  forPairs (yaml.Content node) (visitPair switch) ∅.

(** The second loop of every object validator. *)
Definition checkRequired (node : yaml.Node) (requiredFields : list string)
    (visitedFields : gmap string bool) : Exec unit :=
  forRange requiredFields
    (λ field,
       if negb (visited visitedFields field)
       then report (yaml.Line node) (field +:+ " is required")
       else mret tt).

Definition validateAPIVersion (node : yaml.Node) : Exec unit :=
  if decide (yaml.Kind node ≠ yaml.ScalarNode ∨ yaml.Value node ≠ APIVersionExpected)
  then report (yaml.Line node)
         ("apiVersion has unsupported value '" +:+ yaml.Value node +:+ "'")
  else mret tt.

Definition validateKind (node : yaml.Node) : Exec unit :=
  if decide (yaml.Kind node ≠ yaml.ScalarNode ∨ yaml.Value node ≠ KindExpected)
  then report (yaml.Line node)
         ("kind has unsupported value '" +:+ yaml.Value node +:+ "'")
  else mret tt.

Definition validateName (node : yaml.Node) (checkSnakeCase : bool) : Exec unit :=
  if decide (yaml.Kind node ≠ yaml.ScalarNode)
  then report (yaml.Line node) "name must be string"
  else if decide (yaml.Value node = "")
  then report (yaml.Line node) "name is required"
  else if checkSnakeCase && negb (regexp.MatchString RegexSnakeCase (yaml.Value node))
  then report (yaml.Line node)
         ("name has invalid format '" +:+ yaml.Value node +:+ "'")
  else mret tt.

Definition validateLabels (node : yaml.Node) : Exec unit :=
  if decide (yaml.Kind node ≠ yaml.MappingNode)
  then report (yaml.Line node) "labels must be a mapping"
  else
    forPairs (yaml.Content node)
      (λ _ valueNode _,
         if decide (yaml.Kind valueNode ≠ yaml.ScalarNode)
         then report (yaml.Line valueNode) "label value must be string"
         else mret tt)
      tt.

Definition validateMetadata (node : yaml.Node) : Exec unit :=
  let requiredFields := ["name"] in
  visitedFields ← visitFields node
    (λ key valueNode,
       if decide (key = "name") then validateName valueNode false
       else if decide (key = "labels") then validateLabels valueNode
       else mret tt);
  checkRequired node requiredFields visitedFields.

Definition validateOS (node : yaml.Node) : Exec unit :=
  if decide (yaml.Kind node ≠ yaml.ScalarNode)
  then report (yaml.Line node) "os must be string"
  else if negb (ContainsString (yaml.Value node) SupportedOSNames)
  then report (yaml.Line node)
         ("os has unsupported value '" +:+ yaml.Value node +:+ "'")
  else mret tt.

Definition validateImage (node : yaml.Node) : Exec unit :=
  if decide (yaml.Kind node ≠ yaml.ScalarNode)
  then report (yaml.Line node) "image must be string"
  else if negb (regexp.MatchString RegexImage (yaml.Value node))
  then report (yaml.Line node)
         ("image has invalid format '" +:+ yaml.Value node +:+ "'")
  else mret tt.

Definition validatePortNumber (node : yaml.Node) (fieldName : string) : Exec unit :=
  if decide (yaml.Kind node ≠ yaml.ScalarNode)
  then report (yaml.Line node) (fieldName +:+ " must be int")
  else
    match strconv.Atoi (yaml.Value node) with
    | None => report (yaml.Line node) (fieldName +:+ " must be int")
    | Some port =>
        if ((port <? PortNumberMin) || (PortNumberMax <? port))%Z
        then report (yaml.Line node) (fieldName +:+ " value out of range")
        else mret tt
    end.

Definition validateProtocol (node : yaml.Node) : Exec unit :=
  if decide (yaml.Kind node ≠ yaml.ScalarNode)
  then report (yaml.Line node) "protocol must be string"
  else if negb (ContainsString (yaml.Value node) SupportedProtocols)
  then report (yaml.Line node)
         ("protocol has unsupported value '" +:+ yaml.Value node +:+ "'")
  else mret tt.

Definition validatePort (node : yaml.Node) : Exec unit :=
  let requiredFields := ["containerPort"] in
  visitedFields ← visitFields node
    (λ key valueNode,
       if decide (key = "containerPort")
       then validatePortNumber valueNode "containerPort"
       else if decide (key = "protocol") then validateProtocol valueNode
       else mret tt);
  checkRequired node requiredFields visitedFields.

Definition validatePorts (node : yaml.Node) : Exec unit :=
  if decide (yaml.Kind node ≠ yaml.SequenceNode)
  then report (yaml.Line node) "ports must be an array"
  else forRange (yaml.Content node) (λ portNode, validatePort portNode).

Definition validateHTTPPath (node : yaml.Node) : Exec unit :=
  if decide (yaml.Kind node ≠ yaml.ScalarNode)
  then report (yaml.Line node) "path must be string"
  else if negb (regexp.MatchString RegexAbsolutePath (yaml.Value node))
  then report (yaml.Line node)
         ("path has invalid format '" +:+ yaml.Value node +:+ "'")
  else mret tt.

Definition validateHTTPGet (node : yaml.Node) : Exec unit :=
  let requiredFields := ["path"; "port"] in
  visitedFields ← visitFields node
    (λ key valueNode,
       if decide (key = "path") then validateHTTPPath valueNode
       else if decide (key = "port") then validatePortNumber valueNode "port"
       else mret tt);
  checkRequired node requiredFields visitedFields.

Definition validateProbe (node : yaml.Node) : Exec unit :=
  let requiredFields := ["httpGet"] in
  visitedFields ← visitFields node
    (λ key valueNode,
       if decide (key = "httpGet") then validateHTTPGet valueNode
       else mret tt);
  checkRequired node requiredFields visitedFields.

Definition validateCPU (node : yaml.Node) : Exec unit :=
  if decide (yaml.Kind node ≠ yaml.ScalarNode)
  then report (yaml.Line node) "cpu must be int"
  else
    match strconv.Atoi (yaml.Value node) with
    | None => report (yaml.Line node) "cpu value out of range"
    | Some cpu =>
        if (cpu <? 1)%Z
        then report (yaml.Line node) "cpu value out of range"
        else mret tt
    end.

Definition validateMemory (node : yaml.Node) : Exec unit :=
  if decide (yaml.Kind node ≠ yaml.ScalarNode)
  then report (yaml.Line node) "memory must be string"
  else
    match RegexMemory_FindStringSubmatch (yaml.Value node) with
    | None =>
        report (yaml.Line node)
          ("memory has invalid format '" +:+ yaml.Value node +:+ "'")
    | Some matches =>
        match strconv.Atoi (default "" (matches !! 1%nat)) with
        | None => report (yaml.Line node) "memory value out of range"
        | Some amount =>
            if (amount <? 1)%Z
            then report (yaml.Line node) "memory value out of range"
            else mret tt
        end
    end.

Definition validateResourceRequirements (node : yaml.Node) : Exec unit :=
  forPairs (yaml.Content node)
    (λ keyNode valueNode _,
       let key := yaml.Value keyNode in
       if decide (key = "cpu") then validateCPU valueNode
       else if decide (key = "memory") then validateMemory valueNode
       else mret tt)
    tt.

Definition validateResources (node : yaml.Node) : Exec unit :=
  forPairs (yaml.Content node)
    (λ _ valueNode _, validateResourceRequirements valueNode)
    tt.

Definition validateContainer (node : yaml.Node) : Exec unit :=
  let requiredFields := ["name"; "image"; "resources"] in
  visitedFields ← visitFields node
    (λ key valueNode,
       if decide (key = "name") then validateName valueNode true
       else if decide (key = "image") then validateImage valueNode
       else if decide (key = "ports") then validatePorts valueNode
       else if decide (key = "readinessProbe") then validateProbe valueNode
       else if decide (key = "livenessProbe") then validateProbe valueNode
       else if decide (key = "resources") then validateResources valueNode
       else mret tt);
  checkRequired node requiredFields visitedFields.

Definition validateContainers (node : yaml.Node) : Exec unit :=
  if decide (yaml.Kind node ≠ yaml.SequenceNode)
  then report (yaml.Line node) "containers must be an array"
  else forRange (yaml.Content node) (λ containerNode, validateContainer containerNode).

Definition validateSpec (node : yaml.Node) : Exec unit :=
  let requiredFields := ["containers"] in
  visitedFields ← visitFields node
    (λ key valueNode,
       if decide (key = "os") then validateOS valueNode
       else if decide (key = "containers") then validateContainers valueNode
       else mret tt);
  checkRequired node requiredFields visitedFields.

Definition validatePod (node : yaml.Node) : Exec unit :=
  let requiredFields := ["apiVersion"; "kind"; "metadata"; "spec"] in
  visitedFields ← visitFields node
    (λ key valueNode,
       if decide (key = "apiVersion") then validateAPIVersion valueNode
       else if decide (key = "kind") then validateKind valueNode
       else if decide (key = "metadata") then validateMetadata valueNode
       else if decide (key = "spec") then validateSpec valueNode
       else mret tt);
  checkRequired node requiredFields visitedFields.

(** [v.RootNode] and [v.ErrorCollector.Errors] *)
Definition getRootNode : Exec yaml.Node := λ v, Some (Validator.RootNode v, v).
Definition getErrors : Exec (list ValidationError) := λ v,
  Some (Errors (Validator.ErrorCollector v), v).

(** [Validate] runs on the validator it is called on and returns the slice
    its collector then holds; the validator keeps that collector. *)
Definition Validate : Exec (list ValidationError) :=
  root ← getRootNode;
  forRange (yaml.Content root) (λ doc, validatePod doc);;
  getErrors.

(** ** Test documents *)

Definition scalar (line : Z) (value : string) : yaml.Node :=
  yaml.mkNode yaml.ScalarNode value [] line.
Definition mapping (line : Z) (content : list yaml.Node) : yaml.Node :=
  yaml.mkNode yaml.MappingNode "" content line.
Definition sequence (line : Z) (content : list yaml.Node) : yaml.Node :=
  yaml.mkNode yaml.SequenceNode "" content line.
Definition document (line : Z) (content : list yaml.Node) : yaml.Node :=
  yaml.mkNode yaml.DocumentNode "" content line.

(** Scenario A of the spec with the container's name and image as given.
    [ln i] is the source line of the [i]-th node in document order. *)
Definition scenarioPodAt (ln : nat → Z) (name image : string) : yaml.Node :=
  mapping (ln 1%nat)
    [scalar (ln 2%nat) "apiVersion"; scalar (ln 3%nat) "v1";
     scalar (ln 4%nat) "kind"; scalar (ln 5%nat) "Pod";
     scalar (ln 6%nat) "metadata";
     mapping (ln 7%nat) [scalar (ln 8%nat) "name"; scalar (ln 9%nat) "web"];
     scalar (ln 10%nat) "spec";
     mapping (ln 11%nat)
       [scalar (ln 12%nat) "containers";
        sequence (ln 13%nat)
          [mapping (ln 14%nat)
             [scalar (ln 15%nat) "name"; scalar (ln 16%nat) name;
              scalar (ln 17%nat) "image"; scalar (ln 18%nat) image;
              scalar (ln 19%nat) "resources";
              mapping (ln 20%nat)
                [scalar (ln 21%nat) "limits";
                 mapping (ln 22%nat)
                   [scalar (ln 23%nat) "cpu"; scalar (ln 24%nat) "1";
                    scalar (ln 25%nat) "memory"; scalar (ln 26%nat) "256Mi"]]]]]].

Definition scenarioAt (ln : nat → Z) (name image : string) : yaml.Node :=
  document (ln 0%nat) [scenarioPodAt ln name image].

(** The lines of the block-style file
<<
   1  apiVersion: v1
   2  kind: Pod
   3  metadata:
   4    name: web
   5  spec:
   6    containers:
   7      - name: ...
   8        image: ...
   9        resources:
  10          limits:
  11            cpu: 1
  12            memory: 256Mi
>>
    where a block mapping or sequence is on the line of its first entry. *)
Definition blockLayout (i : nat) : Z :=
  default 0
    ([1; 1; 1; 1; 2; 2; 3; 4; 4; 4; 5; 6; 6; 7; 7; 7; 7; 8; 8; 9; 10; 10;
      11; 11; 11; 12; 12] !! i).

Definition scenarioA : yaml.Node :=
  scenarioAt blockLayout "web_app" "registry.bigbrother.io/app:1.0".
Definition scenarioB : yaml.Node :=
  scenarioAt blockLayout "WebApp" "docker.io/app:1.0".

(** [sub] occurs in [s]. *)
Definition contains (sub s : string) : Prop := ∃ a b, s = a +:+ sub +:+ b.

(** The number a run of decimal digits denotes. *)
Fixpoint decimalValueFrom (acc : Z) (d : string) : Z :=
  match d with
  | EmptyString => acc
  | String c d' => decimalValueFrom (acc * 10 + strconv.digitValue c) d'
  end.
Definition decimalValue (d : string) : Z := decimalValueFrom 0 d.

(** [s] is an amount [d] of one or more digits followed by a unit [u]:
    [s] matches [^(\d+)(Mi|Gi|Ki)$] with the groups [d] and [u]. *)
Definition memoryPattern (s d u : string) : Prop :=
  s = d +:+ u ∧ d ≠ "" ∧ regexp.allOf regexp.isDigit d = true
  ∧ u ∈ ["Mi"; "Gi"; "Ki"].

(** The field a message is about, the text before its first space, and the
    rest of the message. *)
Fixpoint fieldOf (m : string) : string :=
  match m with
  | EmptyString => ""
  | String c m' => if Ascii.eqb c " " then "" else String c (fieldOf m')
  end.

Fixpoint restOf (m : string) : string :=
  match m with
  | EmptyString => ""
  | String c m' => if Ascii.eqb c " " then m' else restOf m'
  end.

(** A message's field, and whether it is the "<field> is required" one. *)
Definition msgTag (m : string) : string * bool :=
  (fieldOf m, String.eqb (restOf m) "is required").

Definition hasTag (tags : list (string * bool)) (e : ValidationError) : Prop :=
  msgTag (Message e) ∈ tags.

(** The messages of the validators a container's [switch] calls. *)
Definition switchTags : list (string * bool) :=
  [ ("name", false); ("name", true); ("image", false); ("ports", false);
    ("containerPort", false); ("containerPort", true); ("protocol", false);
    ("httpGet", true); ("path", false); ("path", true); ("port", false);
    ("port", true); ("cpu", false); ("memory", false) ].

(** The messages of [validateContainers], and of what [validateSpec] calls. *)
Definition containersTags : list (string * bool) :=
  ("containers", false) :: ("name", true) :: ("image", true)
  :: ("resources", true) :: switchTags.
Definition specSwitchTags : list (string * bool) :=
  ("os", false) :: containersTags.

(** The node with its children replaced. *)
Definition withContent (node : yaml.Node) (content : list yaml.Node) : yaml.Node :=
  yaml.mkNode (yaml.Kind node) (yaml.Value node) content (yaml.Line node).

(** The children of a mapping without the pairs whose key is [f]. *)
Fixpoint removePair (f : string) (content : list yaml.Node) : list yaml.Node :=
  match content with
  | keyNode :: valueNode :: rest =>
      if decide (yaml.Value keyNode = f) then removePair f rest
      else keyNode :: valueNode :: removePair f rest
  | _ => content
  end.

Definition removeField (f : string) (node : yaml.Node) : yaml.Node :=
  withContent node (removePair f (yaml.Content node)).

(** The keys of a mapping's children, in order. *)
Fixpoint pairKeys (content : list yaml.Node) : list string :=
  match content with
  | keyNode :: _ :: rest => yaml.Value keyNode :: pairKeys rest
  | _ => []
  end.

(** ** What a method appends, apart from the collector it starts with *)

Definition appendErrors (v : Validator.t) (es : list ValidationError) : Validator.t :=
  {| Validator.FilePath := Validator.FilePath v;
     Validator.RootNode := Validator.RootNode v;
     Validator.ErrorCollector :=
       {| Errors := Errors (Validator.ErrorCollector v) ++ es |} |}.

(** The result and the appended errors of [m] on a fresh validator (of an
    empty document: the methods below [Validate] get their node as an
    argument). *)
Definition run {A : Type} (m : Exec A) (path : string)
  : option (A * list ValidationError) :=
  match m (NewValidator path (document 0 [])) with
  | Some (a, v') => Some (a, Errors (Validator.ErrorCollector v'))
  | None => None
  end.

Definition lift {A : Type} (o : option (A * list ValidationError)) (v : Validator.t)
  : option (A * Validator.t) :=
  match o with
  | Some (a, es) => Some (a, appendErrors v es)
  | None => None
  end.

(** [m] only appends: on any validator it does what it does on a fresh one
    of the same file, after the errors already collected, and it does not
    read the document of the validator. *)
Definition uniform {A : Type} (m : Exec A) : Prop :=
  ∀ v, m v = lift (run m (Validator.FilePath v)) v.

(** Every error [m] appends satisfies [P]. *)
Definition emits {A : Type} (P : ValidationError -> Prop) (m : Exec A) : Prop :=
  ∀ path a es, run m path = Some (a, es) → Forall P es.

(** ** Reading what was appended *)

Definition bindOut {A B : Type} (o : option (A * list ValidationError))
    (k : A → option (B * list ValidationError)) : option (B * list ValidationError) :=
  match o with
  | Some (a, es) =>
      match k a with
      | Some (b, es') => Some (b, es ++ es')
      | None => None
      end
  | None => None
  end.

Definition mkError (v : Validator.t) (line : Z) (message : string) : ValidationError :=
  {| FilePath := Validator.FilePath v; Line := line; Message := message |}.

Definition requiredError (path : string) (node : yaml.Node) (field : string)
  : ValidationError :=
  {| FilePath := path; Line := yaml.Line node; Message := field +:+ " is required" |}.

(** The visited map after the first loop: every key of the mapping is set. *)
Definition markAll (keys : list string) (vis : gmap string bool) : gmap string bool :=
  foldl (λ m k, <[k := true]> m) vis keys.

(** [m] only appends, and only errors that satisfy [P]. *)
Definition sound {A : Type} (P : ValidationError → Prop) (m : Exec A) : Prop :=
  uniform m ∧ emits P m.

(** [m] returns on every validator: no panic. *)
Definition returns (m : Exec unit) : Prop := ∀ v, ∃ v', m v = Some (tt, v').

(** ** The statements of the scenarios, as the spec has them *)

(** Scenario C as the spec states it: the missing field first, both errors
    on the port node's line. *)
Definition scenarioC_as_stated (node : yaml.Node) (v : Validator.t) : Prop :=
  validatePort node v
  = Some (tt, appendErrors v
                [ mkError v (yaml.Line node) "containerPort is required";
                  mkError v (yaml.Line node) "protocol has unsupported value 'HTTP'" ]).

(** Scenario B as the spec states it: both errors on the line of the
    container node (node 14 of [scenarioAt]). *)
Definition scenarioB_as_stated (path : string) (ln : nat → Z) : Prop :=
  ∃ e1 e2,
    fst <$> Validate (NewValidator path (scenarioAt ln "WebApp" "docker.io/app:1.0"))
    = Some [e1; e2]
    ∧ Line e1 = ln 14%nat ∧ Line e2 = ln 14%nat
    ∧ contains "name has invalid format" (Message e1)
    ∧ contains "image has invalid format" (Message e2).

Definition scenarioB_errors : list ValidationError :=
  [ {| FilePath := "pod.yaml"; Line := 7;
       Message := "name has invalid format 'WebApp'" |};
    {| FilePath := "pod.yaml"; Line := 8;
       Message := "image has invalid format 'docker.io/app:1.0'" |} ].

(** Idempotence as the spec states it, for two invocations on the validator
    [v]: the second returns what the first returned. *)
Definition idempotent_as_stated (v : Validator.t) : Prop :=
  ∀ r1 v1 r2 v2,
    Validate v = Some (r1, v1) → Validate v1 = Some (r2, v2) → r2 = r1.

Definition outOfRange (field : string) (line : Z) : option (unit * Validator.t) :=
  Some (tt, Validator.mk "pod.yaml" (document 1 [])
              {| Errors := [ {| FilePath := "pod.yaml"; Line := line;
                                Message := field +:+ " value out of range" |} ] |}).

Definition memoryError (line : Z) (message : string) : option (unit * Validator.t) :=
  Some (tt, Validator.mk "pod.yaml" (document 1 [])
              {| Errors := [ {| FilePath := "pod.yaml"; Line := line;
                                Message := message |} ] |}).

(** ** Further test documents *)

(** Every mapping node of the tree has an even number of children. *)
Fixpoint mappingsEven (node : yaml.Node) : bool :=
  (if decide (yaml.Kind node = yaml.MappingNode)
   then Nat.even (length (yaml.Content node)) else true)
  && List.forallb mappingsEven (yaml.Content node).

(** The file whose only line is [- a]: a sequence of one scalar. *)
Definition sequenceDocument : yaml.Node :=
  document 1 [sequence 1 [scalar 1 "a"]].

(** [os: beos] and [containers: []] on the lines 5 and 6. *)
Definition specWithEmptyContainers : yaml.Node :=
  mapping 5 [scalar 5 "os"; scalar 5 "beos";
             scalar 6 "containers"; sequence 6 []].

Definition specWithEmptyContainers_errors : list ValidationError :=
  [ {| FilePath := "pod.yaml"; Line := 5;
       Message := "os has unsupported value 'beos'" |} ].

(** A container without image whose resources value is the scalar [none]. *)
Definition containerWithScalarResources : yaml.Node :=
  mapping 7 [scalar 7 "name"; scalar 7 "web_app";
             scalar 8 "resources"; scalar 8 "none"].

Definition containerWithScalarResources_errors : list ValidationError :=
  [ {| FilePath := "pod.yaml"; Line := 7; Message := "image is required" |} ].

(** ** The schema as shapes *)

(** The [switch] of [validateContainer]. *)
Definition containerSwitch (key : string) (valueNode : yaml.Node) : Exec unit :=
  if decide (key = "name") then validateName valueNode true
  else if decide (key = "image") then validateImage valueNode
  else if decide (key = "ports") then validatePorts valueNode
  else if decide (key = "readinessProbe") then validateProbe valueNode
  else if decide (key = "livenessProbe") then validateProbe valueNode
  else if decide (key = "resources") then validateResources valueNode
  else mret tt.

(** The [switch] of [validateSpec]. *)
Definition specSwitch (key : string) (valueNode : yaml.Node) : Exec unit :=
  if decide (key = "os") then validateOS valueNode
  else if decide (key = "containers") then validateContainers valueNode
  else mret tt.

(** The shapes of the schema: what the validator takes a node for, by the
    place of the node in the tree. *)
Inductive Shape : Set :=
| ShDocument | ShPod | ShMetadata | ShLabels | ShSpec | ShContainers
| ShContainer | ShPorts | ShPort | ShProbe | ShHTTPGet | ShResources
| ShRequirements | ShOpaque.

(** The shapes whose children are read in pairs. *)
Definition objectShape (sh : Shape) : bool :=
  match sh with
  | ShDocument | ShContainers | ShPorts | ShOpaque => false
  | _ => true
  end.

(** The field names a shape knows, with the shape of their values;
    [ShOpaque] is a value of which only kind, text and line are read. *)
Definition fieldTable (sh : Shape) : list (string * Shape) :=
  match sh with
  | ShPod =>
      [("apiVersion", ShOpaque); ("kind", ShOpaque);
       ("metadata", ShMetadata); ("spec", ShSpec)]
  | ShMetadata => [("name", ShOpaque); ("labels", ShLabels)]
  | ShSpec => [("os", ShOpaque); ("containers", ShContainers)]
  | ShContainer =>
      [("name", ShOpaque); ("image", ShOpaque); ("ports", ShPorts);
       ("readinessProbe", ShProbe); ("livenessProbe", ShProbe);
       ("resources", ShResources)]
  | ShPort => [("containerPort", ShOpaque); ("protocol", ShOpaque)]
  | ShProbe => [("httpGet", ShHTTPGet)]
  | ShHTTPGet => [("path", ShOpaque); ("port", ShOpaque)]
  | ShRequirements => [("cpu", ShOpaque); ("memory", ShOpaque)]
  | _ => []
  end.

Fixpoint lookupField (table : list (string * Shape)) (key : string) : option Shape :=
  match table with
  | [] => None
  | (f, sh) :: table' => if decide (key = f) then Some sh else lookupField table' key
  end.

(** The shape of the value under [key] in a node of shape [sh].  labels and
    resources have no field names: every key is an entry of the map. *)
Definition fieldShape (sh : Shape) (key : string) : option Shape :=
  match sh with
  | ShLabels => Some ShOpaque
  | ShResources => Some ShRequirements
  | _ => lookupField (fieldTable sh) key
  end.

(** The shape of the elements of the sequences. *)
Definition elemShape (sh : Shape) : Shape :=
  match sh with
  | ShDocument => ShPod
  | ShContainers => ShContainer
  | ShPorts => ShPort
  | _ => ShOpaque
  end.

(** The shape of the [i]-th child of a node of shape [sh]. *)
Definition childShape (sh : Shape) (node : yaml.Node) (i : nat) : Shape :=
  if objectShape sh then
    if Nat.even i then ShOpaque
    else
      match yaml.Content node !! (i - 1)%nat with
      | Some keyNode => default ShOpaque (fieldShape sh (yaml.Value keyNode))
      | None => ShOpaque
      end
  else elemShape sh.

(** The node a path of child indices leads to, and its shape. *)
Fixpoint nodeAt (path : list nat) (node : yaml.Node) : option yaml.Node :=
  match path with
  | [] => Some node
  | i :: path' =>
      match yaml.Content node !! i with
      | Some child => nodeAt path' child
      | None => None
      end
  end.

Fixpoint shapeAt (sh : Shape) (path : list nat) (node : yaml.Node) : option Shape :=
  match path with
  | [] => Some sh
  | i :: path' =>
      match yaml.Content node !! i with
      | Some child => shapeAt (childShape sh node i) path' child
      | None => None
      end
  end.

(** The tree with [f] applied to the node at [path]. *)
Fixpoint updateAt (path : list nat) (f : yaml.Node → yaml.Node) (node : yaml.Node)
  : option yaml.Node :=
  match path with
  | [] => Some (f node)
  | i :: path' =>
      match yaml.Content node !! i with
      | Some child =>
          match updateAt path' f child with
          | Some child' => Some (withContent node (<[i := child']> (yaml.Content node)))
          | None => None
          end
      | None => None
      end
  end.

(** The node with the pair [keyNode], [valueNode] put before its [i]-th
    child. *)
Definition insertPair (i : nat) (keyNode valueNode node : yaml.Node) : yaml.Node :=
  withContent node
    (take i (yaml.Content node) ++ keyNode :: valueNode :: drop i (yaml.Content node)).

(** [key] is not one of the field names of a mapping node of shape [sh].
    labels and resources have no field names, so every key of theirs is
    unknown; the document node is no mapping. *)
Definition unknownKey (sh : Shape) (key : string) : bool :=
  match sh with
  | ShDocument => false
  | _ => bool_decide (lookupField (fieldTable sh) key = None)
  end.

(** What the maps without field names ask of the value of an entry to
    report nothing on it: [validateLabels] a scalar, [validateResources] a
    value on which [validateResourceRequirements] reports nothing.  The
    other shapes never look at the value under an unknown key. *)
Definition silentEntry (sh : Shape) (valueNode : yaml.Node) : Prop :=
  match sh with
  | ShLabels => yaml.Kind valueNode = yaml.ScalarNode
  | ShResources => ∀ v, validateResourceRequirements valueNode v = Some (tt, v)
  | _ => True
  end.

(** Unknown keys as the spec states them, for the document of the validator
    [v]: a pair put into any mapping node of the tree, with a key that is
    not a field name of the node's shape, leaves the result of [Validate]
    unchanged. *)
Definition unknown_keys_ignored_as_stated (v : Validator.t) : Prop :=
  ∀ (path : list nat) (target : yaml.Node) (sh : Shape) (i : nat)
    (keyNode valueNode root' : yaml.Node),
    nodeAt path (Validator.RootNode v) = Some target →
    yaml.Kind target = yaml.MappingNode →
    shapeAt ShDocument path (Validator.RootNode v) = Some sh →
    unknownKey sh (yaml.Value keyNode) = true →
    Nat.even i = true → (i ≤ length (yaml.Content target))%nat →
    updateAt path (insertPair i keyNode valueNode) (Validator.RootNode v) = Some root' →
    fst <$> Validate (Validator.mk (Validator.FilePath v) root' (Validator.ErrorCollector v))
    = fst <$> Validate v.

(** What the validator runs on a node of each shape. *)
Definition validateAt (sh : Shape) (node : yaml.Node) : Exec unit :=
  match sh with
  | ShDocument => forRange (yaml.Content node) (λ doc, validatePod doc)
  | ShPod => validatePod node
  | ShMetadata => validateMetadata node
  | ShLabels => validateLabels node
  | ShSpec => validateSpec node
  | ShContainers => validateContainers node
  | ShContainer => validateContainer node
  | ShPorts => validatePorts node
  | ShPort => validatePort node
  | ShProbe => validateProbe node
  | ShHTTPGet => validateHTTPGet node
  | ShResources => validateResources node
  | ShRequirements => validateResourceRequirements node
  | ShOpaque => mret tt
  end.

(** What an object validator does with the value under [key]. *)
Definition switchOf (sh : Shape) (key : string) (valueNode : yaml.Node) : Exec unit :=
  match sh with
  | ShPod =>
      if decide (key = "apiVersion") then validateAPIVersion valueNode
      else if decide (key = "kind") then validateKind valueNode
      else if decide (key = "metadata") then validateMetadata valueNode
      else if decide (key = "spec") then validateSpec valueNode
      else mret tt
  | ShMetadata =>
      if decide (key = "name") then validateName valueNode false
      else if decide (key = "labels") then validateLabels valueNode
      else mret tt
  | ShLabels =>
      if decide (yaml.Kind valueNode ≠ yaml.ScalarNode)
      then report (yaml.Line valueNode) "label value must be string"
      else mret tt
  | ShSpec => specSwitch key valueNode
  | ShContainer => containerSwitch key valueNode
  | ShPort =>
      if decide (key = "containerPort")
      then validatePortNumber valueNode "containerPort"
      else if decide (key = "protocol") then validateProtocol valueNode
      else mret tt
  | ShProbe =>
      if decide (key = "httpGet") then validateHTTPGet valueNode
      else mret tt
  | ShHTTPGet =>
      if decide (key = "path") then validateHTTPPath valueNode
      else if decide (key = "port") then validatePortNumber valueNode "port"
      else mret tt
  | ShResources => validateResourceRequirements valueNode
  | ShRequirements =>
      if decide (key = "cpu") then validateCPU valueNode
      else if decide (key = "memory") then validateMemory valueNode
      else mret tt
  | _ => mret tt
  end.

Definition requiredOf (sh : Shape) : list string :=
  match sh with
  | ShPod => ["apiVersion"; "kind"; "metadata"; "spec"]
  | ShMetadata => ["name"]
  | ShSpec => ["containers"]
  | ShContainer => ["name"; "image"; "resources"]
  | ShPort => ["containerPort"]
  | ShProbe => ["httpGet"]
  | ShHTTPGet => ["path"; "port"]
  | _ => []
  end.

(** The common form of the object validators: the pass over the pairs, then
    the required fields against the keys seen. *)
Definition objectForm (sh : Shape) (node : yaml.Node) : Exec unit := λ v,
  match forPairs (yaml.Content node)
          (λ keyNode valueNode _, switchOf sh (yaml.Value keyNode) valueNode) tt v with
  | Some (_, v') =>
      checkRequired node (requiredOf sh) (markAll (pairKeys (yaml.Content node)) ∅) v'
  | None => None
  end.

Definition sameHeader (n n' : yaml.Node) : Prop :=
  yaml.Kind n = yaml.Kind n' ∧ yaml.Value n = yaml.Value n'
  ∧ yaml.Line n = yaml.Line n'.

(** The check that comes before the pass, where there is one. *)
Definition guardOf (sh : Shape) (node : yaml.Node) : option (Exec unit) :=
  match sh with
  | ShLabels =>
      if decide (yaml.Kind node ≠ yaml.MappingNode)
      then Some (report (yaml.Line node) "labels must be a mapping")
      else None
  | _ => None
  end.

(** The validator reads the children of a node of shape [sh]: a sequence
    validator only those of a sequence node, [validateLabels] only those of
    a mapping node, the other object validators those of any node. *)
Definition readsChildren (sh : Shape) (node : yaml.Node) : bool :=
  match sh with
  | ShOpaque => false
  | ShContainers | ShPorts => bool_decide (yaml.Kind node = yaml.SequenceNode)
  | ShLabels => bool_decide (yaml.Kind node = yaml.MappingNode)
  | _ => true
  end.

(** Every node whose children the validator reads in pairs, whatever its
    kind, has an even number of them. *)
Fixpoint pairedAt (sh : Shape) (node : yaml.Node) {struct node} : bool :=
  if readsChildren sh node then
    if objectShape sh then
      (fix pairs (content : list yaml.Node) : bool :=
         match content with
         | [] => true
         | [_] => false
         | keyNode :: valueNode :: rest =>
             pairedAt (default ShOpaque (fieldShape sh (yaml.Value keyNode))) valueNode
             && pairs rest
         end) (yaml.Content node)
    else List.forallb (pairedAt (elemShape sh)) (yaml.Content node)
  else true.

(** Scenario A with [extra: x] put after the image of its container. *)
Definition scenarioA_extra : yaml.Node :=
  default scenarioA
    (updateAt [0; 7; 1; 0]%nat (insertPair 4 (scalar 8 "extra") (scalar 8 "x")) scenarioA).

(** Scenario A with the entry [extra: {cpu: 0}] put into its resources. *)
Definition scenarioA_extra_resources : yaml.Node :=
  default scenarioA
    (updateAt [0; 7; 1; 0; 5]%nat
       (insertPair 2 (scalar 13 "extra") (mapping 13 [scalar 13 "cpu"; scalar 13 "0"]))
       scenarioA).

(** ** What every error of a run is like *)

(** The node and all nodes below it. *)
Fixpoint subnodes (node : yaml.Node) : list yaml.Node :=
  node :: (yaml.Content node ≫= subnodes).

(** Every message of the package, as its field and whether it is the
    "<field> is required" one. *)
Definition allTags : list (string * bool) :=
  [ ("apiVersion", false); ("kind", false); ("name", false); ("labels", false);
    ("label", false); ("os", false); ("containers", false); ("image", false);
    ("ports", false); ("containerPort", false); ("port", false);
    ("protocol", false); ("path", false); ("cpu", false); ("memory", false);
    ("apiVersion", true); ("kind", true); ("metadata", true); ("spec", true);
    ("name", true); ("containers", true); ("image", true); ("resources", true);
    ("containerPort", true); ("httpGet", true); ("path", true); ("port", true) ].

(** The error is one of a run on the file [path] over [node]: it names that
    file, its line is the line of [node] or of a node below it, and its
    message is one of [allTags]. *)
Definition attributed (node : yaml.Node) (path : string) (e : ValidationError) : Prop :=
  FilePath e = path
  ∧ Line e ∈ (yaml.Line <$> subnodes node)
  ∧ msgTag (Message e) ∈ allTags.

(** Every error [m] appends on the file [path] satisfies [P path]. *)
Definition emitsAt {A : Type} (P : string → ValidationError → Prop) (m : Exec A) : Prop :=
  ∀ path a es, run m path = Some (a, es) → Forall (P path) es.

Definition soundAt {A : Type} (P : string → ValidationError → Prop) (m : Exec A) : Prop :=
  uniform m ∧ emitsAt P m.

(** ** The texts the patterns and [Atoi] accept, said without them *)

(** A non-empty word of the letters a to z. *)
Definition lowerWord (w : string) : Prop :=
  w ≠ "" ∧ regexp.allOf regexp.isLower w = true.

(** The words, each after an underscore. *)
Fixpoint joinWords (ws : list string) : string :=
  match ws with
  | [] => ""
  | w :: ws' => "_" +:+ w +:+ joinWords ws'
  end.

(** One or more words of lower-case letters, joined by single underscores. *)
Definition snakeCase (s : string) : Prop :=
  ∃ w ws, s = w +:+ joinWords ws ∧ lowerWord w ∧ Forall lowerWord ws.

(** registry.bigbrother.io/<repo>:<tag>, with [repo] and [tag] non-empty
    and free of newlines. *)
Definition imageForm (s : string) : Prop :=
  ∃ repo tag,
    s = "registry.bigbrother.io/" +:+ repo +:+ ":" +:+ tag
    ∧ repo ≠ "" ∧ tag ≠ ""
    ∧ regexp.allOf regexp.notNewline repo = true
    ∧ regexp.allOf regexp.notNewline tag = true.

Definition absolutePath (s : string) : Prop := ∃ rest, s = "/" +:+ rest.

(** [s] is one or more decimal digits, possibly after one sign, and denotes
    [n]. *)
Definition decimalText (s : string) (n : Z) : Prop :=
  ∃ ds, ds ≠ "" ∧ regexp.allOf regexp.isDigit ds = true
        ∧ ((s = ds ∨ s = "+" +:+ ds) ∧ n = decimalValue ds
           ∨ s = "-" +:+ ds ∧ n = - decimalValue ds).

(** The values of a mapping's children, in order. *)
Fixpoint pairValues (content : list yaml.Node) : list yaml.Node :=
  match content with
  | _ :: valueNode :: rest => valueNode :: pairValues rest
  | _ => []
  end.

(** The errors "<field> is required" of a node, for the fields given. *)
Definition requiredErrors (v : Validator.t) (node : yaml.Node) (fields : list string)
  : list ValidationError :=
  (λ f, mkError v (yaml.Line node) (f +:+ " is required")) <$> fields.

(** [es1] is a run of consecutive entries of [es]. *)
Definition segment (es1 es : list ValidationError) : Prop :=
  ∃ es0 es2, es = es0 ++ es1 ++ es2.

#[global] Instance Shape_eq_dec : EqDecision Shape.
Proof. solve_decision. Defined.

(** The containers and ports nodes on the way down [path] are sequences,
    so that their elements are validated. *)
Fixpoint sequencesAlong (sh : Shape) (path : list nat) (node : yaml.Node) : bool :=
  match path with
  | [] => true
  | i :: path' =>
      match sh with
      | ShContainers | ShPorts => bool_decide (yaml.Kind node = yaml.SequenceNode)
      | _ => true
      end
      && match yaml.Content node !! i with
         | Some child => sequencesAlong (childShape sh node i) path' child
         | None => true
         end
  end.

(** [keyNode] and [valueNode] are a pair of the node's children. *)
Definition hasPair (node keyNode valueNode : yaml.Node) : Prop :=
  ∃ pre post,
    yaml.Content node = pre ++ keyNode :: valueNode :: post
    ∧ Nat.even (length pre) = true.

(** A document with labels, a port and a probe that validates without
    errors. *)
Definition scenarioWide : yaml.Node :=
  document 1
    [mapping 1
       [scalar 1 "apiVersion"; scalar 1 "v1";
        scalar 2 "kind"; scalar 2 "Pod";
        scalar 3 "metadata";
        mapping 4
          [scalar 4 "name"; scalar 4 "Web";
           scalar 5 "labels"; mapping 6 [scalar 6 "app"; scalar 6 "web"]];
        scalar 7 "spec";
        mapping 8
          [scalar 8 "os"; scalar 8 "linux";
           scalar 9 "containers";
           sequence 10
             [mapping 10
                [scalar 10 "name"; scalar 10 "web_app";
                 scalar 11 "image"; scalar 11 "registry.bigbrother.io/app:1.0";
                 scalar 12 "ports";
                 sequence 13
                   [mapping 13
                      [scalar 13 "containerPort"; scalar 13 "8080";
                       scalar 14 "protocol"; scalar 14 "TCP"]];
                 scalar 15 "readinessProbe";
                 mapping 16
                   [scalar 16 "httpGet";
                    mapping 17
                      [scalar 17 "path"; scalar 17 "/ready";
                       scalar 18 "port"; scalar 18 "8080"]];
                 scalar 19 "resources";
                 mapping 20
                   [scalar 20 "limits";
                    mapping 21
                      [scalar 21 "cpu"; scalar 21 "1";
                       scalar 22 "memory"; scalar 22 "256Mi"]]]]]]].

(** ** errorhandler.go: the text of an error *)

Module fmt.

(** The verb [%d] of [fmt.Sprintf] on an [int]: the decimal digits of the
    number, after a minus sign when it is negative. *)
Definition formatInt (n : Z) : string := NilZero.string_of_int (Z.to_int n).

End fmt.

(** [fmt.Sprintf("%s:%d %s", e.FilePath, e.Line, e.Message)] *)
Definition Error (e : ValidationError) : string :=
  FilePath e +:+ ":" +:+ fmt.formatInt (Line e) +:+ " " +:+ Message e.

(** The byte is not a space. *)
Definition notSpace (c : ascii) : bool := negb (Ascii.eqb c " "%char).

(** A pod whose metadata is written in flow style on line 3,
    [metadata: {name: web, labels: {a: [x], b: [y]}}], and that has no
    spec. *)
Definition scenarioFlowLabels : yaml.Node :=
  document 1
    [mapping 1
       [scalar 1 "apiVersion"; scalar 1 "v1";
        scalar 2 "kind"; scalar 2 "Pod";
        scalar 3 "metadata";
        mapping 3
          [scalar 3 "name"; scalar 3 "web";
           scalar 3 "labels";
           mapping 3
             [scalar 3 "a"; sequence 3 [scalar 3 "x"];
              scalar 3 "b"; sequence 3 [scalar 3 "y"]]]]].

(** * Proofs *)

(** ** The library models on examples *)

Example snake_case_matches : regexp.MatchString RegexSnakeCase "web_app" = true.
Proof. vm_compute. reflexivity. Qed.
Example snake_case_rejects_capitals : regexp.MatchString RegexSnakeCase "WebApp" = false.
Proof. vm_compute. reflexivity. Qed.
Example snake_case_rejects_trailing_underscore :
  regexp.MatchString RegexSnakeCase "web_" = false.
Proof. vm_compute. reflexivity. Qed.
Example image_matches :
  regexp.MatchString RegexImage "registry.bigbrother.io/app:1.0" = true.
Proof. vm_compute. reflexivity. Qed.
Example image_rejects_other_registry :
  regexp.MatchString RegexImage "docker.io/app:1.0" = false.
Proof. vm_compute. reflexivity. Qed.
Example image_dot_is_literal :
  regexp.MatchString RegexImage "registryxbigbrother.io/app:1.0" = false.
Proof. vm_compute. reflexivity. Qed.
Example path_matches_prefix : regexp.MatchString RegexAbsolutePath "/healthz" = true.
Proof. vm_compute. reflexivity. Qed.
Example path_rejects_relative : regexp.MatchString RegexAbsolutePath "healthz" = false.
Proof. vm_compute. reflexivity. Qed.
Example memory_submatch :
  RegexMemory_FindStringSubmatch "512Mi" = Some ["512Mi"; "512"; "Mi"].
Proof. vm_compute. reflexivity. Qed.
Example memory_no_submatch : RegexMemory_FindStringSubmatch "512M" = None.
Proof. vm_compute. reflexivity. Qed.
Example atoi_signed : strconv.Atoi "-0012" = Some (-12).
Proof. vm_compute. reflexivity. Qed.
Example atoi_sign_only : strconv.Atoi "+" = None.
Proof. vm_compute. reflexivity. Qed.
Example atoi_not_a_number : strconv.Atoi "80a" = None.
Proof. vm_compute. reflexivity. Qed.
Example atoi_max : strconv.Atoi "9223372036854775807" = Some 9223372036854775807.
Proof. vm_compute. reflexivity. Qed.
Example atoi_overflow : strconv.Atoi "9223372036854775808" = None.
Proof. vm_compute. reflexivity. Qed.

(** ** The monad *)

Lemma appendErrors_nil v : appendErrors v [] = v.
Proof.
  destruct v as [p r [es]]. unfold appendErrors. simpl. by rewrite app_nil_r.
Qed.

Lemma appendErrors_app v es1 es2 :
  appendErrors (appendErrors v es1) es2 = appendErrors v (es1 ++ es2).
Proof. unfold appendErrors. simpl. by rewrite app_assoc. Qed.

(** A method that agrees with some pure description of its output is
    uniform, and the description is its [run]. *)
Lemma uniform_intro {A} (m : Exec A)
    (d : string → option (A * list ValidationError)) :
  (∀ v, m v = lift (d (Validator.FilePath v)) v) →
  uniform m ∧ ∀ path, run m path = d path.
Proof.
  intros Hd.
  assert (Hrun : ∀ path, run m path = d path).
  { intros path. unfold run. rewrite Hd. simpl.
    destruct (d path) as [[a es]|]; reflexivity. }
  split; [|exact Hrun].
  intros v. rewrite Hrun. apply Hd.
Qed.

Lemma uniform_ret {A} (a : A) : uniform (mret a).
Proof.
  apply (uniform_intro (mret a) (λ _, Some (a, []))).
  intros v. simpl. by rewrite appendErrors_nil.
Qed.

Lemma run_ret {A} (a : A) path : run (mret a) path = Some (a, []).
Proof. reflexivity. Qed.

Lemma uniform_panic {A} : uniform (@panic A).
Proof. intros v. reflexivity. Qed.

Lemma run_panic {A} path : run (@panic A) path = None.
Proof. reflexivity. Qed.

Lemma uniform_report line msg : uniform (report line msg).
Proof. intros v. reflexivity. Qed.

Lemma run_report line msg path :
  run (report line msg) path
  = Some (tt, [ {| FilePath := path; Line := line; Message := msg |} ]).
Proof. reflexivity. Qed.

Lemma bind_uniform_run {A B} (m : Exec A) (k : A → Exec B) :
  uniform m → (∀ a, uniform (k a)) →
  uniform (m ≫= k) ∧
  ∀ path, run (m ≫= k) path = bindOut (run m path) (λ a, run (k a) path).
Proof.
  intros Hm Hk.
  apply (uniform_intro (m ≫= k)
           (λ path, bindOut (run m path) (λ a, run (k a) path))).
  intros v. unfold mbind, Exec_bind. rewrite Hm.
  destruct (run m _) as [[a es]|]; simpl; [|done].
  rewrite Hk. simpl.
  destruct (run (k a) _) as [[b es']|]; simpl; [|done].
  by rewrite appendErrors_app.
Qed.

Lemma uniform_bind {A B} (m : Exec A) (k : A → Exec B) :
  uniform m → (∀ a, uniform (k a)) → uniform (m ≫= k).
Proof. intros Hm Hk. apply bind_uniform_run; done. Qed.

Lemma run_bind {A B} (m : Exec A) (k : A → Exec B) path :
  uniform m → (∀ a, uniform (k a)) →
  run (m ≫= k) path = bindOut (run m path) (λ a, run (k a) path).
Proof. intros Hm Hk. apply bind_uniform_run; done. Qed.

(** Induction on a list two elements at a time, as the pair loops read it. *)
Lemma pairs_ind {A} (P : list A → Prop) :
  P [] → (∀ x, P [x]) → (∀ k v rest, P rest → P (k :: v :: rest)) →
  ∀ l, P l.
Proof.
  intros Hnil Hone Hstep l.
  enough (P l ∧ ∀ x, P (x :: l)) by tauto.
  induction l as [|y l [IH1 IH2]]; split; auto.
Qed.

Lemma uniform_forPairs {S} content (body : yaml.Node → yaml.Node → S → Exec S) s :
  (∀ k v s', uniform (body k v s')) → uniform (forPairs content body s).
Proof.
  intros Hbody. revert s.
  induction content as [|x|k v rest IH] using pairs_ind; intros s; simpl.
  - apply uniform_ret.
  - apply uniform_panic.
  - apply uniform_bind; auto.
Qed.

Lemma uniform_forRange {A} (xs : list A) (body : A → Exec unit) :
  (∀ x, uniform (body x)) → uniform (forRange xs body).
Proof.
  intros Hbody. induction xs as [|x xs IH]; simpl.
  - apply uniform_ret.
  - apply uniform_bind; auto.
Qed.

Lemma uniform_visitPair switch k v vis :
  (∀ key valueNode, uniform (switch key valueNode)) →
  uniform (visitPair switch k v vis).
Proof.
  intros Hs. apply uniform_bind; [apply Hs|]. intros _. apply uniform_ret.
Qed.

Lemma uniform_visitFields node switch :
  (∀ key valueNode, uniform (switch key valueNode)) →
  uniform (visitFields node switch).
Proof.
  intros Hs. apply uniform_forPairs. intros k v s. by apply uniform_visitPair.
Qed.

Lemma uniform_checkRequired node requiredFields visitedFields :
  uniform (checkRequired node requiredFields visitedFields).
Proof.
  apply uniform_forRange. intros f.
  destruct (negb _); [apply uniform_report | apply uniform_ret].
Qed.

Create HintDb uniform.
#[local] Hint Resolve uniform_ret uniform_panic uniform_report
  uniform_checkRequired : uniform.

Ltac uniform_step :=
  match goal with
  | |- uniform (mbind _ _) => apply uniform_bind; [|intros]
  | |- uniform (visitFields _ _) => apply uniform_visitFields; intros
  | |- uniform (forPairs _ _ _) => apply uniform_forPairs; intros
  | |- uniform (forRange _ _) => apply uniform_forRange; intros
  | |- uniform (if ?c then _ else _) => destruct c
  | |- uniform (match ?c with _ => _ end) => destruct c
  | |- uniform _ => solve [auto with uniform]
  end.
Ltac solve_uniform := repeat uniform_step.

Lemma uniform_validateAPIVersion node : uniform (validateAPIVersion node).
Proof. unfold validateAPIVersion. solve_uniform. Qed.
Lemma uniform_validateKind node : uniform (validateKind node).
Proof. unfold validateKind. solve_uniform. Qed.
Lemma uniform_validateName node b : uniform (validateName node b).
Proof. unfold validateName. solve_uniform. Qed.
Lemma uniform_validateLabels node : uniform (validateLabels node).
Proof. unfold validateLabels. solve_uniform. Qed.
#[local] Hint Resolve uniform_validateAPIVersion uniform_validateKind
  uniform_validateName uniform_validateLabels : uniform.
Lemma uniform_validateMetadata node : uniform (validateMetadata node).
Proof. unfold validateMetadata. solve_uniform. Qed.
Lemma uniform_validateOS node : uniform (validateOS node).
Proof. unfold validateOS. solve_uniform. Qed.
Lemma uniform_validateImage node : uniform (validateImage node).
Proof. unfold validateImage. solve_uniform. Qed.
Lemma uniform_validatePortNumber node f : uniform (validatePortNumber node f).
Proof. unfold validatePortNumber. solve_uniform. Qed.
Lemma uniform_validateProtocol node : uniform (validateProtocol node).
Proof. unfold validateProtocol. solve_uniform. Qed.
#[local] Hint Resolve uniform_validateMetadata uniform_validateOS
  uniform_validateImage uniform_validatePortNumber uniform_validateProtocol : uniform.
Lemma uniform_validatePort node : uniform (validatePort node).
Proof. unfold validatePort. solve_uniform. Qed.
#[local] Hint Resolve uniform_validatePort : uniform.
Lemma uniform_validatePorts node : uniform (validatePorts node).
Proof. unfold validatePorts. solve_uniform. Qed.
Lemma uniform_validateHTTPPath node : uniform (validateHTTPPath node).
Proof. unfold validateHTTPPath. solve_uniform. Qed.
#[local] Hint Resolve uniform_validatePorts uniform_validateHTTPPath : uniform.
Lemma uniform_validateHTTPGet node : uniform (validateHTTPGet node).
Proof. unfold validateHTTPGet. solve_uniform. Qed.
#[local] Hint Resolve uniform_validateHTTPGet : uniform.
Lemma uniform_validateProbe node : uniform (validateProbe node).
Proof. unfold validateProbe. solve_uniform. Qed.
Lemma uniform_validateCPU node : uniform (validateCPU node).
Proof. unfold validateCPU. solve_uniform. Qed.
Lemma uniform_validateMemory node : uniform (validateMemory node).
Proof. unfold validateMemory. solve_uniform. Qed.
#[local] Hint Resolve uniform_validateProbe uniform_validateCPU
  uniform_validateMemory : uniform.
Lemma uniform_validateResourceRequirements node :
  uniform (validateResourceRequirements node).
Proof. unfold validateResourceRequirements. solve_uniform. Qed.
#[local] Hint Resolve uniform_validateResourceRequirements : uniform.
Lemma uniform_validateResources node : uniform (validateResources node).
Proof. unfold validateResources. solve_uniform. Qed.
#[local] Hint Resolve uniform_validateResources : uniform.
Lemma uniform_validateContainer node : uniform (validateContainer node).
Proof. unfold validateContainer. solve_uniform. Qed.
#[local] Hint Resolve uniform_validateContainer : uniform.
Lemma uniform_validateContainers node : uniform (validateContainers node).
Proof. unfold validateContainers. solve_uniform. Qed.
#[local] Hint Resolve uniform_validateContainers : uniform.
Lemma uniform_validateSpec node : uniform (validateSpec node).
Proof. unfold validateSpec. solve_uniform. Qed.
#[local] Hint Resolve uniform_validateSpec : uniform.
Lemma uniform_validatePod node : uniform (validatePod node).
Proof. unfold validatePod. solve_uniform. Qed.
#[local] Hint Resolve uniform_validatePod : uniform.

(** ** Scenario C: a port entry with only [protocol: HTTP] *)

(** C1, counterexample: on the port entry [- protocol: HTTP] of line 9 the
    errors do not come in the stated order. *)
Lemma C1_counterexample :
  ¬ scenarioC_as_stated
      (mapping 9 [scalar 9 "protocol"; scalar 9 "HTTP"])
      (NewValidator "pod.yaml" (document 1 [])).
Proof. unfold scenarioC_as_stated. vm_compute. discriminate. Qed.

(** C1, amended: a port node whose only pair is [protocol] with the scalar
    value HTTP yields exactly two errors, first "protocol has unsupported
    value 'HTTP'" on the line of the protocol value, then "containerPort is
    required" on the line of the port node: the pass over the children comes
    before the check of the required fields. *)
Theorem C1_port_with_only_protocol (node keyNode valueNode : yaml.Node) (v : Validator.t) :
  yaml.Content node = [keyNode; valueNode] →
  yaml.Value keyNode = "protocol" →
  yaml.Kind valueNode = yaml.ScalarNode →
  yaml.Value valueNode = "HTTP" →
  validatePort node v
  = Some (tt, appendErrors v
                [ mkError v (yaml.Line valueNode) "protocol has unsupported value 'HTTP'";
                  mkError v (yaml.Line node) "containerPort is required" ]).
Proof.
  intros Hc Hk Hkind Hv. rewrite uniform_validatePort.
  destruct node as [nk nv nc nl], keyNode as [kk kv kc kl], valueNode as [vk vv vc vl].
  simpl in *. subst.
  vm_compute. reflexivity.
Qed.

Lemma C1_port_with_only_protocol_witness :
  validatePort (mapping 9 [scalar 9 "protocol"; scalar 10 "HTTP"])
    (NewValidator "pod.yaml" (document 1 []))
  = Some (tt, Validator.mk "pod.yaml" (document 1 [])
                {| Errors :=
                     [ {| FilePath := "pod.yaml"; Line := 10;
                          Message := "protocol has unsupported value 'HTTP'" |};
                       {| FilePath := "pod.yaml"; Line := 9;
                          Message := "containerPort is required" |} ] |}).
Proof.
  apply (C1_port_with_only_protocol
           (mapping 9 [scalar 9 "protocol"; scalar 10 "HTTP"])
           (scalar 9 "protocol") (scalar 10 "HTTP")); reflexivity.
Defined.

(** ** Ranges of ports and cpu *)

(** C6: for a scalar whose text [Atoi] parses as [n], [validatePortNumber]
    (for containerPort and for the httpGet port alike) appends
    "<field> value out of range" exactly when n < 1 or n > 65535, and
    [validateCPU] appends "cpu value out of range" exactly when n < 1;
    otherwise nothing is appended. *)
Theorem C6_numeric_ranges (node : yaml.Node) (n : Z) (v : Validator.t) :
  yaml.Kind node = yaml.ScalarNode →
  strconv.Atoi (yaml.Value node) = Some n →
  (∀ fieldName,
     validatePortNumber node fieldName v
     = if decide (n < 1 ∨ 65535 < n)
       then Some (tt, appendErrors v
                        [ mkError v (yaml.Line node) (fieldName +:+ " value out of range") ])
       else Some (tt, v))
  ∧ validateCPU node v
    = if decide (n < 1)
      then Some (tt, appendErrors v
                       [ mkError v (yaml.Line node) "cpu value out of range" ])
      else Some (tt, v).
Proof.
  intros Hkind Hn. split; [intros fieldName; unfold validatePortNumber
                          | unfold validateCPU];
    rewrite Hkind, Hn; simpl; unfold PortNumberMin, PortNumberMax.
  - destruct (Z.ltb_spec n 1), (Z.ltb_spec 65535 n), (decide (n < 1 ∨ 65535 < n));
      simpl; try reflexivity; exfalso; lia.
  - destruct (Z.ltb_spec n 1), (decide (n < 1)); simpl; try reflexivity; exfalso; lia.
Qed.

Lemma C6_numeric_ranges_witness :
  let v := NewValidator "pod.yaml" (document 1 []) in
  (validatePortNumber (scalar 3 "0") "containerPort" v = outOfRange "containerPort" 3
   ∧ validatePortNumber (scalar 3 "65536") "containerPort" v = outOfRange "containerPort" 3
   ∧ validatePortNumber (scalar 3 "1") "containerPort" v = Some (tt, v)
   ∧ validatePortNumber (scalar 3 "65535") "port" v = Some (tt, v))
  ∧ validateCPU (scalar 4 "0") v = outOfRange "cpu" 4
  ∧ validateCPU (scalar 4 "1") v = Some (tt, v).
Proof.
  intros v.
  pose proof (C6_numeric_ranges (scalar 3 "0") 0 v eq_refl eq_refl) as [H0 _].
  pose proof (C6_numeric_ranges (scalar 3 "65536") 65536 v eq_refl eq_refl) as [H1 _].
  pose proof (C6_numeric_ranges (scalar 3 "1") 1 v eq_refl eq_refl) as [H2 _].
  pose proof (C6_numeric_ranges (scalar 3 "65535") 65535 v eq_refl eq_refl) as [H3 _].
  pose proof (C6_numeric_ranges (scalar 4 "0") 0 v eq_refl eq_refl) as [_ H4].
  pose proof (C6_numeric_ranges (scalar 4 "1") 1 v eq_refl eq_refl) as [_ H5].
  exact (conj (conj (H0 _) (conj (H1 _) (conj (H2 _) (H3 _)))) (conj H4 H5)).
Defined.

(** ** The two loops of an object validator *)

Lemma run_checkRequired node requiredFields vis path :
  run (checkRequired node requiredFields vis) path
  = Some (tt, requiredError path node
                <$> filter (λ f, visited vis f = false) requiredFields).
Proof.
  unfold checkRequired.
  induction requiredFields as [|f fs IH]; simpl; [done|].
  rewrite run_bind; [|destruct (negb _); auto with uniform
                     |intros; apply uniform_checkRequired].
  fold (checkRequired node fs vis) in *. rewrite IH.
  rewrite filter_cons.
  destruct (visited vis f) eqn:Hv; simpl.
  - reflexivity.
  - reflexivity.
Qed.

Lemma visited_markAll keys vis g :
  visited (markAll keys vis) g = visited vis g || bool_decide (g ∈ keys).
Proof.
  revert vis. induction keys as [|k keys IH]; intros vis; simpl.
  - by rewrite orb_false_r.
  - rewrite IH. unfold visited. destruct (decide (k = g)) as [->|Hne].
    + rewrite lookup_insert_eq. simpl.
      rewrite bool_decide_true by set_solver. by rewrite orb_true_r.
    + rewrite lookup_insert_ne by done.
      f_equal. apply bool_decide_ext. set_solver.
Qed.

Lemma run_visit_cons switch k v rest vis path :
  (∀ key valueNode, uniform (switch key valueNode)) →
  run (forPairs (k :: v :: rest) (visitPair switch) vis) path
  = bindOut (run (switch (yaml.Value k) v) path)
      (λ _, run (forPairs rest (visitPair switch) (<[yaml.Value k := true]> vis)) path).
Proof.
  intros Hs. simpl.
  rewrite run_bind;
    [|by apply uniform_visitPair
     |intros; apply uniform_forPairs; intros; by apply uniform_visitPair].
  unfold visitPair at 1.
  rewrite run_bind; [|apply Hs|intros; apply uniform_ret].
  destruct (run (switch _ _) _) as [[[] es]|]; simpl; [|done].
  rewrite app_nil_r.
  destruct (run (forPairs rest _ _) _) as [[b es']|]; done.
Qed.

Lemma run_visit_marks switch content vis path visA es :
  (∀ key valueNode, uniform (switch key valueNode)) →
  run (forPairs content (visitPair switch) vis) path = Some (visA, es) →
  visA = markAll (pairKeys content) vis.
Proof.
  intros Hs. revert vis es.
  induction content as [|x|k v rest IH] using pairs_ind; intros vis es.
  - unfold run. simpl. by intros [= <- _].
  - unfold run. simpl. done.
  - rewrite run_visit_cons by done.
    destruct (run (switch _ _) _) as [[[] es1]|]; simpl; [|done].
    destruct (run (forPairs rest _ _) _) as [[b es2]|] eqn:Hrest; [|done].
    intros [= <- _]. simpl. by eapply IH.
Qed.

Lemma pairKeys_removePair f content g :
  g ∈ pairKeys (removePair f content) ↔ g ∈ pairKeys content ∧ g ≠ f.
Proof.
  induction content as [|x|k v rest IH] using pairs_ind; simpl.
  - set_solver.
  - set_solver.
  - destruct (decide (yaml.Value k = f)) as [<-|Hne]; simpl.
    + rewrite IH. set_solver.
    + rewrite !elem_of_cons, IH. naive_solver.
Qed.

(** A pass that appends nothing still appends nothing once pairs are
    removed. *)
Lemma run_visit_removePair switch f content vis vis' path visA :
  (∀ key valueNode, uniform (switch key valueNode)) →
  run (forPairs content (visitPair switch) vis) path = Some (visA, []) →
  ∃ visB,
    run (forPairs (removePair f content) (visitPair switch) vis') path
    = Some (visB, []).
Proof.
  intros Hs. revert vis vis'.
  induction content as [|x|k v rest IH] using pairs_ind; intros vis vis'.
  - intros _. unfold run. simpl. eauto.
  - unfold run. simpl. done.
  - rewrite run_visit_cons by done.
    destruct (run (switch _ _) _) as [[[] es1]|] eqn:Hsw; simpl; [|done].
    destruct (run (forPairs rest _ _) _) as [[b es2]|] eqn:Hrest; [|done].
    intros [= -> Hnil]. apply app_eq_nil in Hnil as [-> ->].
    destruct (decide (yaml.Value k = f)) as [Heq|Hne].
    + eapply IH, Hrest.
    + rewrite run_visit_cons by done. rewrite Hsw. simpl.
      edestruct (IH _ (<[yaml.Value k := true]> vis') Hrest) as [visB ->].
      eauto.
Qed.

(** ** [Validate] *)

Lemma Validate_run v :
  Validate v
  = match run (forRange (yaml.Content (Validator.RootNode v)) (λ doc, validatePod doc))
            (Validator.FilePath v) with
    | Some (_, es) =>
        Some (Errors (Validator.ErrorCollector v) ++ es, appendErrors v es)
    | None => None
    end.
Proof.
  unfold Validate, mbind, Exec_bind, getRootNode.
  rewrite (uniform_forRange _ _ uniform_validatePod v).
  destruct (run _ _) as [[[] es]|]; reflexivity.
Qed.

Lemma run_single_document doc path :
  run (forRange [doc] (λ doc, validatePod doc)) path = run (validatePod doc) path.
Proof.
  simpl. rewrite run_bind; [|auto with uniform|intros; apply uniform_ret].
  destruct (run (validatePod doc) _) as [[[] es]|]; simpl; [|done].
  by rewrite app_nil_r.
Qed.

(** ** Scenarios A and B *)

Lemma scenarioA_valid path :
  fst <$> Validate (NewValidator path scenarioA) = Some [].
Proof. vm_compute. reflexivity. Qed.

(** C2, counterexample: in the block-style file the container is on line 7
    and its image on line 8; the image error carries line 8. *)
Lemma C2_counterexample : ¬ scenarioB_as_stated "pod.yaml" blockLayout.
Proof.
  intros (e1 & e2 & Hrun & _ & Hline & _).
  vm_compute in Hrun. injection Hrun as _ <-.
  vm_compute in Hline. discriminate.
Qed.

(** C2, amended: scenario A with the container named WebApp and the image
    docker.io/app:1.0 yields exactly two errors, "name has invalid format
    'WebApp'" on the line of the name scalar and then "image has invalid
    format 'docker.io/app:1.0'" on the line of the image scalar, whatever
    the lines of the nodes are. *)
Theorem C2_scenarioB (path : string) (ln : nat → Z) :
  fst <$> Validate (NewValidator path (scenarioAt ln "WebApp" "docker.io/app:1.0"))
  = Some [ {| FilePath := path; Line := ln 16%nat;
              Message := "name has invalid format 'WebApp'" |};
           {| FilePath := path; Line := ln 18%nat;
              Message := "image has invalid format 'docker.io/app:1.0'" |} ].
Proof. vm_compute. reflexivity. Qed.

(** ** Running [Validate] again *)

(** C3, counterexample: on the validator of scenario B the second
    invocation returns four errors, the first returned two. *)
Lemma C3_counterexample : ¬ idempotent_as_stated (NewValidator "pod.yaml" scenarioB).
Proof.
  intros H.
  destruct (Validate (NewValidator "pod.yaml" scenarioB)) as [[r1 v1]|] eqn:H1;
    [|vm_compute in H1; discriminate].
  destruct (Validate v1) as [[r2 v2]|] eqn:H2.
  - specialize (H r1 v1 r2 v2 H1 H2).
    vm_compute in H1. injection H1 as <- <-.
    vm_compute in H2. injection H2 as <- _.
    discriminate.
  - vm_compute in H1. injection H1 as _ <-. vm_compute in H2. discriminate.
Qed.

(** C3, amended: every run of [Validate] over a document appends the same
    error list [es], the one a fresh validator returns for it, to the
    collector of the validator it is invoked on and returns the collector's
    content.  A second invocation on the same validator therefore returns
    the first result followed by [es] again, and equals the first result
    exactly when the document has no errors. *)
Theorem C3_validate_twice (v v1 : Validator.t) (r1 : list ValidationError) :
  Validate v = Some (r1, v1) →
  ∃ es,
    fst <$> Validate (NewValidator (Validator.FilePath v) (Validator.RootNode v))
    = Some es
    ∧ r1 = Errors (Validator.ErrorCollector v) ++ es
    ∧ fst <$> Validate v1 = Some (r1 ++ es)
    ∧ (fst <$> Validate v1 = Some r1 ↔ es = []).
Proof.
  rewrite Validate_run.
  destruct (run _ _) as [[[] es]|] eqn:Hrun; [|done].
  intros [= <- <-]. exists es.
  assert (H2 : fst <$> Validate (appendErrors v es)
               = Some ((Errors (Validator.ErrorCollector v) ++ es) ++ es)).
  { rewrite Validate_run. simpl. rewrite Hrun. reflexivity. }
  repeat split.
  - rewrite Validate_run. simpl. rewrite Hrun. reflexivity.
  - exact H2.
  - rewrite H2. intros [= Heq].
    apply (f_equal length) in Heq. rewrite !length_app in Heq.
    apply nil_length_inv. lia.
  - intros ->. rewrite H2. by rewrite !app_nil_r.
Qed.

Lemma C3_validate_twice_witness :
  ∃ es,
    fst <$> Validate (NewValidator "pod.yaml" scenarioB) = Some es
    ∧ scenarioB_errors = [] ++ es
    ∧ fst <$> Validate (Validator.mk "pod.yaml" scenarioB {| Errors := scenarioB_errors |})
      = Some (scenarioB_errors ++ es)
    ∧ (fst <$> Validate (Validator.mk "pod.yaml" scenarioB {| Errors := scenarioB_errors |})
       = Some scenarioB_errors ↔ es = []).
Proof.
  apply (C3_validate_twice (NewValidator "pod.yaml" scenarioB)
           (Validator.mk "pod.yaml" scenarioB {| Errors := scenarioB_errors |})
           scenarioB_errors).
  vm_compute. reflexivity.
Defined.

(** ** A required field of the document is missing *)

Lemma run_validatePod node path :
  run (validatePod node) path
  = bindOut (run (visitFields node
                    (λ key valueNode,
                       if decide (key = "apiVersion") then validateAPIVersion valueNode
                       else if decide (key = "kind") then validateKind valueNode
                       else if decide (key = "metadata") then validateMetadata valueNode
                       else if decide (key = "spec") then validateSpec valueNode
                       else mret tt)) path)
      (λ vis, run (checkRequired node ["apiVersion"; "kind"; "metadata"; "spec"] vis)
                path).
Proof.
  unfold validatePod. apply run_bind; [|intros]; solve_uniform.
Qed.

Lemma fmap_fst_Validate_single path root doc :
  yaml.Content root = [doc] →
  fst <$> Validate (NewValidator path root) = snd <$> run (validatePod doc) path.
Proof.
  intros Hc. rewrite Validate_run. simpl. rewrite Hc, run_single_document.
  destruct (run (validatePod doc) _) as [[[] es]|]; reflexivity.
Qed.

(** C4: when a document validates without errors, the same document without
    the pairs of one of apiVersion, kind, metadata, spec yields exactly one
    error, "<field> is required" on the line of the document's mapping node. *)
Theorem C4_missing_top_level_field (path : string) (root doc : yaml.Node) (f : string) :
  yaml.Content root = [doc] →
  fst <$> Validate (NewValidator path root) = Some [] →
  f ∈ ["apiVersion"; "kind"; "metadata"; "spec"] →
  fst <$> Validate (NewValidator path (withContent root [removeField f doc]))
  = Some [ {| FilePath := path; Line := yaml.Line doc;
              Message := f +:+ " is required" |} ].
Proof.
  intros Hc Hvalid Hf.
  rewrite (fmap_fst_Validate_single _ _ doc Hc) in Hvalid.
  rewrite (fmap_fst_Validate_single _ _ (removeField f doc)) by reflexivity.
  rewrite run_validatePod in *.
  unfold visitFields in *. simpl yaml.Content.
  set (switch := λ (key : string) (valueNode : yaml.Node), _) in *.
  assert (Hs : ∀ key valueNode, uniform (switch key valueNode)).
  { intros. unfold switch. solve_uniform. }
  destruct (run (forPairs (yaml.Content doc) _ _) _) as [[visA es]|] eqn:Hloop;
    [|done].
  simpl in Hvalid. rewrite run_checkRequired in Hvalid. simpl in Hvalid.
  injection Hvalid as Hnil. apply app_eq_nil in Hnil as [-> Hreq].
  apply fmap_nil_inv in Hreq.
  pose proof (run_visit_marks _ _ _ _ _ _ Hs Hloop) as ->.
  destruct (run_visit_removePair _ f _ _ ∅ _ _ Hs Hloop) as [visB HB].
  pose proof (run_visit_marks _ _ _ _ _ _ Hs HB) as ->.
  rewrite HB. simpl. rewrite run_checkRequired. simpl.
  assert (Hvis : ∀ g, g ∈ ["apiVersion"; "kind"; "metadata"; "spec"] →
                 visited (markAll (pairKeys (removePair f (yaml.Content doc))) ∅) g
                 = bool_decide (g ≠ f)).
  { intros g Hg. rewrite visited_markAll.
    unfold visited at 1. rewrite lookup_empty. simpl.
    apply bool_decide_ext. rewrite pairKeys_removePair.
    split; [tauto|]. intros Hne. split; [|done].
    destruct (decide (g ∈ pairKeys (yaml.Content doc))) as [|Hnot]; [done|].
    exfalso. eapply (filter_nil_not_elem_of _ _ g Hreq); [|done].
    rewrite visited_markAll. unfold visited. rewrite lookup_empty. simpl.
    by rewrite bool_decide_false. }
  rewrite !filter_cons, filter_nil.
  rewrite !Hvis by set_solver.
  repeat (apply elem_of_cons in Hf as [->|Hf]; [vm_compute; reflexivity|]).
  by apply elem_of_nil in Hf.
Qed.

Lemma C4_missing_top_level_field_witness :
  fst <$> Validate
            (NewValidator "pod.yaml"
               (withContent scenarioA
                  [removeField "kind"
                     (scenarioPodAt blockLayout "web_app" "registry.bigbrother.io/app:1.0")]))
  = Some [ {| FilePath := "pod.yaml"; Line := 1; Message := "kind is required" |} ].
Proof.
  apply (C4_missing_top_level_field "pod.yaml" scenarioA
           (scenarioPodAt blockLayout "web_app" "registry.bigbrother.io/app:1.0")
           "kind").
  - reflexivity.
  - vm_compute. reflexivity.
  - compute_done.
Defined.

(** ** A document that is not a mapping *)

(** C9, at the failing input: the tree of the file [- a] has no mapping node
    at all, and [Validate] panics on it: [validatePod] reads the children of
    the sequence in pairs without looking at its kind. *)
Theorem C9_sequence_document_panics :
  mappingsEven sequenceDocument = true
  ∧ Validate (NewValidator "pod.yaml" sequenceDocument) = None.
Proof. split; vm_compute; reflexivity. Qed.

(** ** The regular-expression matcher *)

Module regexp_facts.
Import regexp.

Lemma app_cons c s t : String c s +:+ t = String c (s +:+ t).
Proof. reflexivity. Qed.

Lemma app_nil_r s : s +:+ "" = s.
Proof. induction s as [|c s IH]; [done|]. by rewrite app_cons, IH. Qed.

Lemma app_assoc s t u : (s +:+ t) +:+ u = s +:+ (t +:+ u).
Proof. induction s as [|c s IH]; [done|]. by rewrite !app_cons, IH. Qed.

Lemma app_eq_nil s t : s +:+ t = "" → s = "" ∧ t = "".
Proof. destruct s; [done|]. rewrite app_cons. discriminate. Qed.

Lemma length_app s t :
  String.length (s +:+ t) = (String.length s + String.length t)%nat.
Proof. induction s as [|c s IH]; [done|]. rewrite app_cons. simpl. by rewrite IH. Qed.

Lemma nullable_spec r : nullable r = true ↔ Matches r "".
Proof.
  split.
  - induction r; simpl; intros H; try discriminate.
    + constructor.
    + apply andb_true_iff in H as [H1 H2].
      change "" with ("" +:+ ""). constructor; auto.
    + apply orb_true_iff in H as [H|H]; [apply MAltL | apply MAltR]; auto.
    + constructor.
  - intros H. remember "" as s eqn:Hs.
    induction H; simpl; try done.
    + apply app_eq_nil in Hs as [-> ->]. rewrite IHMatches1, IHMatches2; done.
    + rewrite IHMatches; done.
    + rewrite IHMatches, orb_true_r; done.
Qed.

Lemma deriv_sound c r s : Matches (deriv c r) s → Matches r (String c s).
Proof.
  revert s. induction r; simpl; intros s H.
  - inversion H.
  - inversion H.
  - destruct (p c) eqn:Hp; inversion H; subst. by constructor.
  - destruct (nullable r1) eqn:Hn.
    + inversion H as [| |? ? ? ? H1|? ? ? H1|? ? ? H1| |]; subst.
      * inversion H1; subst. rewrite <- app_cons. constructor; auto.
      * change (String c s) with ("" +:+ String c s).
        constructor; [by apply nullable_spec | auto].
    + inversion H; subst. rewrite <- app_cons. constructor; auto.
  - inversion H; subst; [apply MAltL | apply MAltR]; auto.
  - inversion H; subst. rewrite <- app_cons. constructor; auto.
Qed.

Lemma deriv_complete c r s' :
  Matches r s' → ∀ s, s' = String c s → Matches (deriv c r) s.
Proof.
  induction 1 as [|p c' Hp|r1 r2 s1 s2 H1 IH1 H2 IH2|r1 r2 s0 H1 IH1|r1 r2 s0 H1 IH1
                 |r1|r1 s1 s2 H1 IH1 H2 IH2]; intros s Hs; simpl.
  - discriminate.
  - injection Hs as -> <-. rewrite Hp. constructor.
  - destruct s1 as [|c1 s1].
    + change (s2 = String c s) in Hs. subst s2.
      rewrite (proj2 (nullable_spec r1) H1). apply MAltR. by apply IH2.
    + rewrite app_cons in Hs. injection Hs as -> <-.
      destruct (nullable r1); [apply MAltL|]; constructor; auto.
  - apply MAltL. auto.
  - apply MAltR. auto.
  - discriminate.
  - destruct s1 as [|c1 s1].
    + change (s2 = String c s) in Hs. by apply IH2.
    + rewrite app_cons in Hs. injection Hs as -> <-. constructor; auto.
Qed.

Lemma matchb_spec r s : matchb r s = true ↔ Matches r s.
Proof.
  revert r. induction s as [|c s IH]; intros r; simpl.
  - apply nullable_spec.
  - rewrite IH. split; [apply deriv_sound|].
    intros H. by eapply deriv_complete.
Qed.

(** The languages of the pieces the patterns are built from. *)

Lemma Matches_Class p s : Matches (Class p) s ↔ ∃ c, s = String c "" ∧ p c = true.
Proof.
  split.
  - inversion 1; subst. eauto.
  - intros (c & -> & Hp). by constructor.
Qed.

Lemma Matches_Alt r1 r2 s : Matches (Alt r1 r2) s ↔ Matches r1 s ∨ Matches r2 s.
Proof.
  split.
  - inversion 1; subst; auto.
  - intros [H|H]; [by apply MAltL | by apply MAltR].
Qed.

Lemma Matches_Lit w s : Matches (Lit w) s ↔ s = w.
Proof.
  revert s. induction w as [|c w IH]; intros s; simpl.
  - split; [by inversion 1 | intros ->; constructor].
  - split.
    + inversion 1 as [| |? ? s1 s2 H1 H2| | | |]; subst.
      apply Matches_Class in H1 as (c' & -> & Hc).
      apply Ascii.eqb_eq in Hc as <-. apply IH in H2 as ->. done.
    + intros ->. change (String c w) with (String c "" +:+ w).
      constructor; [constructor; apply Ascii.eqb_refl | by apply IH].
Qed.

Lemma allOf_app p s t : allOf p (s +:+ t) = allOf p s && allOf p t.
Proof.
  induction s as [|c s IH]; [done|]. rewrite app_cons. simpl.
  by rewrite IH, andb_assoc.
Qed.

Lemma Matches_Star_Class p s : Matches (Star (Class p)) s ↔ allOf p s = true.
Proof.
  split.
  - intros H. remember (Star (Class p)) as r eqn:Hr.
    induction H; try discriminate; [done|].
    injection Hr as ->. rewrite allOf_app.
    apply Matches_Class in H as (c & -> & Hc). simpl.
    rewrite Hc, IHMatches2; done.
  - induction s as [|c s IH]; simpl; intros H; [constructor|].
    apply andb_true_iff in H as [Hc Hs].
    change (String c s) with (String c "" +:+ s).
    constructor; [by constructor | auto].
Qed.

Lemma Matches_Plus_Class p s :
  Matches (Plus (Class p)) s ↔ s ≠ "" ∧ allOf p s = true.
Proof.
  unfold Plus. split.
  - inversion 1 as [| |? ? s1 s2 H1 H2| | | |]; subst.
    apply Matches_Class in H1 as (c & -> & Hc).
    apply Matches_Star_Class in H2. change (String c "" +:+ s2) with (String c s2).
    simpl. by rewrite Hc, H2.
  - destruct s as [|c s]; intros [Hne H]; [done|].
    simpl in H. apply andb_true_iff in H as [Hc Hs].
    change (String c s) with (String c "" +:+ s).
    constructor; [by constructor | by apply Matches_Star_Class].
Qed.

Lemma longestSplit_Some ok s a b :
  longestSplit ok s = Some (a, b) → s = a +:+ b ∧ ok a b = true.
Proof.
  revert ok a b. induction s as [|c s IH]; intros ok a b; simpl.
  - destruct (ok "" "") eqn:Hok; [|done]. by intros [= <- <-].
  - destruct (longestSplit _ s) as [[a' b']|] eqn:Hl.
    + intros [= <- <-]. apply IH in Hl as [-> Hok]. done.
    + destruct (ok "" (String c s)) eqn:Hok; [|done]. by intros [= <- <-].
Qed.

Lemma longestSplit_None ok s a b :
  longestSplit ok s = None → s = a +:+ b → ok a b = false.
Proof.
  revert ok a b. induction s as [|c s IH]; intros ok a b; simpl.
  - destruct (ok "" "") eqn:Hok; [done|].
    intros _ Hs. symmetry in Hs. apply app_eq_nil in Hs as [-> ->]. done.
  - destruct (longestSplit _ s) as [[a' b']|] eqn:Hl; [done|].
    destruct (ok "" (String c s)) eqn:Hok; [done|]. intros _.
    destruct a as [|c' a].
    + change ("" +:+ b) with b. by intros <-.
    + rewrite app_cons. intros [= <- ->].
      by apply (IH (λ a b, ok (String c a) b)).
Qed.

End regexp_facts.

(** ** Memory quantities *)

Lemma memory_unit_spec u :
  regexp.matchb RegexMemory_unit u = true ↔ u ∈ ["Mi"; "Gi"; "Ki"].
Proof.
  rewrite regexp_facts.matchb_spec. unfold RegexMemory_unit.
  rewrite !regexp_facts.Matches_Alt, !regexp_facts.Matches_Lit.
  rewrite !elem_of_cons, elem_of_nil. tauto.
Qed.

Lemma memory_amount_spec d :
  regexp.matchb RegexMemory_amount d = true
  ↔ d ≠ "" ∧ regexp.allOf regexp.isDigit d = true.
Proof.
  rewrite regexp_facts.matchb_spec. apply regexp_facts.Matches_Plus_Class.
Qed.

Lemma memoryPattern_ok d u :
  regexp.matchb RegexMemory_amount d && regexp.matchb RegexMemory_unit u = true
  ↔ memoryPattern (d +:+ u) d u.
Proof.
  unfold memoryPattern.
  rewrite andb_true_iff, memory_amount_spec, memory_unit_spec. tauto.
Qed.

Lemma memoryPattern_unique s d u d' u' :
  memoryPattern s d u → memoryPattern s d' u' → d = d' ∧ u = u'.
Proof.
  intros (-> & _ & _ & Hu) (Heq & _ & _ & Hu').
  assert (Hlen : String.length u = String.length u').
  { rewrite !elem_of_cons, elem_of_nil in Hu, Hu'.
    destruct Hu as [->|[->|[->|[]]]], Hu' as [->|[->|[->|[]]]]; reflexivity. }
  clear Hu Hu'. revert d' Heq.
  induction d as [|c d IH]; intros d' Heq.
  - destruct d' as [|c' d']; [done|].
    change ("" +:+ u) with u in Heq. subst u.
    rewrite regexp_facts.length_app in Hlen. simpl in Hlen. lia.
  - destruct d' as [|c' d'].
    + change ("" +:+ u') with u' in Heq. subst u'.
      rewrite regexp_facts.length_app in Hlen. simpl in Hlen. lia.
    + rewrite !regexp_facts.app_cons in Heq. injection Heq as -> Heq.
      destruct (IH _ Heq) as [-> ->]. done.
Qed.

Lemma FindStringSubmatch_Some s l :
  RegexMemory_FindStringSubmatch s = Some l →
  ∃ d u, l = [s; d; u] ∧ memoryPattern s d u.
Proof.
  unfold RegexMemory_FindStringSubmatch, regexp.FindStringSubmatch2.
  destruct (regexp.longestSplit _ s) as [[d u]|] eqn:Hl; [|done].
  intros [= <-]. exists d, u. split; [done|].
  apply regexp_facts.longestSplit_Some in Hl as [-> Hok].
  by apply memoryPattern_ok.
Qed.

Lemma FindStringSubmatch_None s :
  RegexMemory_FindStringSubmatch s = None → ¬ ∃ d u, memoryPattern s d u.
Proof.
  unfold RegexMemory_FindStringSubmatch, regexp.FindStringSubmatch2.
  destruct (regexp.longestSplit _ s) as [[d u]|] eqn:Hl; [done|].
  intros _ (d & u & Hp).
  pose proof Hp as (Hs & _).
  pose proof (regexp_facts.longestSplit_None _ _ d u Hl Hs) as Hok.
  subst s. apply memoryPattern_ok in Hp. simpl in Hok. congruence.
Qed.

Lemma isDigit_digitValue c :
  regexp.isDigit c = true → 0 ≤ strconv.digitValue c ≤ 9.
Proof.
  unfold regexp.isDigit, strconv.digitValue.
  rewrite andb_true_iff, !Nat.leb_le. lia.
Qed.

Lemma isDigit_not_sign c :
  regexp.isDigit c = true →
  Ascii.eqb c "-"%char || Ascii.eqb c "+"%char = false.
Proof.
  intros Hd.
  destruct (Ascii.eqb_spec c "-"%char) as [->|_]; [vm_compute in Hd; discriminate|].
  destruct (Ascii.eqb_spec c "+"%char) as [->|_]; [vm_compute in Hd; discriminate|].
  reflexivity.
Qed.

Lemma parseDigits_digits d acc :
  regexp.allOf regexp.isDigit d = true →
  strconv.parseDigits d acc = Some (decimalValueFrom acc d).
Proof.
  revert acc. induction d as [|c d IH]; intros acc; simpl; [done|].
  intros [Hc Hd]%andb_true_iff. rewrite Hc. by apply IH.
Qed.

Lemma decimalValueFrom_nonneg d acc :
  regexp.allOf regexp.isDigit d = true → 0 ≤ acc → 0 ≤ decimalValueFrom acc d.
Proof.
  revert acc. induction d as [|c d IH]; intros acc; simpl; [done|].
  intros [Hc Hd]%andb_true_iff Hacc. apply IH; [done|].
  apply isDigit_digitValue in Hc. lia.
Qed.

Lemma Atoi_digits d :
  d ≠ "" → regexp.allOf regexp.isDigit d = true →
  strconv.Atoi d
  = if decide (decimalValue d ≤ strconv.maxInt) then Some (decimalValue d) else None.
Proof.
  intros Hne Hd. destruct d as [|c d]; [done|].
  pose proof Hd as [Hc _]%andb_true_iff.
  pose proof (isDigit_not_sign c Hc) as Hsign.
  apply orb_false_iff in Hsign as [Hminus Hplus].
  unfold strconv.Atoi. rewrite Hminus, Hplus. simpl orb. cbv iota.
  rewrite parseDigits_digits by done. fold (decimalValue (String c d)).
  pose proof (decimalValueFrom_nonneg (String c d) 0 Hd ltac:(lia)) as Hpos.
  fold (decimalValue (String c d)) in Hpos.
  assert (strconv.minInt <= 0) by (vm_compute; discriminate).
  destruct (decide _) as [Hle|Hgt].
  - rewrite (proj2 (Z.leb_le _ _)) by lia.
    rewrite (proj2 (Z.leb_le _ _)) by lia. reflexivity.
  - rewrite (proj2 (Z.leb_le strconv.minInt _)) by lia.
    rewrite (proj2 (Z.leb_gt _ _)) by lia. reflexivity.
Qed.

(** C7: for a scalar memory value, when the text is not one or more digits
    followed by Mi, Gi or Ki the error is "memory has invalid format
    '<value>'"; when it is, with the digits [d], nothing is appended if the
    amount [d] denotes is at least 1 (and fits Go's int), and otherwise the
    error is "memory value out of range". *)
Theorem C7_memory_quantity (node : yaml.Node) (v : Validator.t) :
  yaml.Kind node = yaml.ScalarNode →
  ((¬ ∃ d u, memoryPattern (yaml.Value node) d u) →
   validateMemory node v
   = Some (tt, appendErrors v
                 [ mkError v (yaml.Line node)
                     ("memory has invalid format '" +:+ yaml.Value node +:+ "'") ]))
  ∧ (∀ d u, memoryPattern (yaml.Value node) d u →
       validateMemory node v
       = if decide (1 ≤ decimalValue d ≤ strconv.maxInt)
         then Some (tt, v)
         else Some (tt, appendErrors v
                          [ mkError v (yaml.Line node) "memory value out of range" ])).
Proof.
  intros Hkind. unfold validateMemory. rewrite Hkind. simpl.
  destruct (RegexMemory_FindStringSubmatch (yaml.Value node)) as [l|] eqn:Hfind.
  - apply FindStringSubmatch_Some in Hfind as (d & u & -> & Hp). split.
    + intros Hno. exfalso. apply Hno. eauto.
    + intros d' u' Hp'. destruct (memoryPattern_unique _ _ _ _ _ Hp' Hp) as [-> ->].
      simpl. destruct Hp as (_ & Hne & Hd & _).
      rewrite Atoi_digits by done.
      destruct (decide (decimalValue d ≤ strconv.maxInt)) as [Hle|Hgt].
      * destruct (Z.ltb_spec (decimalValue d) 1), (decide _);
          try reflexivity; exfalso; lia.
      * destruct (decide _); [exfalso; lia | reflexivity].
  - split; [reflexivity|].
    intros d u Hp. exfalso. eapply FindStringSubmatch_None; eauto.
Qed.

Lemma memoryPattern_intro d u :
  d ≠ "" → regexp.allOf regexp.isDigit d = true →
  bool_decide (u ∈ ["Mi"; "Gi"; "Ki"]) = true →
  memoryPattern (d +:+ u) d u.
Proof.
  intros Hne Hd Hu. repeat split; try done. by apply bool_decide_eq_true in Hu.
Qed.

Lemma C7_memory_quantity_witness :
  let v := NewValidator "pod.yaml" (document 1 []) in
  validateMemory (scalar 12 "512Mi") v = Some (tt, v)
  ∧ validateMemory (scalar 12 "1Ki") v = Some (tt, v)
  ∧ validateMemory (scalar 12 "1Gi") v = Some (tt, v)
  ∧ validateMemory (scalar 12 "512") v
    = memoryError 12 "memory has invalid format '512'"
  ∧ validateMemory (scalar 12 "0Mi") v = memoryError 12 "memory value out of range".
Proof.
  intros v.
  pose proof (proj2 (C7_memory_quantity (scalar 12 "512Mi") v eq_refl) "512" "Mi"
                (memoryPattern_intro "512" "Mi" ltac:(discriminate) eq_refl eq_refl))
    as H1.
  pose proof (proj2 (C7_memory_quantity (scalar 12 "1Ki") v eq_refl) "1" "Ki"
                (memoryPattern_intro "1" "Ki" ltac:(discriminate) eq_refl eq_refl))
    as H2.
  pose proof (proj2 (C7_memory_quantity (scalar 12 "1Gi") v eq_refl) "1" "Gi"
                (memoryPattern_intro "1" "Gi" ltac:(discriminate) eq_refl eq_refl))
    as H3.
  pose proof (proj1 (C7_memory_quantity (scalar 12 "512") v eq_refl)
                (FindStringSubmatch_None "512" eq_refl)) as H4.
  pose proof (proj2 (C7_memory_quantity (scalar 12 "0Mi") v eq_refl) "0" "Mi"
                (memoryPattern_intro "0" "Mi" ltac:(discriminate) eq_refl eq_refl))
    as H5.
  exact (conj H1 (conj H2 (conj H3 (conj H4 H5)))).
Defined.

(** ** The messages a validator can append *)

Lemma sound_ret {A} P (a : A) : sound P (mret a).
Proof.
  split; [apply uniform_ret|]. intros path a' es. rewrite run_ret.
  intros [= _ <-]. constructor.
Qed.

Lemma sound_panic {A} P : sound P (@panic A).
Proof. split; [apply uniform_panic|]. intros path a es. by rewrite run_panic. Qed.

Lemma sound_report P line msg :
  (∀ path, P {| FilePath := path; Line := line; Message := msg |}) →
  sound P (report line msg).
Proof.
  intros HP. split; [apply uniform_report|]. intros path a es. rewrite run_report.
  intros [= _ <-]. constructor; [apply HP | constructor].
Qed.

Lemma sound_bind {A B} P (m : Exec A) (k : A → Exec B) :
  sound P m → (∀ a, sound P (k a)) → sound P (m ≫= k).
Proof.
  intros [Hum Hem] Hk. split.
  - apply uniform_bind; [done | intros a; apply Hk].
  - intros path b es. rewrite run_bind; [|done | intros a; apply Hk].
    destruct (run m path) as [[a es1]|] eqn:Hm; simpl; [|done].
    destruct (run (k a) path) as [[b' es2]|] eqn:Hka; [|done].
    intros [= _ <-]. apply Forall_app. split.
    + by eapply Hem.
    + by eapply (proj2 (Hk a)).
Qed.

Lemma sound_forPairs {S} P content (body : yaml.Node → yaml.Node → S → Exec S) s :
  (∀ k v s', sound P (body k v s')) → sound P (forPairs content body s).
Proof.
  intros Hbody. revert s.
  induction content as [|x|k v rest IH] using pairs_ind; intros s; simpl.
  - apply sound_ret.
  - apply sound_panic.
  - apply sound_bind; auto.
Qed.

Lemma sound_forRange {A} P (xs : list A) (body : A → Exec unit) :
  (∀ x, sound P (body x)) → sound P (forRange xs body).
Proof.
  intros Hbody. induction xs as [|x xs IH]; simpl.
  - apply sound_ret.
  - apply sound_bind; auto.
Qed.

Lemma sound_visitFields P node switch :
  (∀ key valueNode, sound P (switch key valueNode)) →
  sound P (visitFields node switch).
Proof.
  intros Hs. apply sound_forPairs. intros k v s.
  apply sound_bind; [apply Hs|]. intros _. apply sound_ret.
Qed.

Lemma sound_checkRequired P node requiredFields vis :
  Forall (λ f, ∀ path, P (requiredError path node f)) requiredFields →
  sound P (checkRequired node requiredFields vis).
Proof.
  intros Hreq. split; [apply uniform_checkRequired|].
  intros path a es. rewrite run_checkRequired. intros [= _ <-].
  apply Forall_fmap, Forall_forall. intros f [_ Hf]%list_elem_of_filter.
  rewrite Forall_forall in Hreq. by apply Hreq.
Qed.

Lemma sound_mono {A} (P Q : ValidationError → Prop) (m : Exec A) :
  (∀ e, P e → Q e) → sound P m → sound Q m.
Proof.
  intros HPQ [Hu He]. split; [done|].
  intros path a es Hrun. eapply Forall_impl; [by eapply He | done].
Qed.

Lemma hasTag_mono tags1 tags2 e :
  tags1 ⊆ tags2 → hasTag tags1 e → hasTag tags2 e.
Proof. unfold hasTag. set_solver. Qed.

Ltac tag_solve :=
  intros; unfold hasTag, requiredError; apply (bool_decide_unpack _);
  vm_compute; exact I.

Create HintDb sound.

Ltac sound_step :=
  match goal with
  | |- sound _ (mbind _ _) => apply sound_bind; [|intros]
  | |- sound _ (mret _) => apply sound_ret
  | |- sound _ (report _ _) => apply sound_report; tag_solve
  | |- sound _ (visitFields _ _) => apply sound_visitFields; intros
  | |- sound _ (checkRequired _ _ _) =>
      apply sound_checkRequired; repeat (constructor; [tag_solve|]); constructor
  | |- sound _ (forPairs _ _ _) => apply sound_forPairs; intros
  | |- sound _ (forRange _ _) => apply sound_forRange; intros
  | |- sound _ (if ?c then _ else _) => destruct c
  | |- sound _ (match ?c with _ => _ end) => destruct c
  | |- sound _ _ => solve [auto with sound]
  end.
Ltac solve_sound := repeat sound_step.

Lemma sound_validateName node b : sound (hasTag switchTags) (validateName node b).
Proof. unfold validateName. solve_sound. Qed.
Lemma sound_validateImage node : sound (hasTag switchTags) (validateImage node).
Proof. unfold validateImage. solve_sound. Qed.
Lemma sound_validateContainerPort node :
  sound (hasTag switchTags) (validatePortNumber node "containerPort").
Proof. unfold validatePortNumber. solve_sound. Qed.
Lemma sound_validateProbePort node :
  sound (hasTag switchTags) (validatePortNumber node "port").
Proof. unfold validatePortNumber. solve_sound. Qed.
Lemma sound_validateProtocol node : sound (hasTag switchTags) (validateProtocol node).
Proof. unfold validateProtocol. solve_sound. Qed.
#[local] Hint Resolve sound_validateName sound_validateImage
  sound_validateContainerPort sound_validateProbePort sound_validateProtocol : sound.
Lemma sound_validatePort node : sound (hasTag switchTags) (validatePort node).
Proof. unfold validatePort. solve_sound. Qed.
#[local] Hint Resolve sound_validatePort : sound.
Lemma sound_validatePorts node : sound (hasTag switchTags) (validatePorts node).
Proof. unfold validatePorts. solve_sound. Qed.
Lemma sound_validateHTTPPath node : sound (hasTag switchTags) (validateHTTPPath node).
Proof. unfold validateHTTPPath. solve_sound. Qed.
#[local] Hint Resolve sound_validatePorts sound_validateHTTPPath : sound.
Lemma sound_validateHTTPGet node : sound (hasTag switchTags) (validateHTTPGet node).
Proof. unfold validateHTTPGet. solve_sound. Qed.
#[local] Hint Resolve sound_validateHTTPGet : sound.
Lemma sound_validateProbe node : sound (hasTag switchTags) (validateProbe node).
Proof. unfold validateProbe. solve_sound. Qed.
Lemma sound_validateCPU node : sound (hasTag switchTags) (validateCPU node).
Proof. unfold validateCPU. solve_sound. Qed.
Lemma sound_validateMemory node : sound (hasTag switchTags) (validateMemory node).
Proof. unfold validateMemory. solve_sound. Qed.
#[local] Hint Resolve sound_validateProbe sound_validateCPU sound_validateMemory : sound.
Lemma sound_validateResourceRequirements node :
  sound (hasTag switchTags) (validateResourceRequirements node).
Proof. unfold validateResourceRequirements. solve_sound. Qed.
#[local] Hint Resolve sound_validateResourceRequirements : sound.
Lemma sound_validateResources node : sound (hasTag switchTags) (validateResources node).
Proof. unfold validateResources. solve_sound. Qed.
#[local] Hint Resolve sound_validateResources : sound.

Lemma sound_containerSwitch key valueNode :
  sound (hasTag switchTags) (containerSwitch key valueNode).
Proof. unfold containerSwitch. solve_sound. Qed.

Lemma subseteq_switch_containers : switchTags ⊆ containersTags.
Proof. unfold containersTags. set_solver. Qed.

Lemma sound_validateContainer node :
  sound (hasTag containersTags) (validateContainer node).
Proof.
  unfold validateContainer. fold containerSwitch.
  apply sound_bind.
  - apply sound_visitFields. intros key valueNode.
    eapply sound_mono; [|apply sound_containerSwitch].
    intros e. apply hasTag_mono, subseteq_switch_containers.
  - intros vis. solve_sound.
Qed.
#[local] Hint Resolve sound_validateContainer : sound.

Lemma sound_validateContainers node :
  sound (hasTag containersTags) (validateContainers node).
Proof. unfold validateContainers. solve_sound. Qed.

Lemma sound_validateOS node : sound (hasTag specSwitchTags) (validateOS node).
Proof. unfold validateOS. solve_sound. Qed.

Lemma sound_specSwitch key valueNode :
  sound (hasTag specSwitchTags) (specSwitch key valueNode).
Proof.
  unfold specSwitch. destruct (decide _); [apply sound_validateOS|].
  destruct (decide _); [|apply sound_ret].
  eapply sound_mono; [|apply sound_validateContainers].
  intros err. apply hasTag_mono. unfold specSwitchTags. set_solver.
Qed.

(** ** A key that is present counts as visited *)

Lemma pairKeys_app pre l :
  Nat.even (length pre) = true → pairKeys (pre ++ l) = pairKeys pre ++ pairKeys l.
Proof.
  induction pre as [|x|k v rest IH] using pairs_ind; simpl; intros Heven.
  - done.
  - done.
  - by rewrite IH.
Qed.

Lemma visitFields_present node switch path vis es pre keyNode valueNode post :
  (∀ key v, uniform (switch key v)) →
  run (visitFields node switch) path = Some (vis, es) →
  yaml.Content node = pre ++ keyNode :: valueNode :: post →
  Nat.even (length pre) = true →
  visited vis (yaml.Value keyNode) = true.
Proof.
  intros Hs Hrun Hc Heven. unfold visitFields in Hrun.
  apply run_visit_marks in Hrun as ->; [|done].
  rewrite visited_markAll, Hc, pairKeys_app by done. simpl.
  rewrite bool_decide_true by set_solver. apply orb_true_r.
Qed.

Lemma run_validateSpec node path :
  run (validateSpec node) path
  = bindOut (run (visitFields node specSwitch) path)
      (λ vis, run (checkRequired node ["containers"] vis) path).
Proof.
  unfold validateSpec. apply run_bind; [|intros; solve_uniform].
  apply uniform_visitFields. intros. apply sound_specSwitch.
Qed.

Lemma run_validateContainer node path :
  run (validateContainer node) path
  = bindOut (run (visitFields node containerSwitch) path)
      (λ vis, run (checkRequired node ["name"; "image"; "resources"] vis) path).
Proof.
  unfold validateContainer. apply run_bind; [|intros; solve_uniform].
  apply uniform_visitFields. intros. apply sound_containerSwitch.
Qed.

Lemma hasTag_not tags e field required :
  bool_decide ((field, required) ∈ tags) = false →
  hasTag tags e → msgTag (Message e) ≠ (field, required).
Proof.
  intros Hnot Htag Heq. unfold hasTag in Htag. rewrite Heq in Htag.
  by rewrite bool_decide_true in Hnot.
Qed.

Lemma uniform_appended {A} (m : Exec A) v a v' :
  uniform m → m v = Some (a, v') →
  ∃ es, run m (Validator.FilePath v) = Some (a, es) ∧ v' = appendErrors v es.
Proof.
  intros Hu. rewrite Hu. destruct (run m _) as [[a' es]|]; [|done].
  intros [= <- <-]. eauto.
Qed.

(** C5: in a spec node that has a containers key whose value is an empty
    sequence, the empty sequence is accepted without any error and no error
    that [validateSpec] appends is "containers is required". *)
Theorem C5_empty_containers_are_present
    (node keyNode valueNode : yaml.Node) (pre post : list yaml.Node)
    (v v' : Validator.t) :
  yaml.Content node = pre ++ keyNode :: valueNode :: post →
  Nat.even (length pre) = true →
  yaml.Value keyNode = "containers" →
  yaml.Kind valueNode = yaml.SequenceNode →
  yaml.Content valueNode = [] →
  validateSpec node v = Some (tt, v') →
  validateContainers valueNode v = Some (tt, v)
  ∧ ∃ es, v' = appendErrors v es
          ∧ Forall (λ e, Message e ≠ "containers is required") es.
Proof.
  intros Hc Heven Hkey Hkind Hempty Hrun. split.
  { unfold validateContainers. rewrite Hkind, Hempty. reflexivity. }
  apply uniform_appended in Hrun as (es & Hrun & ->); [|apply uniform_validateSpec].
  exists es. split; [done|].
  rewrite run_validateSpec in Hrun.
  destruct (run (visitFields node specSwitch) _) as [[vis es1]|] eqn:Hloop; [|done].
  simpl in Hrun. rewrite run_checkRequired in Hrun.
  assert (Hvis : visited vis "containers" = true).
  { rewrite <- Hkey. eapply visitFields_present; eauto.
    intros. apply sound_specSwitch. }
  rewrite filter_cons, filter_nil, Hvis in Hrun. simpl in Hrun.
  injection Hrun as <-. rewrite app_nil_r.
  pose proof (sound_visitFields _ node _ sound_specSwitch) as [_ Hem].
  eapply Forall_impl; [by eapply Hem|].
  intros e Htag Hmsg.
  apply (hasTag_not _ _ "containers" true) in Htag; [|by vm_compute].
  apply Htag. rewrite Hmsg. reflexivity.
Qed.

Lemma C5_empty_containers_are_present_witness :
  validateContainers (sequence 6 []) (NewValidator "pod.yaml" (document 1 []))
  = Some (tt, NewValidator "pod.yaml" (document 1 []))
  ∧ ∃ es,
      Validator.mk "pod.yaml" (document 1 [])
        {| Errors := specWithEmptyContainers_errors |}
      = appendErrors (NewValidator "pod.yaml" (document 1 [])) es
      ∧ Forall (λ e, Message e ≠ "containers is required") es.
Proof.
  apply (C5_empty_containers_are_present specWithEmptyContainers
           (scalar 6 "containers") (sequence 6 [])
           [scalar 5 "os"; scalar 5 "beos"] []);
    reflexivity.
Defined.

(** ** A resources value that is not a mapping *)

(** C10: in a container node that has a resources key whose value is not a
    mapping, no error that [validateContainer] appends is about the field
    resources (neither "resources is required" nor any other message that
    begins with that field); a value without children, as every scalar is,
    is accepted without any error. *)
Theorem C10_resources_kind_is_not_checked
    (node keyNode valueNode : yaml.Node) (pre post : list yaml.Node)
    (v v' : Validator.t) :
  yaml.Content node = pre ++ keyNode :: valueNode :: post →
  Nat.even (length pre) = true →
  yaml.Value keyNode = "resources" →
  yaml.Kind valueNode ≠ yaml.MappingNode →
  validateContainer node v = Some (tt, v') →
  (∃ es, v' = appendErrors v es
         ∧ Forall (λ e, fieldOf (Message e) ≠ "resources") es)
  ∧ (yaml.Content valueNode = [] → validateResources valueNode v = Some (tt, v)).
Proof.
  intros Hc Heven Hkey Hkind Hrun. split.
  2:{ intros Hempty. unfold validateResources. rewrite Hempty. reflexivity. }
  apply uniform_appended in Hrun as (es & Hrun & ->);
    [|apply uniform_validateContainer].
  exists es. split; [done|].
  rewrite run_validateContainer in Hrun.
  destruct (run (visitFields node containerSwitch) _) as [[vis es1]|] eqn:Hloop;
    [|done].
  simpl in Hrun. rewrite run_checkRequired in Hrun.
  assert (Hvis : visited vis "resources" = true).
  { rewrite <- Hkey. eapply visitFields_present; eauto.
    intros. apply sound_containerSwitch. }
  injection Hrun as <-. apply Forall_app. split.
  - pose proof (sound_visitFields _ node _ sound_containerSwitch) as [_ Hem].
    eapply Forall_impl; [by eapply Hem|].
    intros e Htag Hfield. unfold hasTag, msgTag in Htag. rewrite Hfield in Htag.
    destruct (String.eqb _ _); apply (bool_decide_pack _) in Htag;
      vm_compute in Htag; exact Htag.
  - rewrite !filter_cons, filter_nil, Hvis. simpl.
    destruct (decide (visited vis "name" = false)),
             (decide (visited vis "image" = false));
      simpl; repeat constructor; vm_compute; discriminate.
Qed.

Lemma C10_resources_kind_is_not_checked_witness :
  (∃ es,
     Validator.mk "pod.yaml" (document 1 [])
       {| Errors := containerWithScalarResources_errors |}
     = appendErrors (NewValidator "pod.yaml" (document 1 [])) es
     ∧ Forall (λ e, fieldOf (Message e) ≠ "resources") es)
  ∧ (yaml.Content (scalar 8 "none") = [] →
     validateResources (scalar 8 "none") (NewValidator "pod.yaml" (document 1 []))
     = Some (tt, NewValidator "pod.yaml" (document 1 []))).
Proof.
  apply (C10_resources_kind_is_not_checked containerWithScalarResources
           (scalar 8 "resources") (scalar 8 "none")
           [scalar 7 "name"; scalar 7 "web_app"] []).
  - reflexivity.
  - reflexivity.
  - reflexivity.
  - discriminate.
  - vm_compute. reflexivity.
Defined.

(** ** Unknown keys *)

Lemma forPairs_visit_decompose switch content vis v :
  forPairs content (visitPair switch) vis v
  = match forPairs content (λ k val _, switch (yaml.Value k) val) tt v with
    | Some (_, v') => Some (markAll (pairKeys content) vis, v')
    | None => None
    end.
Proof.
  revert vis v. induction content as [|x|k val rest IH] using pairs_ind;
    intros vis v; simpl; try reflexivity.
  unfold mbind, Exec_bind, visitPair at 1. unfold mbind, Exec_bind.
  destruct (switch (yaml.Value k) val v) as [[[] v1]|]; simpl; [|done].
  apply IH.
Qed.

Lemma objectForm_visit sh node v :
  (visitedFields ← visitFields node (switchOf sh);
   checkRequired node (requiredOf sh) visitedFields) v
  = objectForm sh node v.
Proof.
  unfold objectForm, visitFields.
  unfold mbind at 1. unfold Exec_bind. rewrite forPairs_visit_decompose.
  destruct (forPairs _ _ _ _) as [[[] v']|]; reflexivity.
Qed.

Lemma objectForm_plain sh node v :
  requiredOf sh = [] →
  forPairs (yaml.Content node)
    (λ keyNode valueNode _, switchOf sh (yaml.Value keyNode) valueNode) tt v
  = objectForm sh node v.
Proof.
  intros Hreq. unfold objectForm. rewrite Hreq.
  destruct (forPairs _ _ _ _) as [[[] v']|]; reflexivity.
Qed.

Lemma validateAt_object sh node v :
  objectShape sh = true →
  validateAt sh node v
  = match guardOf sh node with
    | Some m => m v
    | None => objectForm sh node v
    end.
Proof.
  destruct sh; try discriminate; intros _; simpl;
    try match goal with
        | |- _ = objectForm ?s _ _ =>
            first [ exact (objectForm_visit s node v)
                  | exact (objectForm_plain s node v eq_refl) ]
        end.
  unfold validateLabels.
  destruct (decide (yaml.Kind node ≠ yaml.MappingNode)); [reflexivity|].
  exact (objectForm_plain ShLabels node v eq_refl).
Qed.

Lemma forPairs_app {S} pre l (body : yaml.Node → yaml.Node → S → Exec S) s v :
  Nat.even (length pre) = true →
  forPairs (pre ++ l) body s v
  = match forPairs pre body s v with
    | Some (s', v') => forPairs l body s' v'
    | None => None
    end.
Proof.
  revert s v. induction pre as [|x|k val rest IH] using pairs_ind;
    intros s v Heven; simpl in *.
  - reflexivity.
  - discriminate.
  - unfold mbind, Exec_bind.
    destruct (body k val s v) as [[s1 v1]|]; [|reflexivity]. by apply IH.
Qed.

Lemma forPairs_insert_noop pre post k val
    (body : yaml.Node → yaml.Node → unit → Exec unit) v :
  Nat.even (length pre) = true →
  (∀ v0, body k val tt v0 = Some (tt, v0)) →
  forPairs (pre ++ k :: val :: post) body tt v = forPairs (pre ++ post) body tt v.
Proof.
  intros Heven Hnoop. rewrite !forPairs_app by done.
  destruct (forPairs pre body tt v) as [[[] v1]|]; [|reflexivity].
  simpl. unfold mbind, Exec_bind. rewrite Hnoop. reflexivity.
Qed.

Lemma forPairs_update sw content j c c' v :
  content !! j = Some c →
  yaml.Value c' = yaml.Value c →
  (Nat.even j = false → ∀ k, content !! (j - 1)%nat = Some k →
     ∀ v0, sw (yaml.Value k) c' v0 = sw (yaml.Value k) c v0) →
  forPairs (<[j := c']> content) (λ k val _, sw (yaml.Value k) val) tt v
  = forPairs content (λ k val (_ : unit), sw (yaml.Value k) val) tt v.
Proof.
  revert j v. induction content as [|x|k val rest IH] using pairs_ind;
    intros j v Hj Hval Hodd.
  - done.
  - destruct j; reflexivity.
  - destruct j as [|[|j]]; simpl in *.
    + injection Hj as ->. by rewrite Hval.
    + injection Hj as ->. unfold mbind, Exec_bind.
      by rewrite (Hodd eq_refl k eq_refl).
    + unfold mbind, Exec_bind.
      destruct (sw (yaml.Value k) val v) as [[[] v1]|]; [|reflexivity].
      apply IH; [done..|].
      intros He k0 Hk0. apply Hodd; [done|].
      destruct j; [done|]. simpl in *. by rewrite Nat.sub_0_r in Hk0.
Qed.

Lemma pairKeys_update content j c c' :
  content !! j = Some c → yaml.Value c' = yaml.Value c →
  pairKeys (<[j := c']> content) = pairKeys content.
Proof.
  revert j. induction content as [|x|k val rest IH] using pairs_ind; intros j Hj Hval.
  - done.
  - destruct j; reflexivity.
  - destruct j as [|[|j]]; simpl in *.
    + injection Hj as ->. by rewrite Hval.
    + reflexivity.
    + f_equal. by apply IH.
Qed.

Lemma forRange_update (f : yaml.Node → Exec unit) content j c c' v :
  content !! j = Some c → (∀ v0, f c' v0 = f c v0) →
  forRange (<[j := c']> content) f v = forRange content f v.
Proof.
  revert j v. induction content as [|x rest IH]; intros j v Hj Hf; [done|].
  destruct j as [|j]; simpl in *; unfold mbind, Exec_bind.
  - injection Hj as ->. by rewrite Hf.
  - destruct (f x v) as [[[] v1]|]; [|reflexivity]. by apply IH.
Qed.

Lemma checkRequired_ext node node' requiredFields vis vis' v :
  yaml.Line node' = yaml.Line node →
  (∀ f, f ∈ requiredFields → visited vis' f = visited vis f) →
  checkRequired node' requiredFields vis' v = checkRequired node requiredFields vis v.
Proof.
  intros Hline. unfold checkRequired. rewrite Hline. revert v.
  induction requiredFields as [|f fs IH]; intros v Hvis; [done|].
  simpl. unfold mbind, Exec_bind.
  rewrite (Hvis f) by set_solver.
  destruct (_ v) as [[[] v1]|]; [|reflexivity].
  apply IH. intros g Hg. apply Hvis. set_solver.
Qed.

(** ** What the object validators do with unknown keys and with values *)

Lemma switchOf_unknown sh key val v :
  objectShape sh = true → unknownKey sh key = true → silentEntry sh val →
  switchOf sh key val v = Some (tt, v).
Proof.
  destruct sh; try discriminate; intros _ Hu Hs; simpl in *;
    try (by rewrite decide_False by (by intros []));
    try (by apply Hs);
    apply bool_decide_eq_true in Hu;
    unfold specSwitch, containerSwitch;
    repeat (destruct (decide (key = _)) as [->|?];
            [vm_compute in Hu; discriminate|]);
    reflexivity.
Qed.

Lemma requiredOf_known sh key :
  objectShape sh = true → unknownKey sh key = true → key ∉ requiredOf sh.
Proof.
  destruct sh; try discriminate; intros _ Hu; simpl in *;
    try apply not_elem_of_nil;
    apply bool_decide_eq_true in Hu;
    rewrite ?elem_of_cons, elem_of_nil;
    intros Hin; repeat (destruct Hin as [->|Hin]; [vm_compute in Hu; discriminate|]);
    done.
Qed.

Ltac same_header H :=
  match type of H with
  | sameHeader ?a ?b =>
      destruct a, b; destruct H as (Hkind & Hvalue & Hline);
      simpl in Hkind, Hvalue, Hline; subst; reflexivity
  end.

Lemma switchOf_congr sh key c c' :
  sameHeader c' c →
  (∀ v0, validateAt (default ShOpaque (fieldShape sh key)) c' v0
         = validateAt (default ShOpaque (fieldShape sh key)) c v0) →
  ∀ v0, switchOf sh key c' v0 = switchOf sh key c v0.
Proof.
  intros Hh IH v0.
  destruct sh; simpl; try reflexivity;
    unfold specSwitch, containerSwitch;
    try (exact (IH v0));
    repeat (destruct (decide (key = _)) as [->|?]; [first [exact (IH v0) | same_header Hh]|]);
    try reflexivity.
  same_header Hh.
Qed.

Lemma guardOf_header sh node content :
  guardOf sh (withContent node content) = guardOf sh node.
Proof. destruct sh; reflexivity. Qed.

Lemma guardOf_mapping sh node :
  yaml.Kind node = yaml.MappingNode → guardOf sh node = None.
Proof.
  intros Hkind. destruct sh; try reflexivity. simpl.
  by rewrite decide_False by (by intros []).
Qed.

(** A pair with an unknown key, put into a mapping node in place. *)
Lemma validateAt_insertPair sh node i keyNode valueNode v :
  yaml.Kind node = yaml.MappingNode →
  Nat.even i = true → (i ≤ length (yaml.Content node))%nat →
  unknownKey sh (yaml.Value keyNode) = true →
  silentEntry sh valueNode →
  validateAt sh (insertPair i keyNode valueNode node) v = validateAt sh node v.
Proof.
  intros Hkind Heven Hle Hu Hs.
  destruct (objectShape sh) eqn:Hobj.
  - rewrite !validateAt_object by done.
    unfold insertPair. rewrite guardOf_header, (guardOf_mapping _ _ Hkind).
    unfold objectForm. simpl yaml.Content.
    set (pre := take i (yaml.Content node)).
    set (post := drop i (yaml.Content node)).
    assert (Hpre : Nat.even (length pre) = true).
    { unfold pre. rewrite length_take, Nat.min_l by done. done. }
    assert (Hc : yaml.Content node = pre ++ post).
    { unfold pre, post. by rewrite take_drop. }
    rewrite forPairs_insert_noop;
      [|done | intros v0; by apply switchOf_unknown].
    rewrite <- Hc.
    destruct (forPairs _ _ _ _) as [[[] v1]|]; [|reflexivity].
    apply checkRequired_ext; [reflexivity|].
    intros f Hf. rewrite !visited_markAll. f_equal.
    apply bool_decide_ext. rewrite Hc, !pairKeys_app by done. simpl.
    rewrite !elem_of_app, elem_of_cons.
    pose proof (requiredOf_known sh _ Hobj Hu). naive_solver.
  - destruct sh; try discriminate; simpl.
    + unfold validateContainers. simpl. rewrite Hkind. reflexivity.
    + unfold validatePorts. simpl. rewrite Hkind. reflexivity.
    + reflexivity.
Qed.

(** A child replaced by one that validates alike. *)
Lemma validateAt_update sh node j child child' v :
  yaml.Content node !! j = Some child →
  sameHeader child' child →
  (∀ v0, validateAt (childShape sh node j) child' v0
         = validateAt (childShape sh node j) child v0) →
  validateAt sh (withContent node (<[j := child']> (yaml.Content node))) v
  = validateAt sh node v.
Proof.
  intros Hj Hh IH. unfold childShape in IH.
  destruct (objectShape sh) eqn:Hobj.
  - rewrite !validateAt_object by done. rewrite guardOf_header.
    destruct (guardOf sh node); [reflexivity|].
    unfold objectForm. simpl yaml.Content.
    rewrite (forPairs_update (switchOf sh) _ j child child');
      [|done | apply Hh |].
    + rewrite (pairKeys_update _ j child child') by (done || apply Hh).
      destruct (forPairs _ _ _ _) as [[[] v1]|]; [|reflexivity].
      by apply checkRequired_ext.
    + intros Hodd k Hk. rewrite Hodd, Hk in IH.
      by apply switchOf_congr.
  - destruct sh; try discriminate; simpl in *.
    + by eapply forRange_update.
    + unfold validateContainers. simpl.
      destruct (decide _); [reflexivity|]. by eapply forRange_update.
    + unfold validatePorts. simpl.
      destruct (decide _); [reflexivity|]. by eapply forRange_update.
    + reflexivity.
Qed.

Lemma sameHeader_withContent node content : sameHeader (withContent node content) node.
Proof. by repeat split. Qed.

Lemma insert_ignored path i keyNode valueNode :
  ∀ sh0 node node' sh target,
    shapeAt sh0 path node = Some sh →
    nodeAt path node = Some target →
    yaml.Kind target = yaml.MappingNode →
    Nat.even i = true → (i ≤ length (yaml.Content target))%nat →
    unknownKey sh (yaml.Value keyNode) = true →
    silentEntry sh valueNode →
    updateAt path (insertPair i keyNode valueNode) node = Some node' →
    sameHeader node' node ∧ ∀ v0, validateAt sh0 node' v0 = validateAt sh0 node v0.
Proof.
  induction path as [|j path IH];
    intros sh0 node node' sh target Hshape Hnode Hkind Heven Hle Hu Hs Hupd; simpl in *.
  - injection Hshape as <-. injection Hnode as <-. injection Hupd as <-.
    split; [apply sameHeader_withContent|].
    intros v0. by apply validateAt_insertPair.
  - destruct (yaml.Content node !! j) as [child|] eqn:Hj; [|done].
    destruct (updateAt path _ child) as [child'|] eqn:Hchild; [|done].
    injection Hupd as <-.
    destruct (IH _ _ _ _ _ Hshape Hnode Hkind Heven Hle Hu Hs Hchild) as [Hh Hval].
    split; [apply sameHeader_withContent|].
    intros v0. by eapply validateAt_update.
Qed.

(** C8, counterexample: labels has no field names, so [zzz] is not among
    them; yet the entry [zzz: [a]] put into the labels of a document without
    errors adds the error "label value must be string". *)
Lemma C8_counterexample :
  ¬ unknown_keys_ignored_as_stated (NewValidator "pod.yaml" scenarioWide).
Proof.
  intros H.
  specialize (H [0; 5; 3]%nat
                (default scenarioWide (nodeAt [0; 5; 3]%nat scenarioWide))
                ShLabels 0%nat (scalar 6 "zzz") (sequence 6 [scalar 6 "a"])
                (default scenarioWide
                   (updateAt [0; 5; 3]%nat
                      (insertPair 0 (scalar 6 "zzz") (sequence 6 [scalar 6 "a"]))
                      scenarioWide))).
  vm_compute in H.
  specialize (H eq_refl eq_refl eq_refl eq_refl eq_refl).
  assert (Hle : (0 ≤ 2)%nat) by lia.
  specialize (H Hle eq_refl). discriminate H.
Qed.

(** C8, amended: in a document tree, a pair put into any mapping node at an
    even offset, with a key that is not a field name of the shape the schema
    gives that node, leaves the errors [Validate] returns unchanged, when
    the node is neither labels nor resources; in labels it does when the
    value put in is a scalar, and in resources when
    [validateResourceRequirements] reports nothing on the value put in. *)
Theorem C8_unknown_keys_are_ignored
    (v : Validator.t) (path : list nat) (target : yaml.Node) (sh : Shape)
    (i : nat) (keyNode valueNode root' : yaml.Node) :
  nodeAt path (Validator.RootNode v) = Some target →
  yaml.Kind target = yaml.MappingNode →
  shapeAt ShDocument path (Validator.RootNode v) = Some sh →
  unknownKey sh (yaml.Value keyNode) = true →
  silentEntry sh valueNode →
  Nat.even i = true → (i ≤ length (yaml.Content target))%nat →
  updateAt path (insertPair i keyNode valueNode) (Validator.RootNode v) = Some root' →
  fst <$> Validate (Validator.mk (Validator.FilePath v) root' (Validator.ErrorCollector v))
  = fst <$> Validate v.
Proof.
  intros Hnode Hkind Hshape Hu Hs Heven Hle Hupd.
  destruct (insert_ignored _ _ _ _ _ _ _ _ _ Hshape Hnode Hkind Heven Hle Hu Hs Hupd)
    as [_ Hval].
  simpl in Hval. rewrite !Validate_run. simpl.
  unfold run. rewrite Hval.
  destruct (forRange _ _ _) as [[[] v1]|]; reflexivity.
Qed.

Lemma C8_unknown_keys_are_ignored_witness :
  fst <$> Validate (NewValidator "pod.yaml" scenarioA_extra)
  = fst <$> Validate (NewValidator "pod.yaml" scenarioA).
Proof.
  apply (C8_unknown_keys_are_ignored (NewValidator "pod.yaml" scenarioA)
           [0; 7; 1; 0]%nat
           (default scenarioA (nodeAt [0; 7; 1; 0]%nat scenarioA))
           ShContainer 4 (scalar 8 "extra") (scalar 8 "x") scenarioA_extra).
  - reflexivity.
  - reflexivity.
  - vm_compute. reflexivity.
  - vm_compute. reflexivity.
  - exact I.
  - reflexivity.
  - vm_compute. lia.
  - reflexivity.
Defined.

(** resources (like labels) is a map: the value under every key of it is
    validated, so a further entry can add an error. *)
Example resources_entries_are_validated :
  shapeAt ShDocument [0; 7; 1; 0; 5]%nat scenarioA = Some ShResources
  ∧ fst <$> Validate (NewValidator "pod.yaml" scenarioA_extra_resources)
    = Some [ {| FilePath := "pod.yaml"; Line := 13;
                Message := "cpu value out of range" |} ].
Proof. split; vm_compute; reflexivity. Qed.

(** ** When [Validate] returns *)

Lemma Node_nested_ind (P : yaml.Node → Prop) :
  (∀ kind value content line,
     Forall P content → P (yaml.mkNode kind value content line)) →
  ∀ node, P node.
Proof.
  intros Hstep. fix IH 1. intros [kind value content line].
  apply Hstep. induction content as [|c content IHc]; constructor; auto.
Qed.

Lemma returns_ret : returns (mret tt).
Proof. intros v. by exists v. Qed.

Lemma returns_report line msg : returns (report line msg).
Proof. intros v. eexists. reflexivity. Qed.

Lemma returns_bind (m : Exec unit) (k : unit → Exec unit) :
  returns m → returns (k tt) → returns (m ≫= k).
Proof.
  intros Hm Hk v. unfold mbind, Exec_bind.
  destruct (Hm v) as [v1 ->]. apply Hk.
Qed.

Lemma returns_checkRequired node requiredFields vis :
  returns (checkRequired node requiredFields vis).
Proof.
  unfold checkRequired. induction requiredFields as [|f fs IH]; simpl.
  - apply returns_ret.
  - apply returns_bind; [|done].
    destruct (negb _); [apply returns_report | apply returns_ret].
Qed.

Lemma returns_forRange (f : yaml.Node → Exec unit) content :
  Forall (λ c, returns (f c)) content → returns (forRange content f).
Proof.
  induction 1 as [|c content Hc _ IH]; simpl.
  - apply returns_ret.
  - by apply returns_bind.
Qed.

Ltac returns_leaf :=
  repeat match goal with
         | |- returns (mret tt) => apply returns_ret
         | |- returns (report _ _) => apply returns_report
         | |- returns (if ?c then _ else _) => destruct c
         | |- returns (match ?c with _ => _ end) => destruct c
         end.

Lemma switchOf_returns sh key val :
  returns (validateAt (default ShOpaque (fieldShape sh key)) val) →
  returns (switchOf sh key val).
Proof.
  intros IH.
  destruct sh; simpl in *; unfold specSwitch, containerSwitch;
    try (exact IH); try apply returns_ret;
    repeat (destruct (decide (key = _)) as [->|?];
            [first [ exact IH
                   | unfold validateAPIVersion, validateKind, validateName,
                       validateImage, validateOS, validatePortNumber,
                       validateProtocol, validateHTTPPath, validateCPU,
                       validateMemory; returns_leaf ]|]);
    returns_leaf.
Qed.

Lemma pairedAt_unfold sh node :
  pairedAt sh node
  = if readsChildren sh node then
      if objectShape sh then
        (fix pairs (content : list yaml.Node) : bool :=
           match content with
           | [] => true
           | [_] => false
           | keyNode :: valueNode :: rest =>
               pairedAt (default ShOpaque (fieldShape sh (yaml.Value keyNode))) valueNode
               && pairs rest
           end) (yaml.Content node)
      else List.forallb (pairedAt (elemShape sh)) (yaml.Content node)
    else true.
Proof. destruct node. reflexivity. Qed.

Lemma objectForm_returns sh node :
  Forall (λ c, ∀ sh', pairedAt sh' c = true → returns (validateAt sh' c))
    (yaml.Content node) →
  (fix pairs (content : list yaml.Node) : bool :=
     match content with
     | [] => true
     | [_] => false
     | keyNode :: valueNode :: rest =>
         pairedAt (default ShOpaque (fieldShape sh (yaml.Value keyNode))) valueNode
         && pairs rest
     end) (yaml.Content node) = true →
  returns (objectForm sh node).
Proof.
  intros Hall Hpairs v. unfold objectForm.
  enough (∃ v', forPairs (yaml.Content node)
                  (λ keyNode valueNode (_ : unit),
                     switchOf sh (yaml.Value keyNode) valueNode) tt v
                = Some (tt, v')) as [v' ->].
  { apply returns_checkRequired. }
  revert v. generalize dependent (yaml.Content node). clear node.
  intros content. induction content as [|x|k val rest IH] using pairs_ind;
    intros Hall Hpairs v.
  - by exists v.
  - discriminate.
  - apply andb_true_iff in Hpairs as [Hval Hrest].
    inversion Hall as [|? ? _ Hall']; subst.
    inversion Hall' as [|? ? Hv Hall'']; subst.
    simpl. unfold mbind, Exec_bind.
    destruct (switchOf_returns sh (yaml.Value k) val (Hv _ Hval) v) as [v1 ->].
    by apply IH.
Qed.

Lemma validateAt_returns node :
  ∀ sh, pairedAt sh node = true → returns (validateAt sh node).
Proof.
  induction node as [kind value content line IH] using Node_nested_ind.
  intros sh. rewrite pairedAt_unfold.
  set (node := yaml.mkNode kind value content line).
  destruct (objectShape sh) eqn:Hobj.
  - intros Hp v. rewrite validateAt_object by done.
    destruct sh; try discriminate; simpl guardOf;
      try (simpl readsChildren in Hp; by apply objectForm_returns).
    simpl readsChildren in Hp. simpl.
    destruct (decide (kind ≠ yaml.MappingNode)) as [Hk|Hk].
    + apply returns_report.
    + rewrite bool_decide_true in Hp by (by apply dec_stable).
      by apply objectForm_returns.
  - destruct sh; try discriminate; simpl.
    + intros Hp. apply returns_forRange.
      apply Forall_forall. intros c Hc.
      rewrite Forall_forall in IH. apply (IH c Hc ShPod).
      rewrite forallb_forall in Hp. apply Hp. by apply list_elem_of_In.
    + intros Hp. unfold validateContainers.
      destruct (decide _) as [Hk|Hk]; [apply returns_report|].
      rewrite bool_decide_true in Hp by (by apply dec_stable).
      apply returns_forRange, Forall_forall. intros c Hc.
      rewrite Forall_forall in IH. apply (IH c Hc ShContainer).
      rewrite forallb_forall in Hp. apply Hp. by apply list_elem_of_In.
    + intros Hp. unfold validatePorts.
      destruct (decide _) as [Hk|Hk]; [apply returns_report|].
      rewrite bool_decide_true in Hp by (by apply dec_stable).
      apply returns_forRange, Forall_forall. intros c Hc.
      rewrite Forall_forall in IH. apply (IH c Hc ShPort).
      rewrite forallb_forall in Hp. apply Hp. by apply list_elem_of_In.
    + intros _. apply returns_ret.
Qed.

(** [Validate] returns an error list whenever every node it reads in pairs,
    mapping or not, has an even number of children. *)
Theorem Validate_returns (v : Validator.t) :
  pairedAt ShDocument (Validator.RootNode v) = true →
  ∃ errors v', Validate v = Some (errors, v').
Proof.
  intros Hp. destruct (validateAt_returns _ _ Hp v) as [v' Hv'].
  simpl in Hv'. unfold Validate, mbind, Exec_bind, getRootNode, getErrors.
  rewrite Hv'. eauto.
Qed.

Example scenarioA_paired : pairedAt ShDocument scenarioA = true.
Proof. vm_compute. reflexivity. Qed.

Example sequenceDocument_not_paired : pairedAt ShDocument sequenceDocument = false.
Proof. vm_compute. reflexivity. Qed.

(** ** When [Validate] panics *)

Lemma switchOf_panics sh key val :
  (∀ v, validateAt (default ShOpaque (fieldShape sh key)) val v = None) →
  ∀ v, switchOf sh key val v = None.
Proof.
  intros IH v.
  destruct sh; simpl in *; unfold specSwitch, containerSwitch;
    try (exact (IH v)); try (by specialize (IH v));
    repeat (destruct (decide (key = _)) as [->|?];
            [first [exact (IH v) | by specialize (IH v)]|]);
    by specialize (IH v).
Qed.

Lemma objectForm_panics sh node :
  Forall (λ c, ∀ sh', pairedAt sh' c = false → ∀ v, validateAt sh' c v = None)
    (yaml.Content node) →
  (fix pairs (content : list yaml.Node) : bool :=
     match content with
     | [] => true
     | [_] => false
     | keyNode :: valueNode :: rest =>
         pairedAt (default ShOpaque (fieldShape sh (yaml.Value keyNode))) valueNode
         && pairs rest
     end) (yaml.Content node) = false →
  ∀ v, objectForm sh node v = None.
Proof.
  intros Hall Hpairs v. unfold objectForm.
  enough (forPairs (yaml.Content node)
            (λ keyNode valueNode (_ : unit),
               switchOf sh (yaml.Value keyNode) valueNode) tt v = None) as ->
      by reflexivity.
  revert v. generalize dependent (yaml.Content node). clear node.
  intros content. induction content as [|x|k val rest IH] using pairs_ind;
    intros Hall Hpairs v.
  - discriminate.
  - reflexivity.
  - inversion Hall as [|? ? _ Hall']; subst.
    inversion Hall' as [|? ? Hv Hall'']; subst.
    simpl. unfold mbind, Exec_bind.
    destruct (pairedAt (default ShOpaque (fieldShape sh (yaml.Value k))) val) eqn:Hval.
    + destruct (switchOf_returns sh (yaml.Value k) val
                  (validateAt_returns _ _ Hval) v) as [v1 ->].
      simpl in Hpairs. by apply IH.
    + by rewrite (switchOf_panics sh (yaml.Value k) val (Hv _ Hval) v).
Qed.

Lemma forRange_panics (f : yaml.Node → Exec unit) (paired : yaml.Node → bool) content :
  Forall (λ c, paired c = false → ∀ v, f c v = None) content →
  Forall (λ c, paired c = true → returns (f c)) content →
  List.forallb paired content = false →
  ∀ v, forRange content f v = None.
Proof.
  induction content as [|c content IH]; intros Hp Hr Hall v; [discriminate|].
  inversion Hp as [|? ? Hc Hp']; subst. inversion Hr as [|? ? Hc' Hr']; subst.
  simpl in *. unfold mbind, Exec_bind.
  destruct (paired c) eqn:Hpc.
  - destruct (Hc' eq_refl v) as [v1 ->]. by apply IH.
  - by rewrite Hc.
Qed.

Lemma validateAt_panics node :
  ∀ sh, pairedAt sh node = false → ∀ v, validateAt sh node v = None.
Proof.
  induction node as [kind value content line IH] using Node_nested_ind.
  intros sh. rewrite pairedAt_unfold.
  set (node := yaml.mkNode kind value content line).
  destruct (readsChildren sh node) eqn:Hreads; [|discriminate].
  assert (Hseq : ∀ sh', List.forallb (pairedAt sh') content = false →
                 ∀ v, forRange content (validateAt sh') v = None).
  { intros sh' Hall. apply (forRange_panics _ (pairedAt sh')); [| |done].
    - eapply Forall_impl; [exact IH|]. intros c Hc. apply Hc.
    - apply Forall_forall. intros c _. apply validateAt_returns. }
  destruct (objectShape sh) eqn:Hobj.
  - intros Hp v. rewrite validateAt_object by done.
    assert (guardOf sh node = None) as ->.
    { destruct sh; try reflexivity. simpl in *.
      apply bool_decide_eq_true in Hreads.
      destruct (decide (kind ≠ yaml.MappingNode)); [done|reflexivity]. }
    by apply objectForm_panics.
  - destruct sh; try discriminate; simpl in *.
    + intros Hp v. by apply (Hseq ShPod).
    + intros Hp v. unfold validateContainers. simpl.
      apply bool_decide_eq_true in Hreads.
      destruct (decide (kind ≠ yaml.SequenceNode)); [done|].
      by apply (Hseq ShContainer).
    + intros Hp v. unfold validatePorts. simpl.
      apply bool_decide_eq_true in Hreads.
      destruct (decide (kind ≠ yaml.SequenceNode)); [done|].
      by apply (Hseq ShPort).
Qed.

(** X1: [Validate] panics exactly when some node that it reads in pairs,
    mapping or not, has an odd number of children; otherwise it returns an
    error list. *)
Theorem Validate_panics_iff (v : Validator.t) :
  (Validate v = None ↔ pairedAt ShDocument (Validator.RootNode v) = false)
  ∧ ((∃ errors v', Validate v = Some (errors, v'))
     ↔ pairedAt ShDocument (Validator.RootNode v) = true).
Proof.
  assert (Hnone : pairedAt ShDocument (Validator.RootNode v) = false →
                  Validate v = None).
  { intros Hp. unfold Validate, mbind, Exec_bind, getRootNode.
    pose proof (validateAt_panics _ _ Hp v) as Hv. simpl in Hv. by rewrite Hv. }
  destruct (pairedAt ShDocument (Validator.RootNode v)) eqn:Hp.
  - destruct (Validate_returns v Hp) as (errors & v' & Hv).
    rewrite Hv. split; split; try done; eauto.
  - rewrite (Hnone eq_refl). split; split; try done. by intros (? & ? & ?).
Qed.

(** ** File, line and message of every error *)

Lemma soundAt_ret {A} P (a : A) : soundAt P (mret a).
Proof.
  split; [apply uniform_ret|]. intros path a' es. rewrite run_ret.
  intros [= _ <-]. constructor.
Qed.

Lemma soundAt_panic {A} P : soundAt P (@panic A).
Proof. split; [apply uniform_panic|]. intros path a es. by rewrite run_panic. Qed.

Lemma soundAt_report (P : string → ValidationError → Prop) line msg :
  (∀ path, P path {| FilePath := path; Line := line; Message := msg |}) →
  soundAt P (report line msg).
Proof.
  intros HP. split; [apply uniform_report|]. intros path a es. rewrite run_report.
  intros [= _ <-]. constructor; [apply HP | constructor].
Qed.

Lemma soundAt_bind {A B} P (m : Exec A) (k : A → Exec B) :
  soundAt P m → (∀ a, soundAt P (k a)) → soundAt P (m ≫= k).
Proof.
  intros [Hum Hem] Hk. split.
  - apply uniform_bind; [done | intros a; apply Hk].
  - intros path b es. rewrite run_bind; [|done | intros a; apply Hk].
    destruct (run m path) as [[a es1]|] eqn:Hm; simpl; [|done].
    destruct (run (k a) path) as [[b' es2]|] eqn:Hka; [|done].
    intros [= _ <-]. apply Forall_app. split.
    + by eapply Hem.
    + by eapply (proj2 (Hk a)).
Qed.

Lemma soundAt_mono {A} (P Q : string → ValidationError → Prop) (m : Exec A) :
  (∀ path e, P path e → Q path e) → soundAt P m → soundAt Q m.
Proof.
  intros HPQ [Hu He]. split; [done|].
  intros path a es Hrun. eapply Forall_impl; [by eapply He | by apply HPQ].
Qed.

Lemma soundAt_forPairs_in {S} P content
    (body : yaml.Node → yaml.Node → S → Exec S) s :
  (∀ k v s', v ∈ content → soundAt P (body k v s')) →
  soundAt P (forPairs content body s).
Proof.
  revert s. induction content as [|x|k v rest IH] using pairs_ind;
    intros s Hbody; simpl.
  - apply soundAt_ret.
  - apply soundAt_panic.
  - apply soundAt_bind.
    + apply Hbody. set_solver.
    + intros s'. apply IH. intros k' v' s'' Hin. apply Hbody. set_solver.
Qed.

Lemma soundAt_forRange_in P (xs : list yaml.Node) (body : yaml.Node → Exec unit) :
  (∀ x, x ∈ xs → soundAt P (body x)) → soundAt P (forRange xs body).
Proof.
  induction xs as [|x xs IH]; intros Hbody; simpl.
  - apply soundAt_ret.
  - apply soundAt_bind; [apply Hbody; set_solver|].
    intros _. apply IH. intros y Hy. apply Hbody. set_solver.
Qed.

Lemma soundAt_visitFields_in P node switch :
  (∀ key valueNode, valueNode ∈ yaml.Content node → soundAt P (switch key valueNode)) →
  soundAt P (visitFields node switch).
Proof.
  intros Hs. apply soundAt_forPairs_in. intros k v s Hin.
  apply soundAt_bind; [by apply Hs|]. intros _. apply soundAt_ret.
Qed.

Lemma soundAt_checkRequired (P : string → ValidationError → Prop) node requiredFields vis :
  Forall (λ f, ∀ path, P path (requiredError path node f)) requiredFields →
  soundAt P (checkRequired node requiredFields vis).
Proof.
  intros Hreq. split; [apply uniform_checkRequired|].
  intros path a es. rewrite run_checkRequired. intros [= _ <-].
  apply Forall_fmap, Forall_forall. intros f [_ Hf]%list_elem_of_filter.
  rewrite Forall_forall in Hreq. by apply Hreq.
Qed.

Lemma subnodes_unfold node :
  subnodes node = node :: (yaml.Content node ≫= subnodes).
Proof. destruct node. reflexivity. Qed.

Lemma subnodes_self node : node ∈ subnodes node.
Proof. rewrite subnodes_unfold. apply list_elem_of_here. Qed.

Lemma subnodes_child node child n :
  child ∈ yaml.Content node → n ∈ subnodes child → n ∈ subnodes node.
Proof.
  intros Hc Hn. rewrite subnodes_unfold. apply list_elem_of_further.
  apply list_elem_of_bind. eauto.
Qed.

Lemma line_self node : yaml.Line node ∈ (yaml.Line <$> subnodes node).
Proof. apply list_elem_of_fmap_2, subnodes_self. Qed.

Lemma line_child node child :
  child ∈ yaml.Content node → yaml.Line child ∈ (yaml.Line <$> subnodes node).
Proof.
  intros Hc. apply list_elem_of_fmap_2. eapply subnodes_child; [done|].
  apply subnodes_self.
Qed.

Lemma attributed_child node child path e :
  child ∈ yaml.Content node → attributed child path e → attributed node path e.
Proof.
  intros Hc (Hp & Hl & Ht). repeat split; [done| |done].
  apply list_elem_of_fmap in Hl as (n & -> & Hn).
  apply list_elem_of_fmap_2. by eapply subnodes_child.
Qed.

Ltac attr_solve :=
  intros; unfold attributed, requiredError; simpl;
  split; [reflexivity|];
  split; [first [ apply line_self | apply line_child; assumption ]
         | apply (bool_decide_unpack _); vm_compute; exact I ].

Create HintDb attributed.

Ltac at_step :=
  match goal with
  | |- soundAt _ (mbind _ _) => apply soundAt_bind; [|intros]
  | |- soundAt _ (mret _) => apply soundAt_ret
  | |- soundAt _ (report _ _) => apply soundAt_report; attr_solve
  | |- soundAt _ (visitFields _ _) => apply soundAt_visitFields_in; intros
  | |- soundAt _ (checkRequired _ _ _) =>
      apply soundAt_checkRequired; repeat (constructor; [attr_solve|]); constructor
  | |- soundAt _ (forPairs _ _ _) => apply soundAt_forPairs_in; intros
  | |- soundAt _ (forRange _ _) => apply soundAt_forRange_in; intros
  | |- soundAt _ (if ?c then _ else _) => destruct c
  | |- soundAt _ (match ?c with _ => _ end) => destruct c
  | H : ?c ∈ yaml.Content ?n |- soundAt (attributed ?n) _ =>
      solve [ eapply soundAt_mono;
              [intros ? ?; apply (attributed_child n c); exact H
              | auto with attributed ] ]
  | |- soundAt _ _ => solve [auto with attributed]
  end.
Ltac solve_at := repeat at_step.

Lemma at_validateAPIVersion node : soundAt (attributed node) (validateAPIVersion node).
Proof. unfold validateAPIVersion. solve_at. Qed.
Lemma at_validateKind node : soundAt (attributed node) (validateKind node).
Proof. unfold validateKind. solve_at. Qed.
Lemma at_validateName node b : soundAt (attributed node) (validateName node b).
Proof. unfold validateName. solve_at. Qed.
Lemma at_validateLabels node : soundAt (attributed node) (validateLabels node).
Proof. unfold validateLabels. solve_at. Qed.
#[local] Hint Resolve at_validateAPIVersion at_validateKind at_validateName
  at_validateLabels : attributed.
Lemma at_validateMetadata node : soundAt (attributed node) (validateMetadata node).
Proof. unfold validateMetadata. solve_at. Qed.
Lemma at_validateOS node : soundAt (attributed node) (validateOS node).
Proof. unfold validateOS. solve_at. Qed.
Lemma at_validateImage node : soundAt (attributed node) (validateImage node).
Proof. unfold validateImage. solve_at. Qed.
Lemma at_validateContainerPort node :
  soundAt (attributed node) (validatePortNumber node "containerPort").
Proof. unfold validatePortNumber. solve_at. Qed.
Lemma at_validateProbePort node :
  soundAt (attributed node) (validatePortNumber node "port").
Proof. unfold validatePortNumber. solve_at. Qed.
Lemma at_validateProtocol node : soundAt (attributed node) (validateProtocol node).
Proof. unfold validateProtocol. solve_at. Qed.
#[local] Hint Resolve at_validateMetadata at_validateOS at_validateImage
  at_validateContainerPort at_validateProbePort at_validateProtocol : attributed.
Lemma at_validatePort node : soundAt (attributed node) (validatePort node).
Proof. unfold validatePort. solve_at. Qed.
#[local] Hint Resolve at_validatePort : attributed.
Lemma at_validatePorts node : soundAt (attributed node) (validatePorts node).
Proof. unfold validatePorts. solve_at. Qed.
Lemma at_validateHTTPPath node : soundAt (attributed node) (validateHTTPPath node).
Proof. unfold validateHTTPPath. solve_at. Qed.
#[local] Hint Resolve at_validatePorts at_validateHTTPPath : attributed.
Lemma at_validateHTTPGet node : soundAt (attributed node) (validateHTTPGet node).
Proof. unfold validateHTTPGet. solve_at. Qed.
#[local] Hint Resolve at_validateHTTPGet : attributed.
Lemma at_validateProbe node : soundAt (attributed node) (validateProbe node).
Proof. unfold validateProbe. solve_at. Qed.
Lemma at_validateCPU node : soundAt (attributed node) (validateCPU node).
Proof. unfold validateCPU. solve_at. Qed.
Lemma at_validateMemory node : soundAt (attributed node) (validateMemory node).
Proof. unfold validateMemory. solve_at. Qed.
#[local] Hint Resolve at_validateProbe at_validateCPU at_validateMemory : attributed.
Lemma at_validateResourceRequirements node :
  soundAt (attributed node) (validateResourceRequirements node).
Proof. unfold validateResourceRequirements. solve_at. Qed.
#[local] Hint Resolve at_validateResourceRequirements : attributed.
Lemma at_validateResources node : soundAt (attributed node) (validateResources node).
Proof. unfold validateResources. solve_at. Qed.
#[local] Hint Resolve at_validateResources : attributed.
Lemma at_validateContainer node : soundAt (attributed node) (validateContainer node).
Proof. unfold validateContainer. solve_at. Qed.
#[local] Hint Resolve at_validateContainer : attributed.
Lemma at_validateContainers node : soundAt (attributed node) (validateContainers node).
Proof. unfold validateContainers. solve_at. Qed.
#[local] Hint Resolve at_validateContainers : attributed.
Lemma at_validateSpec node : soundAt (attributed node) (validateSpec node).
Proof. unfold validateSpec. solve_at. Qed.
#[local] Hint Resolve at_validateSpec : attributed.
Lemma at_validatePod node : soundAt (attributed node) (validatePod node).
Proof. unfold validatePod. solve_at. Qed.
#[local] Hint Resolve at_validatePod : attributed.

Lemma at_documents root :
  soundAt (attributed root) (forRange (yaml.Content root) (λ doc, validatePod doc)).
Proof. solve_at. Qed.

Lemma at_documents_below root :
  soundAt (λ path e, ∃ doc, doc ∈ yaml.Content root ∧ attributed doc path e)
    (forRange (yaml.Content root) (λ doc, validatePod doc)).
Proof.
  apply soundAt_forRange_in. intros doc Hdoc.
  eapply soundAt_mono; [|apply at_validatePod]. intros path e He. eauto.
Qed.

Lemma Validate_appended v errors v' :
  Validate v = Some (errors, v') →
  ∃ es, v' = appendErrors v es
        ∧ errors = Errors (Validator.ErrorCollector v) ++ es
        ∧ Forall (λ e, ∃ doc, doc ∈ yaml.Content (Validator.RootNode v)
                              ∧ attributed doc (Validator.FilePath v) e) es.
Proof.
  rewrite Validate_run.
  destruct (run _ _) as [[[] es]|] eqn:Hrun; [|done].
  intros [= <- <-]. exists es. repeat split.
  by eapply (proj2 (at_documents_below (Validator.RootNode v))).
Qed.

(** X2: a run of [Validate] that returns leaves the file path and the
    document of the validator as they were, only appends to its collector,
    returns the collector's content, and every error it appends names the
    validator's file. *)
Theorem Validate_only_appends (v v' : Validator.t) (errors : list ValidationError) :
  Validate v = Some (errors, v') →
  Validator.FilePath v' = Validator.FilePath v
  ∧ Validator.RootNode v' = Validator.RootNode v
  ∧ errors = Errors (Validator.ErrorCollector v')
  ∧ ∃ es, errors = Errors (Validator.ErrorCollector v) ++ es
          ∧ Forall (λ e, FilePath e = Validator.FilePath v) es.
Proof.
  intros (es & -> & -> & Hes)%Validate_appended. repeat split.
  exists es. split; [done|].
  eapply Forall_impl; [exact Hes|]. by intros e (doc & _ & ? & _).
Qed.

Lemma Validate_only_appends_witness :
  Validator.FilePath (Validator.mk "pod.yaml" scenarioB {| Errors := scenarioB_errors |})
  = "pod.yaml"
  ∧ Validator.RootNode (Validator.mk "pod.yaml" scenarioB {| Errors := scenarioB_errors |})
    = scenarioB
  ∧ scenarioB_errors = scenarioB_errors
  ∧ ∃ es, scenarioB_errors = [] ++ es ∧ Forall (λ e, FilePath e = "pod.yaml") es.
Proof.
  apply (Validate_only_appends (NewValidator "pod.yaml" scenarioB)
           (Validator.mk "pod.yaml" scenarioB {| Errors := scenarioB_errors |})
           scenarioB_errors).
  vm_compute. reflexivity.
Defined.

(** X3: the line of every error [Validate] returns for a document is the
    line of a node of the tree: of one of the document's top-level nodes or
    of a node below it. *)
Theorem errors_are_on_lines_of_nodes
    (path : string) (root : yaml.Node) (errors : list ValidationError) :
  fst <$> Validate (NewValidator path root) = Some errors →
  Forall (λ e, ∃ doc n, doc ∈ yaml.Content root ∧ n ∈ subnodes doc
                        ∧ Line e = yaml.Line n) errors.
Proof.
  destruct (Validate _) as [[errors' v']|] eqn:Hv; [|done].
  intros [= <-]. apply Validate_appended in Hv as (es & _ & -> & Hes). simpl.
  eapply Forall_impl; [exact Hes|].
  intros e (doc & Hdoc & _ & Hl & _).
  apply list_elem_of_fmap in Hl as (n & -> & Hn). eauto.
Qed.

Lemma errors_are_on_lines_of_nodes_witness :
  Forall (λ e, ∃ doc n, doc ∈ yaml.Content scenarioB ∧ n ∈ subnodes doc
                        ∧ Line e = yaml.Line n) scenarioB_errors.
Proof.
  apply (errors_are_on_lines_of_nodes "pod.yaml" scenarioB scenarioB_errors).
  vm_compute. reflexivity.
Defined.

(** X4: every message [Validate] returns is one of the package's catalogue:
    its first word is one of the field names of [allTags], and it is a
    "<field> is required" message only for the fields that [allTags] marks. *)
Theorem messages_are_of_the_catalogue
    (path : string) (root : yaml.Node) (errors : list ValidationError) :
  fst <$> Validate (NewValidator path root) = Some errors →
  Forall (λ e, msgTag (Message e) ∈ allTags) errors.
Proof.
  destruct (Validate _) as [[errors' v']|] eqn:Hv; [|done].
  intros [= <-]. apply Validate_appended in Hv as (es & _ & -> & Hes). simpl.
  eapply Forall_impl; [exact Hes|]. by intros e (doc & _ & _ & _ & ?).
Qed.

Lemma messages_are_of_the_catalogue_witness :
  Forall (λ e, msgTag (Message e) ∈ allTags) scenarioB_errors.
Proof.
  apply (messages_are_of_the_catalogue "pod.yaml" scenarioB scenarioB_errors).
  vm_compute. reflexivity.
Defined.

(** ** The languages of the patterns *)

Lemma Matches_Eps s : regexp.Matches regexp.Eps s ↔ s = "".
Proof. split; [by inversion 1 | intros ->; constructor]. Qed.

Lemma Matches_Cat r1 r2 s :
  regexp.Matches (regexp.Cat r1 r2) s
  ↔ ∃ s1 s2, s = s1 +:+ s2 ∧ regexp.Matches r1 s1 ∧ regexp.Matches r2 s2.
Proof.
  split.
  - inversion 1; subst. eauto.
  - intros (s1 & s2 & -> & H1 & H2). by constructor.
Qed.

Lemma Matches_Chr c s : regexp.Matches (regexp.Chr c) s ↔ s = String c "".
Proof.
  unfold regexp.Chr. rewrite regexp_facts.Matches_Class. split.
  - intros (c' & -> & Hc). by apply Ascii.eqb_eq in Hc as ->.
  - intros ->. exists c. split; [done|]. apply Ascii.eqb_refl.
Qed.

Lemma Matches_Star_Any s : regexp.Matches (regexp.Star regexp.Any) s.
Proof.
  apply regexp_facts.Matches_Star_Class. induction s; simpl; auto.
Qed.

Lemma MatchString_anchored rx s :
  regexp.anchoredStart rx = true → regexp.anchoredEnd rx = true →
  regexp.MatchString rx s = true ↔ regexp.Matches (regexp.body rx) s.
Proof.
  intros Hs He. unfold regexp.MatchString. rewrite Hs, He.
  rewrite regexp_facts.matchb_spec, Matches_Cat. split.
  - intros (s1 & s2 & -> & H1%Matches_Eps & H2). subst s1.
    apply Matches_Cat in H2 as (s3 & s4 & -> & H3 & H4%Matches_Eps). subst s4.
    by rewrite regexp_facts.app_nil_r.
  - intros H. exists "", s. split; [done|]. split; [constructor|].
    apply Matches_Cat. exists s, "". rewrite regexp_facts.app_nil_r.
    split; [done|]. split; [done|constructor].
Qed.

Lemma Matches_words s :
  regexp.Matches
    (regexp.Star (regexp.Cat (regexp.Chr "_") (regexp.Plus regexp.Lower))) s
  ↔ ∃ ws, s = joinWords ws ∧ Forall lowerWord ws.
Proof.
  split.
  - intros H.
    remember (regexp.Star (regexp.Cat (regexp.Chr "_") (regexp.Plus regexp.Lower)))
      as r eqn:Hr.
    induction H as [| | | | |r0|r0 s1 s2 H1 _ H2 IH2]; try discriminate.
    + exists []. split; [done|constructor].
    + injection Hr as ->. destruct (IH2 eq_refl) as (ws & -> & Hws).
      apply Matches_Cat in H1 as (u & w & -> & ->%Matches_Chr & Hw).
      apply regexp_facts.Matches_Plus_Class in Hw.
      exists (w :: ws). split; [|by constructor].
      simpl. by rewrite !regexp_facts.app_assoc.
  - intros (ws & -> & Hws). induction Hws as [|w ws Hw _ IH]; simpl.
    + constructor.
    + rewrite <- regexp_facts.app_assoc. constructor; [|done].
      apply Matches_Cat. exists "_", w. split; [done|].
      split; [by apply Matches_Chr | by apply regexp_facts.Matches_Plus_Class].
Qed.

Lemma RegexSnakeCase_spec s :
  regexp.MatchString RegexSnakeCase s = true ↔ snakeCase s.
Proof.
  rewrite MatchString_anchored by reflexivity. simpl. rewrite Matches_Cat.
  unfold snakeCase. split.
  - intros (w & rest & -> & Hw%regexp_facts.Matches_Plus_Class
            & (ws & -> & Hws)%Matches_words). eauto.
  - intros (w & ws & -> & Hw & Hws). exists w, (joinWords ws).
    split; [done|]. split; [by apply regexp_facts.Matches_Plus_Class|].
    apply Matches_words. eauto.
Qed.

Lemma RegexImage_spec s :
  regexp.MatchString RegexImage s = true ↔ imageForm s.
Proof.
  rewrite MatchString_anchored by reflexivity.
  cbv [RegexImage regexp.body]. rewrite Matches_Cat. unfold imageForm. split.
  - intros (pre & rest & -> & ->%regexp_facts.Matches_Lit & Hrest).
    apply Matches_Cat in Hrest as (repo & rest' & -> & Hrepo & Hrest').
    apply Matches_Cat in Hrest' as (colon & tag & -> & ->%Matches_Chr & Htag).
    apply regexp_facts.Matches_Plus_Class in Hrepo as [? ?].
    apply regexp_facts.Matches_Plus_Class in Htag as [? ?].
    exists repo, tag. done.
  - intros (repo & tag & -> & Hr & Ht & Hrn & Htn).
    exists "registry.bigbrother.io/", (repo +:+ ":" +:+ tag).
    split; [done|]. split; [by apply regexp_facts.Matches_Lit|].
    apply Matches_Cat. exists repo, (":" +:+ tag). split; [done|].
    split; [by apply regexp_facts.Matches_Plus_Class|].
    apply Matches_Cat. exists ":", tag. split; [done|].
    split; [by apply Matches_Chr | by apply regexp_facts.Matches_Plus_Class].
Qed.

Lemma RegexAbsolutePath_spec s :
  regexp.MatchString RegexAbsolutePath s = true ↔ absolutePath s.
Proof.
  unfold regexp.MatchString. cbv [RegexAbsolutePath regexp.anchoredStart
    regexp.anchoredEnd regexp.body].
  rewrite regexp_facts.matchb_spec, Matches_Cat. unfold absolutePath. split.
  - intros (s1 & s2 & -> & ->%Matches_Eps & H2).
    apply Matches_Cat in H2 as (s3 & s4 & -> & H3 & _).
    apply Matches_Cat in H3 as (s5 & s6 & -> & ->%Matches_Chr & _).
    exists (s6 +:+ s4). by rewrite !regexp_facts.app_assoc.
  - intros (rest & ->). exists "", ("/" +:+ rest). split; [done|].
    split; [constructor|]. apply Matches_Cat. exists "/", rest.
    split; [done|]. split; [|apply Matches_Star_Any].
    apply Matches_Cat. exists "/", "". split; [done|].
    split; [by apply Matches_Chr | constructor].
Qed.

(** ** The texts [Atoi] parses *)

Lemma parseDigits_Some d acc m :
  strconv.parseDigits d acc = Some m →
  regexp.allOf regexp.isDigit d = true ∧ m = decimalValueFrom acc d.
Proof.
  revert acc. induction d as [|c d IH]; intros acc; simpl.
  - by intros [= <-].
  - destruct (regexp.isDigit c); [|done]. intros H. by apply IH in H as [-> ->].
Qed.

Lemma minInt_maxInt : strconv.minInt = - strconv.maxInt - 1 ∧ 0 < strconv.maxInt.
Proof. by vm_compute. Qed.

Lemma Atoi_spec s n :
  strconv.Atoi s = Some n
  ↔ decimalText s n ∧ strconv.minInt ≤ n ≤ strconv.maxInt.
Proof.
  split.
  - unfold strconv.Atoi. destruct s as [|c s']; [done|].
    destruct (Ascii.eqb_spec c "-") as [->|Hminus]; simpl.
    + destruct s' as [|c0 s0] eqn:Hs; [done|]. rewrite <- Hs.
      assert (Hne : s' ≠ "") by (by rewrite Hs). clear c0 s0 Hs.
      destruct (strconv.parseDigits s' 0) as [m|] eqn:Hm; [|done].
      apply parseDigits_Some in Hm as [Hd ->]. fold (decimalValue s').
      destruct (_ && _) eqn:Hrange; [|done]. intros [= <-].
      apply andb_true_iff in Hrange as [?%Z.leb_le ?%Z.leb_le].
      split; [|done]. exists s'. repeat split; try done. by right.
    + destruct (Ascii.eqb_spec c "+") as [->|Hplus]; simpl.
      * destruct s' as [|c0 s0] eqn:Hs; [done|]. rewrite <- Hs.
        assert (Hne : s' ≠ "") by (by rewrite Hs). clear c0 s0 Hs.
        destruct (strconv.parseDigits s' 0) as [m|] eqn:Hm; [|done].
        apply parseDigits_Some in Hm as [Hd ->]. fold (decimalValue s').
        destruct (_ && _) eqn:Hrange; [|done]. intros [= <-].
        apply andb_true_iff in Hrange as [?%Z.leb_le ?%Z.leb_le].
        split; [|done]. exists s'. repeat split; try done. left. auto.
      * destruct (regexp.isDigit c) eqn:Hc; [|done].
        destruct (strconv.parseDigits s' _) as [m|] eqn:Hm; [|done].
        apply parseDigits_Some in Hm as [Hd ->].
        change (decimalValueFrom (0 * 10 + strconv.digitValue c) s')
          with (decimalValue (String c s')).
        destruct (_ && _) eqn:Hrange; [|done]. intros [= <-].
        apply andb_true_iff in Hrange as [?%Z.leb_le ?%Z.leb_le].
        split; [|done]. exists (String c s'). repeat split; try done.
        -- simpl. by rewrite Hc, Hd.
        -- left. auto.
  - intros [(ds & Hne & Hd & Hs) Hrange].
    pose proof (decimalValueFrom_nonneg ds 0 Hd ltac:(lia)) as Hpos.
    fold (decimalValue ds) in Hpos.
    pose proof minInt_maxInt as [Hmin Hmax].
    destruct Hs as [[[->| ->] ->]|[-> ->]].
    + rewrite Atoi_digits by done. rewrite decide_True by lia. done.
    + destruct ds as [|c0 ds0] eqn:Hds; [done|]. rewrite <- Hds in *.
      unfold strconv.Atoi. change ("+" +:+ ds) with (String "+" ds).
      simpl. rewrite Hds. rewrite <- Hds.
      rewrite parseDigits_digits by done. fold (decimalValue ds).
      rewrite (proj2 (Z.leb_le _ _)) by lia.
      rewrite (proj2 (Z.leb_le _ _)) by lia. done.
    + destruct ds as [|c0 ds0] eqn:Hds; [done|]. rewrite <- Hds in *.
      unfold strconv.Atoi. change ("-" +:+ ds) with (String "-" ds).
      simpl. rewrite Hds. rewrite <- Hds.
      rewrite parseDigits_digits by done. fold (decimalValue ds).
      rewrite (proj2 (Z.leb_le _ _)) by lia.
      rewrite (proj2 (Z.leb_le _ _)) by lia. done.
Qed.

(** ** What the validators of the scalars accept *)

Lemma report_changes line msg v : report line msg v ≠ Some (tt, v).
Proof.
  unfold report. intros [= Hv]. destruct v as [p r [es]]. simpl in Hv.
  injection Hv as Hes. apply (f_equal length) in Hes.
  rewrite length_app in Hes. simpl in Hes. lia.
Qed.

(** X5: [validateName] appends nothing exactly for a scalar whose text is
    not empty and, for a container's name ([checkSnakeCase]), is one or more
    words of lower-case letters joined by single underscores; the name of
    the metadata is not held to that form. *)
Theorem validateName_accepts (node : yaml.Node) (checkSnakeCase : bool) (v : Validator.t) :
  validateName node checkSnakeCase v = Some (tt, v)
  ↔ yaml.Kind node = yaml.ScalarNode
    ∧ yaml.Value node ≠ ""
    ∧ (checkSnakeCase = true → snakeCase (yaml.Value node)).
Proof.
  unfold validateName.
  destruct (decide (yaml.Kind node ≠ yaml.ScalarNode)) as [Hk|Hk].
  { split; [by intros ?%report_changes | by intros [? _]]. }
  apply dec_stable in Hk.
  destruct (decide (yaml.Value node = "")) as [Hv|Hv].
  { split; [by intros ?%report_changes | by intros (_ & ? & _)]. }
  destruct checkSnakeCase; simpl.
  - destruct (regexp.MatchString RegexSnakeCase (yaml.Value node)) eqn:Hm; simpl.
    + apply RegexSnakeCase_spec in Hm. split; [done|]. done.
    + split; [by intros ?%report_changes|]. intros (_ & _ & Hs).
      apply RegexSnakeCase_spec in Hs; [|done]. congruence.
  - split; [done|]. done.
Qed.

(** X6: [validateImage] appends nothing exactly for a scalar of the form
    registry.bigbrother.io/<repo>:<tag> with a non-empty repo and tag that
    hold no newline. *)
Theorem validateImage_accepts (node : yaml.Node) (v : Validator.t) :
  validateImage node v = Some (tt, v)
  ↔ yaml.Kind node = yaml.ScalarNode ∧ imageForm (yaml.Value node).
Proof.
  unfold validateImage.
  destruct (decide (yaml.Kind node ≠ yaml.ScalarNode)) as [Hk|Hk].
  { split; [by intros ?%report_changes | by intros [? _]]. }
  apply dec_stable in Hk.
  destruct (regexp.MatchString RegexImage (yaml.Value node)) eqn:Hm; simpl.
  - apply RegexImage_spec in Hm. done.
  - split; [by intros ?%report_changes|]. intros [_ Hs].
    apply RegexImage_spec in Hs. congruence.
Qed.

(** X7: [validateHTTPPath] appends nothing exactly for a scalar whose text
    begins with a slash; what follows the slash is free, newlines included. *)
Theorem validateHTTPPath_accepts (node : yaml.Node) (v : Validator.t) :
  validateHTTPPath node v = Some (tt, v)
  ↔ yaml.Kind node = yaml.ScalarNode ∧ absolutePath (yaml.Value node).
Proof.
  unfold validateHTTPPath.
  destruct (decide (yaml.Kind node ≠ yaml.ScalarNode)) as [Hk|Hk].
  { split; [by intros ?%report_changes | by intros [? _]]. }
  apply dec_stable in Hk.
  destruct (regexp.MatchString RegexAbsolutePath (yaml.Value node)) eqn:Hm; simpl.
  - apply RegexAbsolutePath_spec in Hm. done.
  - split; [by intros ?%report_changes|]. intros [_ Hs].
    apply RegexAbsolutePath_spec in Hs. congruence.
Qed.

(** X8: [validatePortNumber] appends nothing exactly for a scalar that is
    decimal digits, possibly after a plus sign and with leading zeros, for a
    number from 1 to 65535.  A value that is no scalar, or no such decimal
    text, or whose number does not fit Go's int, gets "<field> must be
    int" and not the range message. *)
Theorem validatePortNumber_accepts (node : yaml.Node) (fieldName : string) (v : Validator.t) :
  (validatePortNumber node fieldName v = Some (tt, v)
   ↔ yaml.Kind node = yaml.ScalarNode
     ∧ ∃ n, decimalText (yaml.Value node) n ∧ 1 ≤ n ≤ 65535)
  ∧ (validatePortNumber node fieldName v
     = Some (tt, appendErrors v
                   [ mkError v (yaml.Line node) (fieldName +:+ " must be int") ])
     ↔ yaml.Kind node ≠ yaml.ScalarNode
       ∨ ¬ ∃ n, decimalText (yaml.Value node) n
                ∧ strconv.minInt ≤ n ≤ strconv.maxInt).
Proof.
  assert (Hmsg : fieldName +:+ " value out of range" ≠ fieldName +:+ " must be int").
  { intros Heq. apply (inj (String.app fieldName)) in Heq. discriminate. }
  assert (Hmax : 65535 ≤ strconv.maxInt) by (by vm_compute).
  pose proof minInt_maxInt as [Hmin _].
  assert (Hret : ∀ es, es ≠ [] → Some (tt, v) ≠ Some (tt, appendErrors v es)).
  { intros es Hes [= Heq]. destruct v as [p r [old]]. unfold appendErrors in Heq.
    simpl in Heq. injection Heq as Heq. apply (f_equal length) in Heq.
    rewrite length_app in Heq. destruct es; [done|]. simpl in Heq. lia. }
  unfold validatePortNumber.
  destruct (decide (yaml.Kind node ≠ yaml.ScalarNode)) as [Hk|Hk].
  { split; split; try (by intros ?%report_changes); try (by intros [? _]); auto. }
  apply dec_stable in Hk.
  destruct (strconv.Atoi (yaml.Value node)) as [n|] eqn:Hn.
  - assert (Huniq : ∀ n', decimalText (yaml.Value node) n' →
                    strconv.minInt ≤ n' ≤ strconv.maxInt → n' = n).
    { intros n' Hn' Hr. assert (strconv.Atoi (yaml.Value node) = Some n')
        by (by apply Atoi_spec). congruence. }
    apply Atoi_spec in Hn as [Hn Hrange].
    assert (Hparsed : ¬ (yaml.Kind node ≠ yaml.ScalarNode
              ∨ ¬ ∃ n, decimalText (yaml.Value node) n
                ∧ strconv.minInt ≤ n ≤ strconv.maxInt)).
    { intros [?|Hno]; [done|]. apply Hno. eauto. }
    unfold PortNumberMin, PortNumberMax.
    destruct (Z.ltb_spec n 1), (Z.ltb_spec 65535 n); simpl; split; split.
    all: try (by intros ?%report_changes).
    all: try done.
    all: try (intros (_ & n' & Hn' & ?);
              specialize (Huniq n' Hn' ltac:(lia)); exfalso; lia).
    all: try (intros [= Heq]; unfold Add in Heq; simpl in Heq;
              apply app_inv_head in Heq;
              injection Heq as Heq; by apply Hmsg in Heq).
    all: try (intros _; split; [done|]; exists n; split; [done|lia]).
    all: try (intros Heq; by apply Hret in Heq).
  - split; split.
    + by intros ?%report_changes.
    + intros (_ & n & Hn' & ?).
      assert (strconv.Atoi (yaml.Value node) = Some n)
        by (apply Atoi_spec; split; [done|lia]). congruence.
    + intros _. right. intros (n & Hn' & ?).
      assert (strconv.Atoi (yaml.Value node) = Some n)
        by (by apply Atoi_spec). congruence.
    + reflexivity.
Qed.

(** X9: [validateCPU] appends nothing exactly for a scalar that is decimal
    digits, possibly after a plus sign, for a number from 1 that fits Go's
    int.  Every other scalar, text that is no number included, gets "cpu
    value out of range"; only a value that is no scalar gets "cpu must be
    int". *)
Theorem validateCPU_accepts (node : yaml.Node) (v : Validator.t) :
  (validateCPU node v = Some (tt, v)
   ↔ yaml.Kind node = yaml.ScalarNode
     ∧ ∃ n, decimalText (yaml.Value node) n ∧ 1 ≤ n ≤ strconv.maxInt)
  ∧ (validateCPU node v
     = Some (tt, appendErrors v [ mkError v (yaml.Line node) "cpu value out of range" ])
     ↔ yaml.Kind node = yaml.ScalarNode
       ∧ ¬ ∃ n, decimalText (yaml.Value node) n ∧ 1 ≤ n ≤ strconv.maxInt)
  ∧ (validateCPU node v
     = Some (tt, appendErrors v [ mkError v (yaml.Line node) "cpu must be int" ])
     ↔ yaml.Kind node ≠ yaml.ScalarNode).
Proof.
  pose proof minInt_maxInt as [Hmin _].
  assert (Hret : ∀ es, es ≠ [] → Some (tt, v) ≠ Some (tt, appendErrors v es)).
  { intros es Hes [= Heq]. destruct v as [p r [old]]. unfold appendErrors in Heq.
    simpl in Heq. injection Heq as Heq. apply (f_equal length) in Heq.
    rewrite length_app in Heq. destruct es; [done|]. simpl in Heq. lia. }
  assert (Hmsg : ∀ m1 m2, m1 ≠ m2 →
            report (yaml.Line node) m1 v
            ≠ Some (tt, appendErrors v [ mkError v (yaml.Line node) m2 ])).
  { intros m1 m2 Hne [= Heq]. unfold Add in Heq. simpl in Heq.
    apply app_inv_head in Heq. by injection Heq. }
  unfold validateCPU.
  destruct (decide (yaml.Kind node ≠ yaml.ScalarNode)) as [Hk|Hk].
  { split; [|split]; split; try (by intros ?%report_changes);
      try (by intros [? _]); try done.
    by intros ?%Hmsg. }
  apply dec_stable in Hk.
  destruct (strconv.Atoi (yaml.Value node)) as [n|] eqn:Hn.
  - assert (Huniq : ∀ n', decimalText (yaml.Value node) n' →
                    strconv.minInt ≤ n' ≤ strconv.maxInt → n' = n).
    { intros n' Hn' Hr. assert (strconv.Atoi (yaml.Value node) = Some n')
        by (by apply Atoi_spec). congruence. }
    apply Atoi_spec in Hn as [Hn Hrange].
    destruct (Z.ltb_spec n 1); simpl; (split; [|split]); split.
    all: try (by intros ?%report_changes).
    all: try done.
    all: try (by intros ?%Hmsg).
    all: try (intros (_ & n' & Hn' & ?);
              specialize (Huniq n' Hn' ltac:(lia)); exfalso; lia).
    all: try (intros _; split; [done|]; intros (n' & Hn' & ?);
              specialize (Huniq n' Hn' ltac:(lia)); lia).
    all: try (intros _; split; [done|]; exists n; split; [done|lia]).
    all: try (intros Heq; by apply Hret in Heq).
    all: try (intros [_ Hno]; exfalso; apply Hno; exists n; split; [done|lia]).
  - assert (Hno : ¬ ∃ n, decimalText (yaml.Value node) n ∧ 1 ≤ n ≤ strconv.maxInt).
    { intros (n & Hn' & ?).
      assert (strconv.Atoi (yaml.Value node) = Some n)
        by (apply Atoi_spec; split; [done|lia]). congruence. }
    split; [|split]; split.
    all: try (by intros ?%report_changes).
    all: try done.
    all: try (by intros ?%Hmsg).
    all: try (by intros [_ ?]).
Qed.

Example port_with_plus_and_zeros :
  validatePortNumber (scalar 3 "+0080") "containerPort" (NewValidator "pod.yaml" (document 1 []))
  = Some (tt, NewValidator "pod.yaml" (document 1 [])).
Proof. vm_compute. reflexivity. Qed.

Example port_in_hexadecimal :
  run (validatePortNumber (scalar 3 "0x50") "containerPort") "pod.yaml"
  = Some (tt, [ {| FilePath := "pod.yaml"; Line := 3;
                   Message := "containerPort must be int" |} ]).
Proof. vm_compute. reflexivity. Qed.

Example cpu_that_is_no_number :
  run (validateCPU (scalar 3 "500m")) "pod.yaml"
  = Some (tt, [ {| FilePath := "pod.yaml"; Line := 3;
                   Message := "cpu value out of range" |} ]).
Proof. vm_compute. reflexivity. Qed.

(** ** Labels, and nodes without children *)

Lemma run_labels_loop content path :
  Nat.even (length content) = true →
  run (forPairs content
         (λ _ valueNode (_ : unit),
            if decide (yaml.Kind valueNode ≠ yaml.ScalarNode)
            then report (yaml.Line valueNode) "label value must be string"
            else mret tt) tt) path
  = Some (tt, (λ val, {| FilePath := path; Line := yaml.Line val;
                         Message := "label value must be string" |})
                <$> filter (λ val, yaml.Kind val ≠ yaml.ScalarNode) (pairValues content)).
Proof.
  induction content as [|x|k val rest IH] using pairs_ind; intros Heven.
  - reflexivity.
  - discriminate.
  - simpl forPairs. rewrite run_bind; [|solve_uniform|intros; solve_uniform].
    simpl pairValues. rewrite filter_cons.
    destruct (decide (yaml.Kind val ≠ yaml.ScalarNode));
      [rewrite run_report | rewrite run_ret]; simpl bindOut;
      rewrite IH by done; reflexivity.
Qed.

(** X10: on a mapping node with an even number of children, [validateLabels]
    appends one "label value must be string" for each value that is no
    scalar, on the line of that value and in the order of the values; it
    looks neither at the keys nor at the text of a scalar value. *)
Theorem validateLabels_errors (node : yaml.Node) (v : Validator.t) :
  yaml.Kind node = yaml.MappingNode →
  Nat.even (length (yaml.Content node)) = true →
  validateLabels node v
  = Some (tt, appendErrors v
                ((λ val, mkError v (yaml.Line val) "label value must be string")
                   <$> filter (λ val, yaml.Kind val ≠ yaml.ScalarNode)
                         (pairValues (yaml.Content node)))).
Proof.
  intros Hkind Heven. rewrite uniform_validateLabels.
  unfold validateLabels. rewrite Hkind.
  destruct (decide (yaml.MappingNode ≠ yaml.MappingNode)); [done|].
  by rewrite run_labels_loop.
Qed.

Lemma validateLabels_errors_witness :
  validateLabels
    (mapping 5 [scalar 5 "app"; scalar 5 ""; scalar 6 "tiers"; sequence 7 [scalar 7 "a"]])
    (NewValidator "pod.yaml" (document 1 []))
  = Some (tt, Validator.mk "pod.yaml" (document 1 [])
                {| Errors := [ {| FilePath := "pod.yaml"; Line := 7;
                                  Message := "label value must be string" |} ] |}).
Proof.
  apply (validateLabels_errors
           (mapping 5 [scalar 5 "app"; scalar 5 ""; scalar 6 "tiers";
                       sequence 7 [scalar 7 "a"]])
           (NewValidator "pod.yaml" (document 1 []))); reflexivity.
Defined.

(** X11: a node without children, whatever its kind (an empty mapping, but
    also a scalar or a null given where a mapping belongs), gets from each
    object validator exactly the "<field> is required" errors of all its
    required fields, in their order and on the node's line, and no error
    about its kind; [validateResources] and
    [validateResourceRequirements] accept it as it is. *)
Theorem childless_node_misses_every_required_field (node : yaml.Node) (v : Validator.t) :
  yaml.Content node = [] →
  validatePod node v
  = Some (tt, appendErrors v
                (requiredErrors v node ["apiVersion"; "kind"; "metadata"; "spec"]))
  ∧ validateMetadata node v = Some (tt, appendErrors v (requiredErrors v node ["name"]))
  ∧ validateSpec node v = Some (tt, appendErrors v (requiredErrors v node ["containers"]))
  ∧ validateContainer node v
    = Some (tt, appendErrors v (requiredErrors v node ["name"; "image"; "resources"]))
  ∧ validatePort node v
    = Some (tt, appendErrors v (requiredErrors v node ["containerPort"]))
  ∧ validateProbe node v = Some (tt, appendErrors v (requiredErrors v node ["httpGet"]))
  ∧ validateHTTPGet node v
    = Some (tt, appendErrors v (requiredErrors v node ["path"; "port"]))
  ∧ validateResources node v = Some (tt, v)
  ∧ validateResourceRequirements node v = Some (tt, v).
Proof.
  intros Hc. destruct node as [kind value content line]. simpl in Hc. subst content.
  rewrite (uniform_validatePod _ v), (uniform_validateMetadata _ v),
    (uniform_validateSpec _ v), (uniform_validateContainer _ v),
    (uniform_validatePort _ v), (uniform_validateProbe _ v),
    (uniform_validateHTTPGet _ v).
  repeat split.
Qed.

Lemma childless_node_misses_every_required_field_witness :
  let v := NewValidator "pod.yaml" (document 1 []) in
  let node := scalar 3 "hello" in
  validatePod node v
  = Some (tt, appendErrors v
                (requiredErrors v node ["apiVersion"; "kind"; "metadata"; "spec"]))
  ∧ validateMetadata node v = Some (tt, appendErrors v (requiredErrors v node ["name"]))
  ∧ validateSpec node v = Some (tt, appendErrors v (requiredErrors v node ["containers"]))
  ∧ validateContainer node v
    = Some (tt, appendErrors v (requiredErrors v node ["name"; "image"; "resources"]))
  ∧ validatePort node v
    = Some (tt, appendErrors v (requiredErrors v node ["containerPort"]))
  ∧ validateProbe node v = Some (tt, appendErrors v (requiredErrors v node ["httpGet"]))
  ∧ validateHTTPGet node v
    = Some (tt, appendErrors v (requiredErrors v node ["path"; "port"]))
  ∧ validateResources node v = Some (tt, v)
  ∧ validateResourceRequirements node v = Some (tt, v).
Proof.
  intros v node.
  apply (childless_node_misses_every_required_field node v). reflexivity.
Defined.

(** ** The errors of a node are kept whole in the errors of the run *)

Lemma segment_refl es : segment es es.
Proof. exists [], []. by rewrite app_nil_r. Qed.

Lemma segment_nil es : segment [] es.
Proof. exists es, []. by rewrite app_nil_r. Qed.

Lemma segment_trans es1 es2 es3 : segment es1 es2 → segment es2 es3 → segment es1 es3.
Proof.
  intros (a & b & ->) (c & d & ->). exists (c ++ a), (b ++ d).
  by rewrite !app_assoc.
Qed.

Lemma segment_app_l es1 es es' : segment es1 es → segment es1 (es ++ es').
Proof. intros (a & b & ->). exists a, (b ++ es'). by rewrite !app_assoc. Qed.

Lemma segment_app_r es1 es es' : segment es1 es → segment es1 (es' ++ es).
Proof. intros (a & b & ->). exists (es' ++ a), b. by rewrite !app_assoc. Qed.

Lemma segment_of_nil es : segment es [] → es = [].
Proof.
  intros (a & b & Heq). symmetry in Heq.
  apply app_eq_nil in Heq as [_ Heq]. by apply app_eq_nil in Heq as [-> _].
Qed.

Lemma uniform_switchOf sh key val : uniform (switchOf sh key val).
Proof.
  destruct sh; simpl; unfold specSwitch, containerSwitch; solve_uniform.
Qed.

Lemma run_forPairs_cons (body : yaml.Node → yaml.Node → unit → Exec unit) k v rest path :
  (∀ k v s, uniform (body k v s)) →
  run (forPairs (k :: v :: rest) body tt) path
  = bindOut (run (body k v tt) path) (λ _, run (forPairs rest body tt) path).
Proof.
  intros Hb. simpl. rewrite run_bind; [|done|intros; by apply uniform_forPairs].
  destruct (run (body k v tt) path) as [[[] es]|]; reflexivity.
Qed.

Lemma run_forRange_cons (f : yaml.Node → Exec unit) c rest path :
  (∀ c, uniform (f c)) →
  run (forRange (c :: rest) f) path
  = bindOut (run (f c) path) (λ _, run (forRange rest f) path).
Proof.
  intros Hf. simpl. by rewrite run_bind; [|done|intros; by apply uniform_forRange].
Qed.

Lemma bindOut_Some {A B} (o : option (A * list ValidationError))
    (k : A → option (B * list ValidationError)) b es :
  bindOut o k = Some (b, es) →
  ∃ a es1 es2, o = Some (a, es1) ∧ k a = Some (b, es2) ∧ es = es1 ++ es2.
Proof.
  destruct o as [[a es1]|]; simpl; [|done].
  destruct (k a) as [[b' es2]|] eqn:Hk; [|done]. intros [= <- <-].
  exists a, es1, es2. repeat split; done.
Qed.

Lemma segment_forPairs sw content j child path es :
  (∀ key v, uniform (sw key v)) →
  content !! j = Some child → Nat.even j = false →
  run (forPairs content (λ k v (_ : unit), sw (yaml.Value k) v) tt) path = Some (tt, es) →
  ∃ k es1, content !! (j - 1)%nat = Some k
           ∧ run (sw (yaml.Value k) child) path = Some (tt, es1)
           ∧ segment es1 es.
Proof.
  intros Hsw. revert j es.
  induction content as [|x|k v rest IH] using pairs_ind; intros j es Hj Hodd Hrun.
  - done.
  - discriminate Hrun.
  - rewrite run_forPairs_cons in Hrun by (intros; apply Hsw).
    apply bindOut_Some in Hrun as ([] & e1 & e2 & H1 & H2 & ->).
    destruct j as [|[|j]]; [done| |].
    + injection Hj as ->. exists k, e1. repeat split; [done|].
      apply segment_app_l, segment_refl.
    + simpl in Hj, Hodd.
      destruct (IH j e2 Hj Hodd H2) as (k' & es1 & Hk' & Hes1 & Hseg).
      exists k', es1. repeat split; [|done|by apply segment_app_r].
      destruct j; [done|]. simpl in *. by rewrite Nat.sub_0_r in Hk'.
Qed.

Lemma segment_forRange (f : yaml.Node → Exec unit) content j child path es :
  (∀ c, uniform (f c)) →
  content !! j = Some child →
  run (forRange content f) path = Some (tt, es) →
  ∃ es1, run (f child) path = Some (tt, es1) ∧ segment es1 es.
Proof.
  intros Hf. revert j es. induction content as [|c rest IH]; intros j es Hj Hrun;
    [done|].
  rewrite run_forRange_cons in Hrun by done.
  apply bindOut_Some in Hrun as ([] & e1 & e2 & H1 & H2 & ->).
  destruct j as [|j]; simpl in Hj.
  - injection Hj as ->. exists e1. split; [done|]. apply segment_app_l, segment_refl.
  - destruct (IH j e2 Hj H2) as (es1 & ? & ?). exists es1.
    split; [done|]. by apply segment_app_r.
Qed.

Lemma run_ext {A} (m m' : Exec A) path : (∀ v, m v = m' v) → run m path = run m' path.
Proof. intros H. unfold run. by rewrite H. Qed.

Lemma uniform_ext {A} (m m' : Exec A) : (∀ v, m v = m' v) → uniform m → uniform m'.
Proof. intros H Hu v. rewrite <- H, <- (run_ext m m') by done. apply Hu. Qed.

Lemma run_validateAt_object sh node path :
  objectShape sh = true → guardOf sh node = None →
  run (validateAt sh node) path
  = bindOut
      (run (forPairs (yaml.Content node)
              (λ k v (_ : unit), switchOf sh (yaml.Value k) v) tt) path)
      (λ _, run (checkRequired node (requiredOf sh)
                   (markAll (pairKeys (yaml.Content node)) ∅)) path).
Proof.
  intros Hobj Hguard.
  rewrite (run_ext _ (objectForm sh node))
    by (intros v; by rewrite validateAt_object, Hguard).
  unfold run at 1, objectForm.
  rewrite (uniform_forPairs _ _ _ (λ k v s, uniform_switchOf sh (yaml.Value k) v)).
  simpl Validator.FilePath.
  destruct (run (forPairs _ _ _) path) as [[[] e1]|]; simpl; [|done].
  rewrite uniform_checkRequired. simpl Validator.FilePath.
  destruct (run (checkRequired _ _ _) path) as [[[] e2]|]; simpl; done.
Qed.

Lemma switchOf_validateAt sh key child :
  default ShOpaque (fieldShape sh key) = ShOpaque
  ∨ ∀ v, switchOf sh key child v
         = validateAt (default ShOpaque (fieldShape sh key)) child v.
Proof.
  destruct sh; simpl; unfold specSwitch, containerSwitch; auto;
    repeat (destruct (decide (key = _)) as [->|?]; [auto|]); auto.
Qed.

Lemma childShape_labels node j : childShape ShLabels node j = ShOpaque.
Proof.
  unfold childShape. simpl. destruct (Nat.even j); [done|].
  by destruct (yaml.Content node !! (j - 1)%nat).
Qed.

(** The errors of a child that is validated are kept whole. *)
Lemma segment_child sh node j child path es :
  yaml.Content node !! j = Some child →
  match sh with
  | ShContainers | ShPorts => yaml.Kind node = yaml.SequenceNode
  | _ => True
  end →
  run (validateAt sh node) path = Some (tt, es) →
  ∃ esc, run (validateAt (childShape sh node j) child) path = Some (tt, esc)
         ∧ segment esc es.
Proof.
  intros Hj Hseq Hrun.
  destruct (decide (childShape sh node j = ShOpaque)) as [->|Hshape].
  { exists []. split; [done|apply segment_nil]. }
  destruct (objectShape sh) eqn:Hobj.
  - assert (guardOf sh node = None) as Hguard.
    { destruct sh; try reflexivity. by rewrite childShape_labels in Hshape. }
    rewrite run_validateAt_object in Hrun by done.
    apply bindOut_Some in Hrun as ([] & e1 & e2 & H1 & _ & ->).
    unfold childShape in *. rewrite Hobj in *.
    destruct (Nat.even j) eqn:Hodd; [done|].
    destruct (segment_forPairs (switchOf sh) _ j child path e1
                (uniform_switchOf sh) Hj Hodd H1) as (k & es1 & Hk & Hes1 & Hseg).
    rewrite Hk in *.
    destruct (switchOf_validateAt sh (yaml.Value k) child) as [?|Heq]; [done|].
    exists es1. split; [|by apply segment_app_l].
    by rewrite <- (run_ext _ _ path Heq).
  - unfold childShape in *. rewrite Hobj in *.
    destruct sh; try discriminate; simpl in *; try done.
    + eapply (segment_forRange validatePod); eauto. apply uniform_validatePod.
    + unfold validateContainers in Hrun. rewrite Hseq in Hrun.
      destruct (decide _) as [?|_]; [done|].
      eapply (segment_forRange validateContainer); eauto.
      apply uniform_validateContainer.
    + unfold validatePorts in Hrun. rewrite Hseq in Hrun.
      destruct (decide _) as [?|_]; [done|].
      eapply (segment_forRange validatePort); eauto.
      apply uniform_validatePort.
Qed.

Lemma segment_at path :
  ∀ sh0 node sh target p es,
    shapeAt sh0 path node = Some sh →
    nodeAt path node = Some target →
    sequencesAlong sh0 path node = true →
    run (validateAt sh0 node) p = Some (tt, es) →
    ∃ es1, run (validateAt sh target) p = Some (tt, es1) ∧ segment es1 es.
Proof.
  induction path as [|j path IH]; intros sh0 node sh target p es Hsh Hn Hseq Hrun;
    simpl in *.
  - injection Hsh as <-. injection Hn as <-. exists es. split; [done|apply segment_refl].
  - destruct (yaml.Content node !! j) as [child|] eqn:Hj; [|done].
    apply andb_true_iff in Hseq as [Hhere Hbelow].
    destruct (segment_child sh0 node j child p es Hj) as (esc & Hc & Hsegc); [|done|].
    { destruct sh0; try done; by apply bool_decide_eq_true in Hhere. }
    destruct (IH _ _ _ _ _ _ Hsh Hn Hbelow Hc) as (es1 & H1 & Hseg1).
    exists es1. split; [done|]. by eapply segment_trans.
Qed.

Lemma uniform_validateAt sh node : uniform (validateAt sh node).
Proof. destruct sh; simpl; solve_uniform. Qed.

Lemma fmap_fst_Validate_run path root :
  fst <$> Validate (NewValidator path root)
  = snd <$> run (validateAt ShDocument root) path.
Proof.
  rewrite Validate_run. simpl.
  destruct (run _ path) as [[[] es]|]; reflexivity.
Qed.

Lemma run_on_fresh {A} (m : Exec A) path root a es :
  uniform m → run m path = Some (a, es) →
  m (NewValidator path root) = Some (a, Validator.mk path root {| Errors := es |}).
Proof. intros Hu Hrun. rewrite Hu. simpl. by rewrite Hrun. Qed.

Lemma segment_pair sh node k val p es :
  objectShape sh = true → guardOf sh node = None →
  run (validateAt sh node) p = Some (tt, es) →
  hasPair node k val →
  ∃ es1, run (switchOf sh (yaml.Value k) val) p = Some (tt, es1) ∧ segment es1 es.
Proof.
  intros Hobj Hguard Hrun (pre & post & Hc & Heven).
  rewrite run_validateAt_object in Hrun by done.
  apply bindOut_Some in Hrun as ([] & e1 & e2 & H1 & _ & ->).
  destruct (segment_forPairs (switchOf sh) (yaml.Content node) (S (length pre)) val p e1
              (uniform_switchOf sh)) as (k' & es1 & Hk' & Hes1 & Hseg); [| |done|].
  - rewrite Hc. rewrite lookup_app_r by lia.
    by replace (S (length pre) - length pre)%nat with 1%nat by lia.
  - rewrite Nat.even_succ. rewrite <- Nat.negb_even. by rewrite Heven.
  - rewrite Hc in Hk'. simpl in Hk'. rewrite Nat.sub_0_r in Hk'.
    rewrite lookup_app_r in Hk' by lia. rewrite Nat.sub_diag in Hk'.
    injection Hk' as <-. exists es1. split; [done|]. by apply segment_app_l.
Qed.

(** X12: the errors that a validator appends are kept whole and in order in
    what [Validate] returns.  For every node on a path of child indices
    along which the containers and ports nodes are sequences, the errors of
    the validator that the schema runs on that node are a run of consecutive
    entries of the result; and when that node is validated as an object
    whose pairs are read, so are, for each of its pairs, the errors of what
    the object's [switch] runs on the value under the key: those of
    [validateName], [validateImage], [validatePortNumber] and the other
    validators of scalar fields among them. *)
Theorem errors_of_a_node_are_kept
    (p : string) (root target : yaml.Node) (path : list nat) (sh : Shape)
    (errors : list ValidationError) :
  fst <$> Validate (NewValidator p root) = Some errors →
  nodeAt path root = Some target →
  shapeAt ShDocument path root = Some sh →
  sequencesAlong ShDocument path root = true →
  (∃ es,
     validateAt sh target (NewValidator p root)
     = Some (tt, Validator.mk p root {| Errors := es |})
     ∧ segment es errors)
  ∧ (objectShape sh = true → guardOf sh target = None →
     ∀ keyNode valueNode, hasPair target keyNode valueNode →
       ∃ es,
         switchOf sh (yaml.Value keyNode) valueNode (NewValidator p root)
         = Some (tt, Validator.mk p root {| Errors := es |})
         ∧ segment es errors).
Proof.
  rewrite fmap_fst_Validate_run.
  destruct (run (validateAt ShDocument root) p) as [[[] es]|] eqn:Hrun; [|done].
  intros [= <-] Hn Hsh Hseq.
  destruct (segment_at _ _ _ _ _ _ _ Hsh Hn Hseq Hrun) as (es1 & H1 & Hseg).
  split.
  - exists es1. split; [|done]. apply run_on_fresh; [apply uniform_validateAt|done].
  - intros Hobj Hguard k val Hpair.
    destruct (segment_pair sh target k val p es1 Hobj Hguard H1 Hpair)
      as (es2 & H2 & Hseg2).
    exists es2. split; [|by eapply segment_trans].
    apply run_on_fresh; [apply uniform_switchOf|done].
Qed.

Lemma errors_of_a_node_are_kept_witness :
  (∃ es,
     validateContainer
       (default scenarioB (nodeAt [0; 7; 1; 0]%nat scenarioB))
       (NewValidator "pod.yaml" scenarioB)
     = Some (tt, Validator.mk "pod.yaml" scenarioB {| Errors := es |})
     ∧ segment es scenarioB_errors)
  ∧ ∃ es,
      validateName (scalar 7 "WebApp") true (NewValidator "pod.yaml" scenarioB)
      = Some (tt, Validator.mk "pod.yaml" scenarioB {| Errors := es |})
      ∧ segment es scenarioB_errors.
Proof.
  destruct (errors_of_a_node_are_kept "pod.yaml" scenarioB
              (default scenarioB (nodeAt [0; 7; 1; 0]%nat scenarioB))
              [0; 7; 1; 0]%nat ShContainer scenarioB_errors) as [Hnode Hpairs].
  - vm_compute. reflexivity.
  - reflexivity.
  - vm_compute. reflexivity.
  - vm_compute. reflexivity.
  - split; [exact Hnode|].
    apply (Hpairs eq_refl eq_refl (scalar 7 "name") (scalar 7 "WebApp")).
    eexists [], _. split; reflexivity.
Defined.

(** ** What a document without errors is like *)

Lemma accepted_reads sh node p :
  run (validateAt sh node) p = Some (tt, []) →
  match sh with
  | ShContainers | ShPorts => yaml.Kind node = yaml.SequenceNode
  | _ => True
  end.
Proof.
  destruct sh; try done; simpl; unfold validateContainers, validatePorts;
    (destruct (decide _) as [?|?%dec_stable]; [by rewrite run_report|done]).
Qed.

Lemma accepted_at path :
  ∀ sh0 node sh target p,
    shapeAt sh0 path node = Some sh →
    nodeAt path node = Some target →
    run (validateAt sh0 node) p = Some (tt, []) →
    run (validateAt sh target) p = Some (tt, []).
Proof.
  induction path as [|j path IH]; intros sh0 node sh target p Hsh Hn Hrun; simpl in *.
  - by injection Hsh as <-; injection Hn as <-.
  - destruct (yaml.Content node !! j) as [child|] eqn:Hj; [|done].
    destruct (segment_child sh0 node j child p [] Hj) as (esc & Hc & Hsegc);
      [by apply (accepted_reads _ _ p)|done|].
    apply segment_of_nil in Hsegc as ->. by eapply IH.
Qed.

Lemma accepted_guard sh node p :
  objectShape sh = true → run (validateAt sh node) p = Some (tt, []) →
  guardOf sh node = None.
Proof.
  destruct sh; try done. intros _. simpl. unfold validateLabels.
  destruct (decide _); [by rewrite run_report|done].
Qed.

Lemma accepted_pair sh node k val p :
  objectShape sh = true →
  run (validateAt sh node) p = Some (tt, []) →
  hasPair node k val →
  run (switchOf sh (yaml.Value k) val) p = Some (tt, []).
Proof.
  intros Hobj Hrun (pre & post & Hc & Heven).
  rewrite run_validateAt_object in Hrun by eauto using accepted_guard.
  apply bindOut_Some in Hrun as ([] & e1 & e2 & H1 & _ & Hnil).
  symmetry in Hnil. apply app_eq_nil in Hnil as [-> ->].
  assert (Hlen : ∃ n, length pre = (2 * n)%nat).
  { apply Nat.even_spec in Heven as [n ->]. eauto. }
  destruct Hlen as [n Hlen].
  destruct (segment_forPairs (switchOf sh) (yaml.Content node) (S (length pre)) val p []
              (uniform_switchOf sh)) as (k' & es1 & Hk' & Hes1 & Hseg); [| |done|].
  - rewrite Hc. rewrite lookup_app_r by lia.
    by replace (S (length pre) - length pre)%nat with 1%nat by lia.
  - rewrite Nat.even_succ. rewrite <- Nat.negb_even. by rewrite Heven.
  - apply segment_of_nil in Hseg as ->.
    rewrite Hc in Hk'. simpl in Hk'. rewrite Nat.sub_0_r in Hk'.
    rewrite lookup_app_r in Hk' by lia. rewrite Nat.sub_diag in Hk'.
    by injection Hk' as <-.
Qed.

Lemma accepted_required sh node p f :
  objectShape sh = true →
  run (validateAt sh node) p = Some (tt, []) →
  f ∈ requiredOf sh → f ∈ pairKeys (yaml.Content node).
Proof.
  intros Hobj Hrun Hf.
  rewrite run_validateAt_object in Hrun by eauto using accepted_guard.
  apply bindOut_Some in Hrun as ([] & e1 & e2 & _ & H2 & Hnil).
  symmetry in Hnil. apply app_eq_nil in Hnil as [-> ->].
  rewrite run_checkRequired in H2. injection H2 as H2.
  apply fmap_nil_inv in H2.
  destruct (decide (f ∈ pairKeys (yaml.Content node))) as [|Hnot]; [done|].
  exfalso. eapply (filter_nil_not_elem_of _ _ f H2); [|done].
  rewrite visited_markAll. unfold visited. rewrite lookup_empty. simpl.
  by rewrite bool_decide_false.
Qed.

Lemma run_nil_accepts (m : Exec unit) v :
  uniform m → run m (Validator.FilePath v) = Some (tt, []) → m v = Some (tt, v).
Proof. intros Hu Hrun. rewrite Hu, Hrun. simpl. by rewrite appendErrors_nil. Qed.

Lemma accepted_document p root doc :
  fst <$> Validate (NewValidator p root) = Some [] →
  doc ∈ yaml.Content root →
  run (validatePod doc) p = Some (tt, []).
Proof.
  rewrite fmap_fst_Validate_run.
  destruct (run (validateAt ShDocument root) p) as [[[] es]|] eqn:Hrun; [|done].
  intros [= ->] Hdoc. apply list_elem_of_lookup in Hdoc as [i Hi].
  apply (accepted_at [i] ShDocument root ShPod doc p); simpl; by rewrite ?Hi.
Qed.

Lemma accepted_node p root path sh target :
  fst <$> Validate (NewValidator p root) = Some [] →
  nodeAt path root = Some target →
  shapeAt ShDocument path root = Some sh →
  run (validateAt sh target) p = Some (tt, []).
Proof.
  rewrite fmap_fst_Validate_run.
  destruct (run (validateAt ShDocument root) p) as [[[] es]|] eqn:Hrun; [|done].
  intros [= ->] Hn Hsh. by eapply accepted_at.
Qed.

Lemma run_report_nil line msg p : run (report line msg) p ≠ Some (tt, []).
Proof. by rewrite run_report. Qed.

Lemma apiVersion_ok val p :
  run (validateAPIVersion val) p = Some (tt, []) →
  yaml.Kind val = yaml.ScalarNode ∧ yaml.Value val = "v1".
Proof.
  unfold validateAPIVersion, APIVersionExpected.
  destruct (decide _) as [?|Hn]; [by intros ?%run_report_nil|]. intros _.
  split; apply dec_stable; intros ?; apply Hn; auto.
Qed.

Lemma kind_ok val p :
  run (validateKind val) p = Some (tt, []) →
  yaml.Kind val = yaml.ScalarNode ∧ yaml.Value val = "Pod".
Proof.
  unfold validateKind, KindExpected.
  destruct (decide _) as [?|Hn]; [by intros ?%run_report_nil|]. intros _.
  split; apply dec_stable; intros ?; apply Hn; auto.
Qed.

Lemma name_ok val b p :
  run (validateName val b) p = Some (tt, []) →
  yaml.Kind val = yaml.ScalarNode ∧ yaml.Value val ≠ ""
  ∧ (b = true → snakeCase (yaml.Value val)).
Proof.
  unfold validateName.
  destruct (decide _) as [?|Hk%dec_stable]; [by intros ?%run_report_nil|].
  destruct (decide _) as [?|Hv]; [by intros ?%run_report_nil|].
  destruct b; simpl; [|done].
  destruct (regexp.MatchString RegexSnakeCase (yaml.Value val)) eqn:Hm; simpl;
    [|by intros ?%run_report_nil].
  apply RegexSnakeCase_spec in Hm. done.
Qed.

Lemma image_ok val p :
  run (validateImage val) p = Some (tt, []) →
  yaml.Kind val = yaml.ScalarNode ∧ imageForm (yaml.Value val).
Proof.
  unfold validateImage.
  destruct (decide _) as [?|Hk%dec_stable]; [by intros ?%run_report_nil|].
  destruct (regexp.MatchString RegexImage (yaml.Value val)) eqn:Hm; simpl;
    [|by intros ?%run_report_nil].
  apply RegexImage_spec in Hm. done.
Qed.

Lemma path_ok val p :
  run (validateHTTPPath val) p = Some (tt, []) →
  yaml.Kind val = yaml.ScalarNode ∧ absolutePath (yaml.Value val).
Proof.
  unfold validateHTTPPath.
  destruct (decide _) as [?|Hk%dec_stable]; [by intros ?%run_report_nil|].
  destruct (regexp.MatchString RegexAbsolutePath (yaml.Value val)) eqn:Hm; simpl;
    [|by intros ?%run_report_nil].
  apply RegexAbsolutePath_spec in Hm. done.
Qed.

Lemma port_ok val f p :
  run (validatePortNumber val f) p = Some (tt, []) →
  yaml.Kind val = yaml.ScalarNode
  ∧ ∃ n, decimalText (yaml.Value val) n ∧ 1 ≤ n ≤ 65535.
Proof.
  unfold validatePortNumber, PortNumberMin, PortNumberMax.
  destruct (decide _) as [?|Hk%dec_stable]; [by intros ?%run_report_nil|].
  destruct (strconv.Atoi (yaml.Value val)) as [n|] eqn:Hn;
    [|by intros ?%run_report_nil].
  apply Atoi_spec in Hn as [Hn _].
  destruct (Z.ltb_spec n 1), (Z.ltb_spec 65535 n); simpl;
    try (by intros ?%run_report_nil).
  intros _. split; [done|]. exists n. split; [done|lia].
Qed.

Lemma cpu_ok val p :
  run (validateCPU val) p = Some (tt, []) →
  yaml.Kind val = yaml.ScalarNode
  ∧ ∃ n, decimalText (yaml.Value val) n ∧ 1 ≤ n ≤ strconv.maxInt.
Proof.
  unfold validateCPU.
  destruct (decide _) as [?|Hk%dec_stable]; [by intros ?%run_report_nil|].
  destruct (strconv.Atoi (yaml.Value val)) as [n|] eqn:Hn;
    [|by intros ?%run_report_nil].
  apply Atoi_spec in Hn as [Hn [_ ?]].
  destruct (Z.ltb_spec n 1); simpl; [by intros ?%run_report_nil|].
  intros _. split; [done|]. exists n. split; [done|lia].
Qed.

Lemma memory_ok val p :
  run (validateMemory val) p = Some (tt, []) →
  yaml.Kind val = yaml.ScalarNode
  ∧ ∃ d u, memoryPattern (yaml.Value val) d u
           ∧ 1 ≤ decimalValue d ≤ strconv.maxInt.
Proof.
  unfold validateMemory.
  destruct (decide _) as [?|Hk%dec_stable]; [by intros ?%run_report_nil|].
  destruct (RegexMemory_FindStringSubmatch (yaml.Value val)) as [l|] eqn:Hfind;
    [|by intros ?%run_report_nil].
  apply FindStringSubmatch_Some in Hfind as (d & u & -> & Hp). simpl.
  pose proof Hp as (_ & Hne & Hd & _). rewrite Atoi_digits by done.
  destruct (decide (decimalValue d ≤ strconv.maxInt)); [|by intros ?%run_report_nil].
  destruct (Z.ltb_spec (decimalValue d) 1); simpl; [by intros ?%run_report_nil|].
  intros _. split; [done|]. exists d, u. split; [done|lia].
Qed.

Lemma forPairs_Some_even {S} content (body : yaml.Node → yaml.Node → S → Exec S) s v r :
  forPairs content body s v = Some r → Nat.even (length content) = true.
Proof.
  revert s v. induction content as [|x|k val rest IH] using pairs_ind; intros s v; simpl.
  - done.
  - done.
  - unfold mbind, Exec_bind. destruct (body k val s v) as [[s1 v1]|]; [|done].
    apply IH.
Qed.

Lemma labels_ok val p :
  run (validateLabels val) p = Some (tt, []) →
  yaml.Kind val = yaml.MappingNode
  ∧ Forall (λ l, yaml.Kind l = yaml.ScalarNode) (pairValues (yaml.Content val)).
Proof.
  unfold validateLabels.
  destruct (decide _) as [?|Hk%dec_stable]; [by intros ?%run_report_nil|].
  intros Hrun. split; [done|].
  assert (Heven : Nat.even (length (yaml.Content val)) = true).
  { unfold run in Hrun.
    destruct (forPairs _ _ _ _) as [r|] eqn:Hf; [|done]. by eapply forPairs_Some_even. }
  rewrite run_labels_loop in Hrun by done. injection Hrun as Hnil.
  apply fmap_nil_inv in Hnil. apply Forall_forall. intros l Hl.
  apply dec_stable. intros Hne.
  by eapply (filter_nil_not_elem_of _ _ l Hnil).
Qed.

Ltac switch_at key :=
  match goal with
  | H : run (switchOf ?sh (yaml.Value ?k) ?val) ?p = Some (tt, []),
    Hk : yaml.Value ?k = key |- _ =>
      let H' := fresh "Hsw" in
      pose proof H as H'; rewrite Hk in H'; simpl in H';
      unfold specSwitch, containerSwitch in H'; simpl in H'
  end.

(** X13: in a document that validates without any error, every top-level
    node has the keys apiVersion, kind, metadata and spec, every value under
    apiVersion is the scalar v1 and every value under kind the scalar Pod. *)
Theorem accepted_pod (p : string) (root doc : yaml.Node) :
  fst <$> Validate (NewValidator p root) = Some [] →
  doc ∈ yaml.Content root →
  (∀ f, f ∈ ["apiVersion"; "kind"; "metadata"; "spec"] →
        f ∈ pairKeys (yaml.Content doc))
  ∧ ∀ k val, hasPair doc k val →
      (yaml.Value k = "apiVersion" →
       yaml.Kind val = yaml.ScalarNode ∧ yaml.Value val = "v1")
      ∧ (yaml.Value k = "kind" →
         yaml.Kind val = yaml.ScalarNode ∧ yaml.Value val = "Pod").
Proof.
  intros Hv Hdoc. pose proof (accepted_document p root doc Hv Hdoc) as Hrun.
  split.
  - intros f Hf. by apply (accepted_required ShPod doc p f).
  - intros k val Hpair.
    pose proof (accepted_pair ShPod doc k val p eq_refl Hrun Hpair) as Hsw.
    split; intros Hk; rewrite Hk in Hsw; simpl in Hsw.
    + by apply apiVersion_ok in Hsw.
    + by apply kind_ok in Hsw.
Qed.

Lemma accepted_pod_witness :
  (∀ f, f ∈ ["apiVersion"; "kind"; "metadata"; "spec"] →
        f ∈ pairKeys (yaml.Content
                        (scenarioPodAt blockLayout "web_app" "registry.bigbrother.io/app:1.0")))
  ∧ ∀ k val,
      hasPair (scenarioPodAt blockLayout "web_app" "registry.bigbrother.io/app:1.0") k val →
      (yaml.Value k = "apiVersion" →
       yaml.Kind val = yaml.ScalarNode ∧ yaml.Value val = "v1")
      ∧ (yaml.Value k = "kind" →
         yaml.Kind val = yaml.ScalarNode ∧ yaml.Value val = "Pod").
Proof.
  apply (accepted_pod "pod.yaml" scenarioA
           (scenarioPodAt blockLayout "web_app" "registry.bigbrother.io/app:1.0")).
  - vm_compute. reflexivity.
  - apply list_elem_of_here.
Defined.

(** X14: in a document that validates without any error, every node that
    the schema reaches as metadata has a name key, every value under name is
    a scalar that is not empty, and every value under labels is a mapping
    whose values are all scalars. *)
Theorem accepted_metadata (p : string) (root node : yaml.Node) (path : list nat) :
  fst <$> Validate (NewValidator p root) = Some [] →
  nodeAt path root = Some node →
  shapeAt ShDocument path root = Some ShMetadata →
  "name" ∈ pairKeys (yaml.Content node)
  ∧ ∀ k val, hasPair node k val →
      (yaml.Value k = "name" →
       yaml.Kind val = yaml.ScalarNode ∧ yaml.Value val ≠ "")
      ∧ (yaml.Value k = "labels" →
         yaml.Kind val = yaml.MappingNode
         ∧ Forall (λ l, yaml.Kind l = yaml.ScalarNode) (pairValues (yaml.Content val))).
Proof.
  intros Hv Hn Hsh. pose proof (accepted_node p root path _ _ Hv Hn Hsh) as Hrun.
  split.
  - apply (accepted_required ShMetadata node p); [done..|]. compute_done.
  - intros k val Hpair.
    pose proof (accepted_pair ShMetadata node k val p eq_refl Hrun Hpair) as Hsw.
    split; intros Hk; rewrite Hk in Hsw; simpl in Hsw.
    + apply name_ok in Hsw as (? & ? & _). done.
    + by apply labels_ok in Hsw.
Qed.

Lemma accepted_metadata_witness :
  "name" ∈ pairKeys (yaml.Content (default scenarioWide (nodeAt [0; 5]%nat scenarioWide)))
  ∧ ∀ k val, hasPair (default scenarioWide (nodeAt [0; 5]%nat scenarioWide)) k val →
      (yaml.Value k = "name" →
       yaml.Kind val = yaml.ScalarNode ∧ yaml.Value val ≠ "")
      ∧ (yaml.Value k = "labels" →
         yaml.Kind val = yaml.MappingNode
         ∧ Forall (λ l, yaml.Kind l = yaml.ScalarNode) (pairValues (yaml.Content val))).
Proof.
  apply (accepted_metadata "pod.yaml" scenarioWide
           (default scenarioWide (nodeAt [0; 5]%nat scenarioWide)) [0; 5]%nat).
  - vm_compute. reflexivity.
  - reflexivity.
  - vm_compute. reflexivity.
Defined.

(** X15: in a document that validates without any error, every node that
    the schema reaches as a container has the keys name, image and
    resources, every value under name is a scalar of lower-case words joined
    by single underscores, and every value under image is a scalar of the
    form registry.bigbrother.io/<repo>:<tag>. *)
Theorem accepted_container (p : string) (root node : yaml.Node) (path : list nat) :
  fst <$> Validate (NewValidator p root) = Some [] →
  nodeAt path root = Some node →
  shapeAt ShDocument path root = Some ShContainer →
  (∀ f, f ∈ ["name"; "image"; "resources"] → f ∈ pairKeys (yaml.Content node))
  ∧ ∀ k val, hasPair node k val →
      (yaml.Value k = "name" →
       yaml.Kind val = yaml.ScalarNode ∧ snakeCase (yaml.Value val))
      ∧ (yaml.Value k = "image" →
         yaml.Kind val = yaml.ScalarNode ∧ imageForm (yaml.Value val)).
Proof.
  intros Hv Hn Hsh. pose proof (accepted_node p root path _ _ Hv Hn Hsh) as Hrun.
  split.
  - intros f Hf. by apply (accepted_required ShContainer node p f).
  - intros k val Hpair.
    pose proof (accepted_pair ShContainer node k val p eq_refl Hrun Hpair) as Hsw.
    split; intros Hk; rewrite Hk in Hsw; simpl in Hsw;
      unfold containerSwitch in Hsw; simpl in Hsw.
    + apply name_ok in Hsw as (? & _ & Hs). auto.
    + by apply image_ok in Hsw.
Qed.

Lemma accepted_container_witness :
  (∀ f, f ∈ ["name"; "image"; "resources"] →
        f ∈ pairKeys (yaml.Content (default scenarioWide (nodeAt [0; 7; 3; 0]%nat scenarioWide))))
  ∧ ∀ k val,
      hasPair (default scenarioWide (nodeAt [0; 7; 3; 0]%nat scenarioWide)) k val →
      (yaml.Value k = "name" →
       yaml.Kind val = yaml.ScalarNode ∧ snakeCase (yaml.Value val))
      ∧ (yaml.Value k = "image" →
         yaml.Kind val = yaml.ScalarNode ∧ imageForm (yaml.Value val)).
Proof.
  apply (accepted_container "pod.yaml" scenarioWide
           (default scenarioWide (nodeAt [0; 7; 3; 0]%nat scenarioWide))
           [0; 7; 3; 0]%nat).
  - vm_compute. reflexivity.
  - reflexivity.
  - vm_compute. reflexivity.
Defined.

(** X16: in a document that validates without any error, every node that
    the schema reaches as a port has a containerPort key, and every value
    under containerPort is a scalar whose text is a decimal number from 1 to
    65535. *)
Theorem accepted_port (p : string) (root node : yaml.Node) (path : list nat) :
  fst <$> Validate (NewValidator p root) = Some [] →
  nodeAt path root = Some node →
  shapeAt ShDocument path root = Some ShPort →
  "containerPort" ∈ pairKeys (yaml.Content node)
  ∧ ∀ k val, hasPair node k val → yaml.Value k = "containerPort" →
      yaml.Kind val = yaml.ScalarNode
      ∧ ∃ n, decimalText (yaml.Value val) n ∧ 1 ≤ n ≤ 65535.
Proof.
  intros Hv Hn Hsh. pose proof (accepted_node p root path _ _ Hv Hn Hsh) as Hrun.
  split.
  - apply (accepted_required ShPort node p); [done..|]. compute_done.
  - intros k val Hpair Hk.
    pose proof (accepted_pair ShPort node k val p eq_refl Hrun Hpair) as Hsw.
    rewrite Hk in Hsw; simpl in Hsw. by apply port_ok in Hsw.
Qed.

Lemma accepted_port_witness :
  "containerPort"
    ∈ pairKeys (yaml.Content
                  (default scenarioWide (nodeAt [0; 7; 3; 0; 5; 0]%nat scenarioWide)))
  ∧ ∀ k val,
      hasPair (default scenarioWide (nodeAt [0; 7; 3; 0; 5; 0]%nat scenarioWide)) k val →
      yaml.Value k = "containerPort" →
      yaml.Kind val = yaml.ScalarNode
      ∧ ∃ n, decimalText (yaml.Value val) n ∧ 1 ≤ n ≤ 65535.
Proof.
  apply (accepted_port "pod.yaml" scenarioWide
           (default scenarioWide (nodeAt [0; 7; 3; 0; 5; 0]%nat scenarioWide))
           [0; 7; 3; 0; 5; 0]%nat).
  - vm_compute. reflexivity.
  - reflexivity.
  - vm_compute. reflexivity.
Defined.

(** X17: in a document that validates without any error, every node that
    the schema reaches as the httpGet of a probe has the keys path and port,
    every value under path is a scalar that starts with a slash, and every
    value under port is a scalar whose text is a decimal number from 1 to
    65535. *)
Theorem accepted_httpGet (p : string) (root node : yaml.Node) (path : list nat) :
  fst <$> Validate (NewValidator p root) = Some [] →
  nodeAt path root = Some node →
  shapeAt ShDocument path root = Some ShHTTPGet →
  (∀ f, f ∈ ["path"; "port"] → f ∈ pairKeys (yaml.Content node))
  ∧ ∀ k val, hasPair node k val →
      (yaml.Value k = "path" →
       yaml.Kind val = yaml.ScalarNode ∧ absolutePath (yaml.Value val))
      ∧ (yaml.Value k = "port" →
         yaml.Kind val = yaml.ScalarNode
         ∧ ∃ n, decimalText (yaml.Value val) n ∧ 1 ≤ n ≤ 65535).
Proof.
  intros Hv Hn Hsh. pose proof (accepted_node p root path _ _ Hv Hn Hsh) as Hrun.
  split.
  - intros f Hf. by apply (accepted_required ShHTTPGet node p f).
  - intros k val Hpair.
    pose proof (accepted_pair ShHTTPGet node k val p eq_refl Hrun Hpair) as Hsw.
    split; intros Hk; rewrite Hk in Hsw; simpl in Hsw.
    + by apply path_ok in Hsw.
    + by apply port_ok in Hsw.
Qed.

Lemma accepted_httpGet_witness :
  (∀ f, f ∈ ["path"; "port"] →
        f ∈ pairKeys (yaml.Content
                        (default scenarioWide (nodeAt [0; 7; 3; 0; 7; 1]%nat scenarioWide))))
  ∧ ∀ k val,
      hasPair (default scenarioWide (nodeAt [0; 7; 3; 0; 7; 1]%nat scenarioWide)) k val →
      (yaml.Value k = "path" →
       yaml.Kind val = yaml.ScalarNode ∧ absolutePath (yaml.Value val))
      ∧ (yaml.Value k = "port" →
         yaml.Kind val = yaml.ScalarNode
         ∧ ∃ n, decimalText (yaml.Value val) n ∧ 1 ≤ n ≤ 65535).
Proof.
  apply (accepted_httpGet "pod.yaml" scenarioWide
           (default scenarioWide (nodeAt [0; 7; 3; 0; 7; 1]%nat scenarioWide))
           [0; 7; 3; 0; 7; 1]%nat).
  - vm_compute. reflexivity.
  - reflexivity.
  - vm_compute. reflexivity.
Defined.

(** X18: in a document that validates without any error, in every node that
    the schema reaches as the requirements under a key of resources, every
    value under cpu is a scalar whose text is a decimal number of at least
    1, and every value under memory is a scalar made of decimal digits and
    one of the units Ki, Mi and Gi, the digits denoting at least 1. *)
Theorem accepted_requirements (p : string) (root node : yaml.Node) (path : list nat) :
  fst <$> Validate (NewValidator p root) = Some [] →
  nodeAt path root = Some node →
  shapeAt ShDocument path root = Some ShRequirements →
  ∀ k val, hasPair node k val →
    (yaml.Value k = "cpu" →
     yaml.Kind val = yaml.ScalarNode
     ∧ ∃ n, decimalText (yaml.Value val) n ∧ 1 ≤ n ≤ strconv.maxInt)
    ∧ (yaml.Value k = "memory" →
       yaml.Kind val = yaml.ScalarNode
       ∧ ∃ d u, memoryPattern (yaml.Value val) d u
                ∧ 1 ≤ decimalValue d ≤ strconv.maxInt).
Proof.
  intros Hv Hn Hsh k val Hpair.
  pose proof (accepted_node p root path _ _ Hv Hn Hsh) as Hrun.
  pose proof (accepted_pair ShRequirements node k val p eq_refl Hrun Hpair) as Hsw.
  split; intros Hk; rewrite Hk in Hsw; simpl in Hsw.
  - by apply cpu_ok in Hsw.
  - by apply memory_ok in Hsw.
Qed.

Lemma accepted_requirements_witness :
  shapeAt ShDocument [0; 7; 3; 0; 9; 1]%nat scenarioWide = Some ShRequirements
  ∧ ∀ k val,
    hasPair (default scenarioWide (nodeAt [0; 7; 3; 0; 9; 1]%nat scenarioWide)) k val →
    (yaml.Value k = "cpu" →
     yaml.Kind val = yaml.ScalarNode
     ∧ ∃ n, decimalText (yaml.Value val) n ∧ 1 ≤ n ≤ strconv.maxInt)
    ∧ (yaml.Value k = "memory" →
       yaml.Kind val = yaml.ScalarNode
       ∧ ∃ d u, memoryPattern (yaml.Value val) d u
                ∧ 1 ≤ decimalValue d ≤ strconv.maxInt).
Proof.
  split; [vm_compute; reflexivity|].
  apply (accepted_requirements "pod.yaml" scenarioWide
           (default scenarioWide (nodeAt [0; 7; 3; 0; 9; 1]%nat scenarioWide))
           [0; 7; 3; 0; 9; 1]%nat).
  - vm_compute. reflexivity.
  - reflexivity.
  - vm_compute. reflexivity.
Defined.

(** X19: in a document that validates without any error, every node that
    the schema reaches as the value of containers or of ports is a sequence,
    every node reached as labels is a mapping, every node reached as spec
    has a containers key and every node reached as a probe has an httpGet
    key. *)
Theorem accepted_kinds (p : string) (root node : yaml.Node) (path : list nat)
    (sh : Shape) :
  fst <$> Validate (NewValidator p root) = Some [] →
  nodeAt path root = Some node →
  shapeAt ShDocument path root = Some sh →
  (sh = ShContainers ∨ sh = ShPorts → yaml.Kind node = yaml.SequenceNode)
  ∧ (sh = ShLabels → yaml.Kind node = yaml.MappingNode)
  ∧ (sh = ShSpec → "containers" ∈ pairKeys (yaml.Content node))
  ∧ (sh = ShProbe → "httpGet" ∈ pairKeys (yaml.Content node)).
Proof.
  intros Hv Hn Hsh. pose proof (accepted_node p root path _ _ Hv Hn Hsh) as Hrun.
  repeat split.
  - intros [-> | ->]; revert Hrun; unfold validateAt;
      unfold validateContainers, validatePorts;
      (destruct (decide _) as [?|Hk]; [by intros ?%run_report_nil|]);
      intros _; by apply dec_stable.
  - intros ->. by apply labels_ok in Hrun as [? _].
  - intros ->. apply (accepted_required ShSpec node p); [done..|]. compute_done.
  - intros ->. apply (accepted_required ShProbe node p); [done..|]. compute_done.
Qed.

Lemma accepted_kinds_witness :
  (ShContainers = ShContainers ∨ ShContainers = ShPorts →
   yaml.Kind (default scenarioWide (nodeAt [0; 7; 3]%nat scenarioWide))
   = yaml.SequenceNode)
  ∧ (ShContainers = ShLabels →
     yaml.Kind (default scenarioWide (nodeAt [0; 7; 3]%nat scenarioWide))
     = yaml.MappingNode)
  ∧ (ShContainers = ShSpec →
     "containers"
       ∈ pairKeys (yaml.Content (default scenarioWide (nodeAt [0; 7; 3]%nat scenarioWide))))
  ∧ (ShContainers = ShProbe →
     "httpGet"
       ∈ pairKeys (yaml.Content (default scenarioWide (nodeAt [0; 7; 3]%nat scenarioWide)))).
Proof.
  apply (accepted_kinds "pod.yaml" scenarioWide
           (default scenarioWide (nodeAt [0; 7; 3]%nat scenarioWide)) [0; 7; 3]%nat).
  - vm_compute. reflexivity.
  - reflexivity.
  - vm_compute. reflexivity.
Defined.

(** ** The text of an error *)

Example formatInt_examples :
  fmt.formatInt 0 = "0" ∧ fmt.formatInt 17 = "17" ∧ fmt.formatInt (-120) = "-120".
Proof. by vm_compute. Qed.

Example Error_example :
  Error {| FilePath := "pod.yaml"; Line := 12; Message := "kind is required" |}
  = "pod.yaml:12 kind is required".
Proof. by vm_compute. Qed.

Lemma string_of_uint_notSpace d :
  regexp.allOf notSpace (NilEmpty.string_of_uint d) = true.
Proof. induction d; simpl; done. Qed.

Lemma formatInt_notSpace n : regexp.allOf notSpace (fmt.formatInt n) = true.
Proof.
  unfold fmt.formatInt, NilZero.string_of_int, NilZero.string_of_uint.
  destruct (Z.to_int n) as [d|d]; destruct d; simpl; try done;
    apply string_of_uint_notSpace.
Qed.

Lemma formatInt_inj a b : fmt.formatInt a = fmt.formatInt b → a = b.
Proof.
  unfold fmt.formatInt. intros Heq. apply to_int_inj.
  assert (Hnn : ∀ z, Z.to_int z ≠ Decimal.Pos Decimal.Nil
                     ∧ Z.to_int z ≠ Decimal.Neg Decimal.Nil).
  { intros [|q|q]; simpl; split; try discriminate;
      intros [= Hq]; by apply Unsigned.to_uint_nonnil in Hq. }
  destruct (Hnn a), (Hnn b).
  assert (Some (Z.to_int a) = Some (Z.to_int b)) as [= ->]; [|done].
  rewrite <- (NilZero.isi (Z.to_int a)), <- (NilZero.isi (Z.to_int b)) by done.
  by rewrite Heq.
Qed.

Lemma app_inv_head s a b : s +:+ a = s +:+ b → a = b.
Proof.
  induction s as [|c s IH]; [done|].
  rewrite !regexp_facts.app_cons. intros [= ?]. auto.
Qed.

Lemma cut_at_space d1 : ∀ d2 m1 m2,
  regexp.allOf notSpace d1 = true → regexp.allOf notSpace d2 = true →
  d1 +:+ String " " m1 = d2 +:+ String " " m2 → d1 = d2 ∧ m1 = m2.
Proof.
  induction d1 as [|c d1 IH]; intros [|c2 d2] m1 m2 H1 H2;
    rewrite ?regexp_facts.app_cons; change ("" +:+ ?s) with s.
  - by intros [= ->].
  - intros [= <- _]. simpl in H2. done.
  - intros [= -> _]. simpl in H1. done.
  - intros [= -> Heq]. simpl in H1, H2.
    apply andb_prop in H1 as [_ H1]. apply andb_prop in H2 as [_ H2].
    destruct (IH _ _ _ H1 H2 Heq) as [-> ->]. done.
Qed.

Lemma Error_inj e1 e2 : FilePath e1 = FilePath e2 → Error e1 = Error e2 → e1 = e2.
Proof.
  destruct e1 as [p1 l1 m1], e2 as [p2 l2 m2]. unfold Error. simpl.
  intros -> Heq. apply app_inv_head in Heq.
  change (":" +:+ ?s) with (String ":" s) in Heq. injection Heq as Heq.
  change (" " +:+ ?s) with (String " " s) in Heq.
  apply cut_at_space in Heq as [Hl ->]; [|apply formatInt_notSpace..].
  by apply formatInt_inj in Hl as ->.
Qed.

(** For errors of one file the text is the same exactly when line and
    message are. *)
Lemma Error_eq_iff e1 e2 :
  FilePath e1 = FilePath e2 →
  Error e1 = Error e2 ↔ Line e1 = Line e2 ∧ Message e1 = Message e2.
Proof.
  intros Hp. split.
  - intros Heq. by rewrite (Error_inj e1 e2 Hp Heq).
  - intros [Hl Hm]. unfold Error. by rewrite Hp, Hl, Hm.
Qed.

(** Two entries of one result can have the same text: each of the labels
    [a] and [b], written on line 3, gives "label value must be string". *)
Example two_entries_one_text :
  ∃ errors e1 e2,
    fst <$> Validate (NewValidator "pod.yaml" scenarioFlowLabels) = Some errors
    ∧ errors !! 0%nat = Some e1 ∧ errors !! 1%nat = Some e2
    ∧ Error e1 = "pod.yaml:3 label value must be string"
    ∧ Error e2 = Error e1.
Proof. do 3 eexists. vm_compute. repeat split; reflexivity. Qed.

(** X20: of the errors that one [Validate] on a fresh validator returns,
    the text "<file>:<line> <message>" that [Error] gives keeps the line and
    the message and nothing else: two returned errors have the same text
    exactly when they have the same line and the same message.  It does not
    tell two entries of the result apart that agree in both. *)
Theorem printed_text_keeps_line_and_message
    (path : string) (root : yaml.Node) (errors : list ValidationError)
    (e1 e2 : ValidationError) :
  fst <$> Validate (NewValidator path root) = Some errors →
  e1 ∈ errors → e2 ∈ errors →
  Error e1 = Error e2 ↔ Line e1 = Line e2 ∧ Message e1 = Message e2.
Proof.
  destruct (Validate _) as [[errors' v']|] eqn:Hv; [|done].
  intros [= <-]. apply Validate_appended in Hv as (es & _ & -> & Hes). simpl.
  rewrite Forall_forall in Hes. intros H1 H2.
  destruct (Hes _ H1) as (_ & _ & Hp1 & _), (Hes _ H2) as (_ & _ & Hp2 & _).
  apply Error_eq_iff. simpl in *. congruence.
Qed.

Lemma printed_text_keeps_line_and_message_witness :
  Error {| FilePath := "pod.yaml"; Line := 7;
           Message := "name has invalid format 'WebApp'" |}
  = Error {| FilePath := "pod.yaml"; Line := 8;
             Message := "image has invalid format 'docker.io/app:1.0'" |}
  ↔ (7 = 8
     ∧ "name has invalid format 'WebApp'"
       = "image has invalid format 'docker.io/app:1.0'").
Proof.
  apply (printed_text_keeps_line_and_message "pod.yaml" scenarioB scenarioB_errors
           {| FilePath := "pod.yaml"; Line := 7;
              Message := "name has invalid format 'WebApp'" |}
           {| FilePath := "pod.yaml"; Line := 8;
              Message := "image has invalid format 'docker.io/app:1.0'" |}).
  - vm_compute. reflexivity.
  - apply list_elem_of_here.
  - apply list_elem_of_further, list_elem_of_here.
Defined.
